(** * KUBERA: the PE32+ parser of platform/src/portable_executable.cpp

    A shallow embedding of [PE::Parser] and the properties of its accessors.

    Conventions.
    - The image buffer is a [list byte]; file offsets and sizes ([size_t]) are
      non-negative [Z].  Every offset the parser forms is either below
      [2^37] or at most twenty past an offset at which it has just read
      within the buffer, so [size_t] arithmetic never wraps and is written
      exactly.
    - [uint32_t] and [uint64_t] values read from the file do wrap; each such
      operation of the source is written with [wrap32] or [wrap64].
    - A call of the source either returns, throws a [std::runtime_error]
      ([Throw]), forms an iterator beyond the end of the buffer, which is
      undefined behaviour ([ReadPastEnd]), or does not return ([OutOfFuel];
      chain resolution and the relocation walk, which have no bound of their
      own, take their fuel as a parameter). *)

From Stdlib Require Import ZArith List Lia Bool.
From Stdlib Require Import Strings.Byte Strings.Ascii.
From Stdlib Require Strings.String DecimalString.
Import String.StringSyntax.
Import ListNotations.
Local Open Scope string_scope.
Local Open Scope list_scope.
Local Open Scope Z_scope.

(** ** Outcomes of a call *)

Inductive error : Type :=
| NotPE                      (* "Not a valid PE file" *)
| BadNtSignature             (* "Invalid PE signature" *)
| UnsupportedMachine         (* "Not an x64 binary" *)
| UnsupportedOptionalMagic   (* "Not a PE32+ binary" *)
| BufferOverflow             (* "Buffer overflow reading structure" *)
| RvaUnmapped                (* "RVA not found in any section" *)
| SectionNotFound.           (* "Section <name> not found" *)

Inductive outcome (A : Type) : Type :=
| Ok (a : A)
| Throw (e : error)
| ReadPastEnd
| OutOfFuel.

Arguments Ok {A} a.
Arguments Throw {A} e.
Arguments ReadPastEnd {A}.
Arguments OutOfFuel {A}.

Definition bind {A B} (m : outcome A) (k : A -> outcome B) : outcome B :=
  match m with
  | Ok a => k a
  | Throw e => Throw e
  | ReadPastEnd => ReadPastEnd
  | OutOfFuel => OutOfFuel
  end.

Notation "x <- m ;; k" := (bind m (fun x => k))
  (at level 61, m at next level, right associativity).

(** [try { body } catch (...) { handler }]: only a thrown exception is caught. *)
Definition try_catch {A} (body : outcome A) (handler : outcome A) : outcome A :=
  match body with
  | Throw _ => handler
  | r => r
  end.

(** A range-for over a list whose body may fail; results are collected in
    order, as by [push_back] / [emplace_back]. *)
Fixpoint for_each {A B} (f : A -> outcome B) (l : list A) : outcome (list B) :=
  match l with
  | [] => Ok []
  | x :: r => y <- f x ;; ys <- for_each f r ;; Ok (y :: ys)
  end.

(** [std::views::iota(0u, n)] *)
Definition iota (n : Z) : list Z := map Z.of_nat (seq 0 (Z.to_nat n)).

(** ** Machine integers and bytes *)

Definition wrap16 (z : Z) : Z := z mod 2 ^ 16.
Definition wrap32 (z : Z) : Z := z mod 2 ^ 32.
Definition wrap64 (z : Z) : Z := z mod 2 ^ 64.

Definition byte_val (b : byte) : Z := Z.of_N (Byte.to_N b).

Definition byte_of_Z (z : Z) : byte :=
  match Byte.of_N (Z.to_N (z mod 256)) with
  | Some b => b
  | None => x00
  end.

(** Little-endian value of a run of bytes. *)
Fixpoint le_value (bs : list byte) : Z :=
  match bs with
  | [] => 0
  | b :: r => byte_val b + 256 * le_value r
  end.

(** The [n] bytes of [v], least significant first. *)
Fixpoint le_bytes (n : nat) (v : Z) : list byte :=
  match n with
  | O => []
  | S k => byte_of_Z v :: le_bytes k (v / 256)
  end.

Definition buffer_size (data : list byte) : Z := Z.of_nat (length data).

Definition slice (data : list byte) (offset len : Z) : list byte :=
  firstn (Z.to_nat len) (skipn (Z.to_nat offset) data).

(** A scalar field of [width] bytes at byte [at_] of a structure image. *)
Definition field (bs : list byte) (at_ : Z) (width : Z) : Z :=
  le_value (slice bs at_ width).

(** ** Fixed-layout structures

    [Struct T] is what the template parameter of [read_struct<T>] provides:
    [sizeof(T)] and the meaning of the copied bytes. *)

Record Struct (T : Type) : Type := {
  sizeof : Z;
  of_bytes : list byte -> T
}.
Arguments sizeof {T} _.
Arguments of_bytes {T} _ _.

Definition scalar (width : Z) : Struct Z :=
  {| sizeof := width; of_bytes := fun bs => le_value bs |}.

Definition uint16_t : Struct Z := scalar 2.
Definition uint32_t : Struct Z := scalar 4.
Definition uint64_t : Struct Z := scalar 8.

(** [Parser::read_struct<T>]: the bounds check, then [memcpy]. *)
Definition read_struct {T} (t : Struct T) (data : list byte) (offset : Z)
  : outcome T :=
  if offset + sizeof t >? buffer_size data then Throw BufferOverflow
  else Ok (of_bytes t (slice data offset (sizeof t))).

(** [std::find (begin + offset, end, 0)] and the string built from the range:
    the bytes from [offset] up to the first zero byte, or up to the end of the
    data when there is none.  [begin + offset] past the end is undefined. *)
Fixpoint until_nul (bs : list byte) : list byte :=
  match bs with
  | [] => []
  | b :: r => if Byte.eqb b x00 then [] else b :: until_nul r
  end.

Definition cstring_at (data : list byte) (offset : Z) : list byte :=
  until_nul (skipn (Z.to_nat offset) data).

Definition read_cstring (data : list byte) (offset : Z) : outcome (list byte) :=
  if offset >? buffer_size data then ReadPastEnd
  else Ok (cstring_at data offset).

(** [std::vector<uint8_t> (begin + start, begin + start + len)]: the copy
    reads the [len] bytes from [start] on.  An empty range reads nothing and
    gives the empty vector, wherever it starts; a non-empty one that ends
    behind the buffer is read past the end. *)
Definition copy_range (data : list byte) (start len : Z) : outcome (list byte) :=
  if (len >? 0) && (start + len >? buffer_size data) then ReadPastEnd
  else Ok (slice data start len).

(** ** The on-disk records

    Modelled from the spec: platform/portable_executable.hpp is not part of the
    sources; the records below follow the documented PE on-disk layout the
    spec prescribes (little-endian scalars, no padding).  Fields that no
    accessor inspects are left out of a record, their bytes are still counted
    in [sizeof]. *)

Module DosHeader.
Record t : Type := mk { e_magic : Z; e_lfanew : Z }.
Definition layout : Struct t :=
  {| sizeof := 64;
     of_bytes := fun bs => mk (field bs 0 2) (field bs 60 4) |}.
End DosHeader.

Module FileHeader.
Record t : Type := mk {
  machine : Z;
  number_of_sections : Z;
  time_date_stamp : Z;
  pointer_to_symbol_table : Z;
  number_of_symbols : Z;
  size_of_optional_header : Z;
  characteristics : Z
}.
Definition layout : Struct t :=
  {| sizeof := 20;
     of_bytes := fun bs =>
       mk (field bs 0 2) (field bs 2 2) (field bs 4 4) (field bs 8 4)
          (field bs 12 4) (field bs 16 2) (field bs 18 2) |}.
End FileHeader.

Module DataDirectory.
Record t : Type := mk { virtual_address : Z; size : Z }.
Definition layout : Struct t :=
  {| sizeof := 8; of_bytes := fun bs => mk (field bs 0 4) (field bs 4 4) |}.
Definition empty : t := mk 0 0.
End DataDirectory.

Module OptionalHeader.
Record t : Type := mk {
  magic : Z;
  address_of_entry_point : Z;
  image_base : Z;
  data_directories : list DataDirectory.t   (* std::array<DataDirectory, 16> *)
}.
Definition layout : Struct t :=
  {| sizeof := 240;
     of_bytes := fun bs =>
       mk (field bs 0 2) (field bs 16 4) (field bs 24 8)
          (map (fun i => of_bytes DataDirectory.layout (slice bs (112 + 8 * i) 8))
               (iota 16)) |}.
End OptionalHeader.

Module SectionHeader.
Record t : Type := mk {
  name : list byte;                      (* std::array<uint8_t, 8> *)
  virtual_size : Z;
  virtual_address : Z;
  size_of_raw_data : Z;
  pointer_to_raw_data : Z;
  pointer_to_relocations : Z;
  pointer_to_linenumbers : Z;
  number_of_relocations : Z;
  number_of_linenumbers : Z;
  characteristics : Z
}.
Definition layout : Struct t :=
  {| sizeof := 40;
     of_bytes := fun bs =>
       mk (slice bs 0 8) (field bs 8 4) (field bs 12 4) (field bs 16 4)
          (field bs 20 4) (field bs 24 4) (field bs 28 4) (field bs 32 2)
          (field bs 34 2) (field bs 36 4) |}.
End SectionHeader.

Definition scn_mem_execute : Z := 0x20000000.

Record PEInfoAligned : Type := {
  dos_header : DosHeader.t;
  file_header : FileHeader.t;
  optional_header : OptionalHeader.t;
  section_headers : list SectionHeader.t;
  data_directories : list DataDirectory.t
}.

(** ** The parser object *)

Record Parser : Type := {
  buffer_ : list byte;
  pe_info_ : PEInfoAligned;
  override_base_address_ : Z;
  override_entry_point_ : Z
}.

(** ** Address mapper *)

Definition is_rva_in_section (rva : Z) (section : SectionHeader.t) : bool :=
  (rva >=? SectionHeader.virtual_address section) &&
  (rva <? wrap32 (SectionHeader.virtual_address section +
                  SectionHeader.virtual_size section)).

Definition rva_to_offset (p : Parser) (rva : Z) : outcome Z :=
  match find (is_rva_in_section rva) (section_headers (pe_info_ p)) with
  | None => Throw RvaUnmapped
  | Some it =>
      Ok (wrap32 (rva - SectionHeader.virtual_address it +
                  SectionHeader.pointer_to_raw_data it))
  end.

(** The section covers the RVA, as the source tests it: the upper bound is
    the [uint32_t] sum of address and virtual size. *)
Definition covers (s : SectionHeader.t) (r : Z) : Prop :=
  SectionHeader.virtual_address s <= r <
  wrap32 (SectionHeader.virtual_address s + SectionHeader.virtual_size s).

(** ** Header parser *)

Definition parse (buffer : list byte) : outcome PEInfoAligned :=
  dos_header <- read_struct DosHeader.layout buffer 0 ;;
  if negb (DosHeader.e_magic dos_header =? 0x5A4D) then Throw NotPE else
  let pe_offset := DosHeader.e_lfanew dos_header in
  signature <- read_struct uint32_t buffer pe_offset ;;
  if negb (signature =? 0x00004550) then Throw BadNtSignature else
  file_header <- read_struct FileHeader.layout buffer (pe_offset + 4) ;;
  if negb (FileHeader.machine file_header =? 0x8664)
  then Throw UnsupportedMachine else
  optional_header <- read_struct OptionalHeader.layout buffer
                       (pe_offset + 4 + sizeof FileHeader.layout) ;;
  if negb (OptionalHeader.magic optional_header =? 0x20b)
  then Throw UnsupportedOptionalMagic else
  let data_dirs := OptionalHeader.data_directories optional_header in
  let section_offset := pe_offset + 4 + sizeof FileHeader.layout +
                        FileHeader.size_of_optional_header file_header in
  sections <- for_each
                (fun i => read_struct SectionHeader.layout buffer
                            (section_offset + i * sizeof SectionHeader.layout))
                (iota (FileHeader.number_of_sections file_header)) ;;
  Ok {| dos_header := dos_header;
        file_header := file_header;
        optional_header := optional_header;
        section_headers := sections;
        data_directories := data_dirs |}.

(** The four format checks of [parse], each on the header read before it. *)
Definition dos_magic_ok (dos : DosHeader.t) : Prop :=
  DosHeader.e_magic dos = 0x5A4D.
Definition nt_signature_ok (signature : Z) : Prop :=
  signature = 0x00004550.
Definition machine_ok (fh : FileHeader.t) : Prop :=
  FileHeader.machine fh = 0x8664.
Definition optional_magic_ok (oh : OptionalHeader.t) : Prop :=
  OptionalHeader.magic oh = 0x20b.

(** Construction from a loaded buffer: [buffer_] is filled, [parse] runs once,
    both overrides start at zero. *)
Definition Parser_new (buffer : list byte) : outcome Parser :=
  info <- parse buffer ;;
  Ok {| buffer_ := buffer;
        pe_info_ := info;
        override_base_address_ := 0;
        override_entry_point_ := 0 |}.

(** ** Computed addresses and the two overrides *)

Definition get_image_base (p : Parser) : Z :=
  if negb (override_base_address_ p =? 0) then override_base_address_ p
  else OptionalHeader.image_base (optional_header (pe_info_ p)).

Definition get_entry_point (p : Parser) : Z :=
  if negb (override_entry_point_ p =? 0)
  then wrap64 (get_image_base p + override_entry_point_ p)
  else wrap64 (OptionalHeader.image_base (optional_header (pe_info_ p)) +
               OptionalHeader.address_of_entry_point
                 (optional_header (pe_info_ p))).

Definition override_base_address (p : Parser) (address : Z) : Parser :=
  {| buffer_ := buffer_ p;
     pe_info_ := pe_info_ p;
     override_base_address_ := address;
     override_entry_point_ := override_entry_point_ p |}.

Definition override_entry_point (p : Parser) (address : Z) : Parser :=
  {| buffer_ := buffer_ p;
     pe_info_ := pe_info_ p;
     override_base_address_ := override_base_address_ p;
     override_entry_point_ := address |}.

(** ** Section views *)

(** [std::string::starts_with] *)
Fixpoint starts_with (s prefix : list byte) : bool :=
  match prefix with
  | [] => true
  | c :: prefix' =>
      match s with
      | [] => false
      | d :: s' => Byte.eqb d c && starts_with s' prefix'
      end
  end.

Definition get_section_data (p : Parser) (section_name : list byte)
  : outcome (list byte) :=
  match find (fun s => starts_with (SectionHeader.name s) section_name)
             (section_headers (pe_info_ p)) with
  | None => Throw SectionNotFound
  | Some section =>
      copy_range (buffer_ p) (SectionHeader.pointer_to_raw_data section)
                 (SectionHeader.size_of_raw_data section)
  end.

Definition get_text_section_data (p : Parser) : outcome (list byte) :=
  get_section_data p (String.list_byte_of_string ".text").

Module SectionData.
Record t : Type := mk {
  name : list byte;
  data : list byte;
  virtual_address : Z;
  executable : bool
}.
End SectionData.

Definition is_executable (s : SectionHeader.t) : bool :=
  negb (Z.land (SectionHeader.characteristics s) scn_mem_execute =? 0).

Definition section_view (p : Parser) (executable : SectionHeader.t -> bool)
  (section : SectionHeader.t) : outcome SectionData.t :=
  let name := until_nul (SectionHeader.name section) in
  let start := SectionHeader.pointer_to_raw_data section in
  bytes <- copy_range (buffer_ p) start (SectionHeader.size_of_raw_data section) ;;
  Ok (SectionData.mk name bytes
        (wrap64 (get_image_base p + SectionHeader.virtual_address section))
        (executable section)).

Definition get_executable_sections_data (p : Parser)
  : outcome (list SectionData.t) :=
  for_each (section_view p (fun _ => true))
           (filter is_executable (section_headers (pe_info_ p))).

Definition get_all_sections_data (p : Parser) : outcome (list SectionData.t) :=
  for_each (section_view p is_executable) (section_headers (pe_info_ p)).

(** [pe_info_.data_directories [i]]; [parse] always stores sixteen entries
    (lemma [parse_data_directories]). *)
Definition data_directory (p : Parser) (i : nat) : DataDirectory.t :=
  nth i (data_directories (pe_info_ p)) DataDirectory.empty.

(** Fuel of the walks that advance by a fixed stride and stop at the first
    failing [read_struct]: more iterations than the buffer has bytes are
    impossible (lemmas [import_entries_fuel], [tls_callbacks_fuel], ...). *)
Definition walk_fuel (p : Parser) : nat := S (length (buffer_ p)).

(** ** Imports *)

Module ImportDirectory.
Record t : Type := mk {
  import_lookup_table_rva : Z;
  time_date_stamp : Z;
  forwarder_chain : Z;
  name_rva : Z;
  import_address_table_rva : Z
}.
Definition layout : Struct t :=
  {| sizeof := 20;
     of_bytes := fun bs =>
       mk (field bs 0 4) (field bs 4 4) (field bs 8 4) (field bs 12 4)
          (field bs 16 4) |}.
End ImportDirectory.

Module ImportLookupEntry64.
Record t : Type := mk { data : Z }.
Definition layout : Struct t :=
  {| sizeof := 8; of_bytes := fun bs => mk (field bs 0 8) |}.
End ImportLookupEntry64.

Module ImportEntry.
Record t : Type := mk {
  ordinal : Z;
  name : option (list byte);
  thunk_rva : Z
}.
End ImportEntry.

(** The body of the [while (true)] loop for one non-zero ILT slot. *)
Definition import_entry (p : Parser) (iat_base_rva index data : Z)
  : outcome ImportEntry.t :=
  let thunk_rva := iat_base_rva + index * sizeof uint64_t in
  if negb (Z.land data (Z.shiftl 1 63) =? 0)
  then Ok (ImportEntry.mk (wrap32 (Z.land data 0xFFFF)) None thunk_rva)
  else
    mapped <- rva_to_offset p (wrap32 (Z.land data 0x7FFFFFFF)) ;;
    let name_offset := mapped + 2 in
    name <- read_cstring (buffer_ p) name_offset ;;
    Ok (ImportEntry.mk 0 (Some name) thunk_rva).

Fixpoint import_entries (fuel : nat) (p : Parser)
  (iat_base_rva lookup_offset index : Z) : outcome (list ImportEntry.t) :=
  match fuel with
  | O => OutOfFuel
  | S fuel' =>
      entry <- read_struct ImportLookupEntry64.layout (buffer_ p) lookup_offset ;;
      if ImportLookupEntry64.data entry =? 0 then Ok [] else
      e <- import_entry p iat_base_rva index (ImportLookupEntry64.data entry) ;;
      rest <- import_entries fuel' p iat_base_rva
                (lookup_offset + sizeof ImportLookupEntry64.layout) (index + 1) ;;
      Ok (e :: rest)
  end.

Fixpoint import_descriptors (fuel : nat) (p : Parser) (current_offset : Z)
  : outcome (list (list byte * list ImportEntry.t)) :=
  match fuel with
  | O => OutOfFuel
  | S fuel' =>
      if current_offset + sizeof ImportDirectory.layout <=? buffer_size (buffer_ p)
      then
        import <- read_struct ImportDirectory.layout (buffer_ p) current_offset ;;
        if ImportDirectory.import_lookup_table_rva import =? 0 then Ok [] else
        name_start <- rva_to_offset p (ImportDirectory.name_rva import) ;;
        dll_name <- read_cstring (buffer_ p) name_start ;;
        lookup_offset <- rva_to_offset p
                           (ImportDirectory.import_lookup_table_rva import) ;;
        entries <- import_entries (walk_fuel p) p
                     (ImportDirectory.import_address_table_rva import)
                     lookup_offset 0 ;;
        rest <- import_descriptors fuel' p
                  (current_offset + sizeof ImportDirectory.layout) ;;
        Ok ((dll_name, entries) :: rest)
      else Ok []
  end.

Definition get_import_directory (p : Parser)
  : outcome (list (list byte * list ImportEntry.t)) :=
  let import_dir := data_directory p 1 in
  if DataDirectory.virtual_address import_dir =? 0 then Ok [] else
  offset <- rva_to_offset p (DataDirectory.virtual_address import_dir) ;;
  import_descriptors (walk_fuel p) p offset.

(** ** Base relocations *)

Module BaseRelocationBlock.
Record t : Type := mk { virtual_address : Z; size_of_block : Z }.
Definition layout : Struct t :=
  {| sizeof := 8; of_bytes := fun bs => mk (field bs 0 4) (field bs 4 4) |}.
End BaseRelocationBlock.

Module BaseRelocationEntry.
Record t : Type := mk { offset : Z }.
Definition layout : Struct t :=
  {| sizeof := 2; of_bytes := fun bs => mk (field bs 0 2) |}.
End BaseRelocationEntry.

Module RelocationEntry.
Record t : Type := mk { type : Z; offset : Z }.
End RelocationEntry.

(** The [while] loop has no bound besides [offset + reloc_dir.size] and a
    failing read, and a block of size zero does not advance: [fuel] is a
    parameter.  On a file below 4 GiB a block shorter than its header makes
    the read of its entries fail, and the walk is bounded all the same (lemma
    [get_relocation_directory_returns]). *)
Fixpoint relocation_blocks (fuel : nat) (p : Parser)
  (offset dir_size current_offset : Z)
  : outcome (list (Z * list RelocationEntry.t)) :=
  match fuel with
  | O => OutOfFuel
  | S fuel' =>
      if current_offset <? offset + dir_size then
        block <- read_struct BaseRelocationBlock.layout (buffer_ p)
                   current_offset ;;
        let entry_count :=
          wrap32 (BaseRelocationBlock.size_of_block block - 8) / 2 in
        entries <- for_each
          (fun i =>
             entry <- read_struct BaseRelocationEntry.layout (buffer_ p)
                        (current_offset + 8 +
                         i * sizeof BaseRelocationEntry.layout) ;;
             Ok (RelocationEntry.mk
                   (wrap16 (Z.land (Z.shiftr (BaseRelocationEntry.offset entry) 12)
                                   0xF))
                   (wrap16 (Z.land (BaseRelocationEntry.offset entry) 0xFFF))))
          (iota entry_count) ;;
        rest <- relocation_blocks fuel' p offset dir_size
                  (current_offset + BaseRelocationBlock.size_of_block block) ;;
        Ok ((BaseRelocationBlock.virtual_address block, entries) :: rest)
      else Ok []
  end.

Definition get_relocation_directory (fuel : nat) (p : Parser)
  : outcome (list (Z * list RelocationEntry.t)) :=
  let reloc_dir := data_directory p 5 in
  if DataDirectory.virtual_address reloc_dir =? 0 then Ok [] else
  offset <- rva_to_offset p (DataDirectory.virtual_address reloc_dir) ;;
  relocation_blocks fuel p offset (DataDirectory.size reloc_dir) offset.

(** ** Exceptions (x64 unwind) and chain resolution *)

Module RuntimeFunction.
Record t : Type := mk {
  begin_address : Z;
  end_address : Z;
  unwind_info_address : Z
}.
Definition layout : Struct t :=
  {| sizeof := 12;
     of_bytes := fun bs => mk (field bs 0 4) (field bs 4 4) (field bs 8 4) |}.
End RuntimeFunction.

Module UnwindCode.
Definition sizeof : Z := 2.
End UnwindCode.

Module UnwindInfo.
Record t : Type := mk {
  version : Z;            (* bits 0..2 of the first byte *)
  flags : Z;              (* bits 3..7 of the first byte *)
  size_of_prolog : Z;
  count_of_codes : Z;
  frame_register : Z;     (* bits 0..3 of the fourth byte *)
  frame_offset : Z;       (* bits 4..7 of the fourth byte *)
  unwind_code : Z         (* unwind_code [1] *)
}.
Definition offsetof_unwind_code : Z := 4.
Definition layout : Struct t :=
  {| sizeof := 6;
     of_bytes := fun bs =>
       mk (Z.land (field bs 0 1) 7) (Z.shiftr (field bs 0 1) 3)
          (field bs 1 1) (field bs 2 1)
          (Z.land (field bs 3 1) 15) (Z.shiftr (field bs 3 1) 4)
          (field bs 4 2) |}.
End UnwindInfo.

(** The recursion of the source follows the chain with no bound of its own;
    [fuel] counts the calls and [OutOfFuel] stands for a chain that is still
    being followed after [fuel] calls. *)
Fixpoint resolve_chained_function (fuel : nat) (p : Parser) (base_offset : Z)
  (func : RuntimeFunction.t) : outcome RuntimeFunction.t :=
  match fuel with
  | O => OutOfFuel
  | S fuel' =>
      if RuntimeFunction.unwind_info_address func =? 0 then Ok func else
      try_catch
        (mapped <- rva_to_offset p (RuntimeFunction.unwind_info_address func) ;;
         unwind_info <- read_struct UnwindInfo.layout (buffer_ p) mapped ;;
         if negb (Z.land (UnwindInfo.flags unwind_info) 0x4 =? 0) then
           let index := UnwindInfo.count_of_codes unwind_info in
           let index :=
             if negb (Z.land index 1 =? 0) then wrap32 (index + 1) else index in
           mapped' <- rva_to_offset p
                        (RuntimeFunction.unwind_info_address func) ;;
           let chain_offset :=
             mapped' + UnwindInfo.offsetof_unwind_code +
             index * UnwindCode.sizeof in
           chain_func <- read_struct RuntimeFunction.layout (buffer_ p)
                           chain_offset ;;
           resolve_chained_function fuel' p base_offset chain_func
         else Ok func)
        (Ok func)
  end.

Definition get_exception_directory (fuel : nat) (p : Parser)
  : outcome (list (RuntimeFunction.t * option UnwindInfo.t)) :=
  let exception_dir := data_directory p 3 in
  if DataDirectory.virtual_address exception_dir =? 0 then Ok [] else
  offset <- rva_to_offset p (DataDirectory.virtual_address exception_dir) ;;
  let entry_count :=
    DataDirectory.size exception_dir / sizeof RuntimeFunction.layout in
  for_each
    (fun i =>
       func <- read_struct RuntimeFunction.layout (buffer_ p)
                 (offset + i * sizeof RuntimeFunction.layout) ;;
       resolved_func <- resolve_chained_function fuel p offset func ;;
       unwind_info <-
         (if negb (RuntimeFunction.unwind_info_address resolved_func =? 0) then
            try_catch
              (mapped <- rva_to_offset p
                           (RuntimeFunction.unwind_info_address resolved_func) ;;
               u <- read_struct UnwindInfo.layout (buffer_ p) mapped ;;
               Ok (Some u))
              (Ok None)
          else Ok None) ;;
       Ok (resolved_func, unwind_info))
    (iota entry_count).

(** ** TLS *)

Module TlsDirectory64.
Record t : Type := mk {
  start_address_of_raw_data : Z;
  end_address_of_raw_data : Z;
  address_of_index : Z;
  address_of_callbacks : Z;
  size_of_zero_fill : Z;
  characteristics : Z
}.
Definition layout : Struct t :=
  {| sizeof := 40;
     of_bytes := fun bs =>
       mk (field bs 0 8) (field bs 8 8) (field bs 16 8) (field bs 24 8)
          (field bs 32 4) (field bs 36 4) |}.
Definition zero : t := mk 0 0 0 0 0 0.
End TlsDirectory64.

Fixpoint tls_callbacks (fuel : nat) (p : Parser) (current_offset : Z)
  : outcome (list Z) :=
  match fuel with
  | O => OutOfFuel
  | S fuel' =>
      callback <- read_struct uint64_t (buffer_ p) current_offset ;;
      if callback =? 0 then Ok [] else
      rest <- tls_callbacks fuel' p (current_offset + sizeof uint64_t) ;;
      Ok (callback :: rest)
  end.

Definition get_tls_directory (p : Parser)
  : outcome (TlsDirectory64.t * list Z) :=
  let tls_dir := data_directory p 9 in
  if DataDirectory.virtual_address tls_dir =? 0
  then Ok (TlsDirectory64.zero, []) else
  offset <- rva_to_offset p (DataDirectory.virtual_address tls_dir) ;;
  tls <- read_struct TlsDirectory64.layout (buffer_ p) offset ;;
  callbacks <-
    (if negb (TlsDirectory64.address_of_callbacks tls =? 0) then
       callback_offset <- rva_to_offset p
                            (wrap32 (TlsDirectory64.address_of_callbacks tls)) ;;
       tls_callbacks (walk_fuel p) p callback_offset
     else Ok []) ;;
  Ok (tls, callbacks).

(** ** Debug *)

Module DebugDirectory.
Record t : Type := mk {
  characteristics : Z;
  time_date_stamp : Z;
  major_version : Z;
  minor_version : Z;
  type_ : Z;
  size_of_data : Z;
  address_of_raw_data : Z;
  pointer_to_raw_data : Z
}.
Definition layout : Struct t :=
  {| sizeof := 28;
     of_bytes := fun bs =>
       mk (field bs 0 4) (field bs 4 4) (field bs 8 2) (field bs 10 2)
          (field bs 12 4) (field bs 16 4) (field bs 20 4) (field bs 24 4) |}.
End DebugDirectory.

Definition debug_entry (p : Parser) (offset i : Z)
  : outcome (DebugDirectory.t * option (list byte)) :=
  entry <- read_struct DebugDirectory.layout (buffer_ p)
             (offset + i * sizeof DebugDirectory.layout) ;;
  debug_data <-
    (if negb (DebugDirectory.pointer_to_raw_data entry =? 0) &&
        negb (DebugDirectory.size_of_data entry =? 0)
     then
       let start := DebugDirectory.pointer_to_raw_data entry in
       bytes <- copy_range (buffer_ p) start (DebugDirectory.size_of_data entry) ;;
       Ok (Some bytes)
     else Ok None) ;;
  Ok (entry, debug_data).

Definition get_debug_directory (p : Parser)
  : outcome (list (DebugDirectory.t * option (list byte))) :=
  let debug_dir := data_directory p 6 in
  if DataDirectory.virtual_address debug_dir =? 0 then Ok [] else
  offset <- rva_to_offset p (DataDirectory.virtual_address debug_dir) ;;
  let entry_count :=
    DataDirectory.size debug_dir / sizeof DebugDirectory.layout in
  for_each (debug_entry p offset) (iota entry_count).

(** ** Exports *)

Module ExportDirectory.
Record t : Type := mk {
  characteristics : Z;
  time_date_stamp : Z;
  major_version : Z;
  minor_version : Z;
  name_rva : Z;
  base : Z;
  number_of_functions : Z;
  number_of_names : Z;
  address_of_functions : Z;
  address_of_names : Z;
  address_of_name_ordinals : Z
}.
Definition layout : Struct t :=
  {| sizeof := 40;
     of_bytes := fun bs =>
       mk (field bs 0 4) (field bs 4 4) (field bs 8 2) (field bs 10 2)
          (field bs 12 4) (field bs 16 4) (field bs 20 4) (field bs 24 4)
          (field bs 28 4) (field bs 32 4) (field bs 36 4) |}.
Definition zero : t := mk 0 0 0 0 0 0 0 0 0 0 0.
End ExportDirectory.

Module ExportEntry.
Record t : Type := mk {
  name : list byte;
  ordinal : Z;
  forwarder_ordinal : option Z;
  address : Z
}.
End ExportEntry.

(** The test of the source that decides whether an export is a forwarder, in
    [uint32_t] arithmetic. *)
Definition in_export_range (export_dir : DataDirectory.t) (function_rva : Z)
  : bool :=
  (function_rva >=? DataDirectory.virtual_address export_dir) &&
  (function_rva <? wrap32 (DataDirectory.virtual_address export_dir +
                           DataDirectory.size export_dir)).

(** The three table reads of one iteration of the export loop. *)
Definition export_name_rva (p : Parser) (names_offset i : Z) : outcome Z :=
  read_struct uint32_t (buffer_ p) (names_offset + i * sizeof uint32_t).

Definition export_table_ordinal (p : Parser) (ordinals_offset i : Z)
  : outcome Z :=
  read_struct uint16_t (buffer_ p) (ordinals_offset + i * sizeof uint16_t).

Definition export_function_rva (p : Parser) (functions_offset ordinal : Z)
  : outcome Z :=
  read_struct uint32_t (buffer_ p) (functions_offset + ordinal * sizeof uint32_t).

Definition export_entry (p : Parser) (export_dir : DataDirectory.t)
  (export_table : ExportDirectory.t)
  (functions_offset names_offset ordinals_offset i : Z)
  : outcome ExportEntry.t :=
  name_rva <- export_name_rva p names_offset i ;;
  ordinal <- export_table_ordinal p ordinals_offset i ;;
  function_rva <- export_function_rva p functions_offset ordinal ;;
  name <-
    (if negb (name_rva =? 0) then
       name_start <- rva_to_offset p name_rva ;;
       read_cstring (buffer_ p) name_start
     else Ok []) ;;
  let forwarder_ordinal :=
    if in_export_range export_dir function_rva then Some ordinal else None in
  Ok (ExportEntry.mk name
        (wrap32 (ordinal + ExportDirectory.base export_table))
        forwarder_ordinal
        (if negb (function_rva =? 0)
         then wrap64 (get_image_base p + function_rva) else 0)).

Definition get_export_directory (p : Parser)
  : outcome (ExportDirectory.t * list ExportEntry.t) :=
  let export_dir := data_directory p 0 in
  if DataDirectory.virtual_address export_dir =? 0
  then Ok (ExportDirectory.zero, []) else
  offset <- rva_to_offset p (DataDirectory.virtual_address export_dir) ;;
  export_table <- read_struct ExportDirectory.layout (buffer_ p) offset ;;
  dll_name <-
    (if negb (ExportDirectory.name_rva export_table =? 0) then
       name_start <- rva_to_offset p (ExportDirectory.name_rva export_table) ;;
       read_cstring (buffer_ p) name_start
     else Ok []) ;;
  functions_offset <-
    rva_to_offset p (ExportDirectory.address_of_functions export_table) ;;
  names_offset <-
    rva_to_offset p (ExportDirectory.address_of_names export_table) ;;
  ordinals_offset <-
    rva_to_offset p (ExportDirectory.address_of_name_ordinals export_table) ;;
  entries <- for_each
               (export_entry p export_dir export_table
                  functions_offset names_offset ordinals_offset)
               (iota (ExportDirectory.number_of_names export_table)) ;;
  Ok (export_table, entries).

(** ** Symbol URL

    Modelled from the spec: [CV_INFO_PDB70] and [CV_INFO_PDB20] are declared in
    the missing header; they are the packed CodeView records of the spec, each
    ending in [char pdb_name [1]], so [sizeof] is 24 + 1 and 16 + 1. *)

Module CV_INFO_PDB70.
Record t : Type := mk {
  cv_signature : Z;
  guid_data1 : Z;
  guid_data2 : Z;
  guid_data3 : Z;
  guid_data4 : list byte;     (* uint8_t [8] *)
  age : Z
}.
Definition layout : Struct t :=
  {| sizeof := 25;
     of_bytes := fun bs =>
       mk (field bs 0 4) (field bs 4 4) (field bs 8 2) (field bs 10 2)
          (slice bs 12 8) (field bs 20 4) |}.
End CV_INFO_PDB70.

Module CV_INFO_PDB20.
Record t : Type := mk {
  cv_signature : Z;
  offset : Z;
  signature : Z;
  age : Z
}.
Definition layout : Struct t :=
  {| sizeof := 17;
     of_bytes := fun bs =>
       mk (field bs 0 4) (field bs 4 4) (field bs 8 4) (field bs 12 4) |}.
End CV_INFO_PDB20.

Definition hex_digit (d : Z) : ascii :=
  nth (Z.to_nat d) (String.list_ascii_of_string "0123456789ABCDEF") "0"%char.

(** [%0wX] for a value below [16^w], which every argument of the two
    [snprintf] calls is by its type. *)
Fixpoint format_X (w : nat) (v : Z) : String.string :=
  match w with
  | O => String.EmptyString
  | S k => String.append (format_X k (v / 16))
             (String.String (hex_digit (v mod 16)) String.EmptyString)
  end.

(** [std::format ("{}", v)] for an unsigned integer: decimal digits. *)
Definition format_decimal (v : Z) : String.string :=
  DecimalString.NilZero.string_of_uint (N.to_uint (Z.to_N v)).

Definition npos : Z := 2 ^ 64 - 1.

(** [std::string::find_last_of (chars)]: the index of the last character of
    [s] that occurs in [chars], [npos] when there is none. *)
Fixpoint find_last_of (s chars : list byte) : Z :=
  match s with
  | [] => npos
  | c :: r =>
      let i := find_last_of r chars in
      if negb (i =? npos) then i + 1
      else if existsb (Byte.eqb c) chars then 0 else npos
  end.

(** [std::string::substr (pos)] for [pos <= size]. *)
Definition substr (s : list byte) (pos : Z) : list byte :=
  skipn (Z.to_nat pos) s.

Definition path_separators : list byte :=
  String.list_byte_of_string "\/".

Definition pdb_filename_of (pdb_name : list byte) : list byte :=
  substr pdb_name (wrap64 (find_last_of pdb_name path_separators + 1)).

Definition guid_string (cv_info : CV_INFO_PDB70.t) : String.string :=
  String.append (format_X 8 (CV_INFO_PDB70.guid_data1 cv_info))
 (String.append (format_X 4 (CV_INFO_PDB70.guid_data2 cv_info))
 (String.append (format_X 4 (CV_INFO_PDB70.guid_data3 cv_info))
    (String.concat String.EmptyString
       (map (fun b => format_X 2 (byte_val b))
            (CV_INFO_PDB70.guid_data4 cv_info))))).

(** The [std::format] call shared by both branches. *)
Definition symbol_url (pdb_filename : list byte) (guid_upper : String.string)
  (age : Z) : String.string :=
  String.append "https://msdl.microsoft.com/download/symbols/"
 (String.append (String.string_of_list_byte pdb_filename)
 (String.append "/"
 (String.append guid_upper
 (String.append (format_decimal age)
 (String.append "/" (String.string_of_list_byte pdb_filename)))))).

(** One iteration of the loop of [get_pdb_url]; [None] is [continue]. *)
Definition pdb_url_of_record (record : DebugDirectory.t * option (list byte))
  : outcome (option String.string) :=
  let (entry, data_opt) := record in
  match data_opt with
  | None => Ok None
  | Some data =>
      if negb (DebugDirectory.type_ entry =? 2) then Ok None else
      if buffer_size data <? 4 then Ok None else
      signature <- read_struct uint32_t data 0 ;;
      if signature =? 0x53445352 then
        if buffer_size data <? sizeof CV_INFO_PDB70.layout then Ok None else
        cv_info <- read_struct CV_INFO_PDB70.layout data 0 ;;
        let name_offset := sizeof CV_INFO_PDB70.layout - 1 in
        let tail := skipn (Z.to_nat name_offset) data in
        if negb (existsb (Byte.eqb x00) tail) then Ok None else
        let pdb_name := until_nul tail in
        let pdb_filename := pdb_filename_of pdb_name in
        Ok (Some (symbol_url pdb_filename (guid_string cv_info)
                    (CV_INFO_PDB70.age cv_info)))
      else if signature =? 0x3031424E then
        if buffer_size data <? sizeof CV_INFO_PDB20.layout then Ok None else
        cv_info <- read_struct CV_INFO_PDB20.layout data 0 ;;
        let name_offset := sizeof CV_INFO_PDB20.layout - 1 in
        let tail := skipn (Z.to_nat name_offset) data in
        if negb (existsb (Byte.eqb x00) tail) then Ok None else
        let pdb_name := until_nul tail in
        let pdb_filename := pdb_filename_of pdb_name in
        Ok (Some (symbol_url pdb_filename
                    (format_X 8 (CV_INFO_PDB20.signature cv_info))
                    (CV_INFO_PDB20.age cv_info)))
      else Ok None
  end.

Fixpoint first_pdb_url (debug_data : list (DebugDirectory.t * option (list byte)))
  : outcome (option String.string) :=
  match debug_data with
  | [] => Ok None
  | record :: rest =>
      r <- pdb_url_of_record record ;;
      match r with
      | Some url => Ok (Some url)
      | None => first_pdb_url rest
      end
  end.

Definition get_pdb_url (p : Parser) : outcome (option String.string) :=
  debug_data <- get_debug_directory p ;;
  first_pdb_url debug_data.

(** ** Vocabulary of the statements *)

(** The parser object of a parsed image: its cached headers are those [parse]
    builds from its buffer; the overrides are arbitrary. *)
Definition parsed (p : Parser) : Prop :=
  parse (buffer_ p) = Ok (pe_info_ p).

(** An RVA lies within a data directory's own range, as the source tests it:
    the upper bound is the [uint32_t] sum of address and size. *)
Definition directory_covers (dir : DataDirectory.t) (rva : Z) : Prop :=
  DataDirectory.virtual_address dir <= rva <
  wrap32 (DataDirectory.virtual_address dir + DataDirectory.size dir).


(** The callback slot number [k] of a TLS callback array at file offset
    [callback_offset]. *)
Definition tls_slot (p : Parser) (callback_offset k : Z) : outcome Z :=
  read_struct uint64_t (buffer_ p) (callback_offset + 8 * k).

(** *** The symbol URL in the words of the spec

    These definitions follow the spec (section 4.10), not the source; they
    are compared with [get_pdb_url] in the theorems. *)




(** [https://msdl.microsoft.com/download/symbols/{filename}/{GUID}{age}/{filename}] *)
Definition spec_pdb_url (filename : list byte) (guid : String.string) (age : Z)
  : String.string :=
  String.concat ""
    [ "https://msdl.microsoft.com/download/symbols/";
      String.string_of_list_byte filename; "/"; guid;
      DecimalString.NilZero.string_of_uint (N.to_uint (Z.to_N age)); "/";
      String.string_of_list_byte filename ].

Definition is_separator (c : byte) : Prop := c = x5c \/ c = x2f.

(** [filename] is the basename of [path], split on backslash or slash: the
    part of [path] after its last separator, all of [path] when it has none. *)
Definition basename (path filename : list byte) : Prop :=
  (forall c, In c filename -> ~ is_separator c) /\
  exists prefix,
    path = prefix ++ filename /\
    (prefix = [] \/ exists prefix' c, prefix = prefix' ++ [c] /\ is_separator c).

(** The debug record is an RSDS CodeView record that [pdb_url] can use: type
    2, a payload that holds the fixed part of the record and starts [RSDS],
    and a NUL-terminated path behind the fixed part. *)
Definition usable_rsds (record : DebugDirectory.t * option (list byte)) : Prop :=
  exists data,
    snd record = Some data /\
    DebugDirectory.type_ (fst record) = 2 /\
    25 <= buffer_size data /\
    field data 0 4 = 0x53445352 /\          (* the bytes "RSDS" *)
    In x00 (skipn 24 data).

(** The same for the older NB10 record. *)
Definition usable_nb10 (record : DebugDirectory.t * option (list byte)) : Prop :=
  exists data,
    snd record = Some data /\
    DebugDirectory.type_ (fst record) = 2 /\
    17 <= buffer_size data /\
    field data 0 4 = 0x3031424E /\          (* the bytes "NB10" *)
    In x00 (skipn 16 data).

Definition usable_codeview (record : DebugDirectory.t * option (list byte))
  : Prop :=
  usable_rsds record \/ usable_nb10 record.

(** ** Concrete images

    A small assembler for PE32+ images: the headers [parse] reads, followed by
    data placed at chosen file offsets. *)

Module Image.

Definition u16 (v : Z) : list byte := le_bytes 2 v.
Definition u32 (v : Z) : list byte := le_bytes 4 v.
Definition u64 (v : Z) : list byte := le_bytes 8 v.
Definition zeros (n : nat) : list byte := repeat x00 n.
Definition ascii_bytes (s : String.string) : list byte :=
  String.list_byte_of_string s.

(** [bs] extended with zero bytes up to length [n]. *)
Definition pad_to (n : nat) (bs : list byte) : list byte :=
  bs ++ zeros (n - length bs).

(** [img], zero-filled up to file offset [off], followed by [bs]. *)
Definition place (off : nat) (bs : list byte) (img : list byte) : list byte :=
  pad_to off img ++ bs.

Definition section (name : String.string)
  (virtual_size virtual_address size_of_raw_data pointer_to_raw_data
   characteristics : Z) : list byte :=
  pad_to 8 (ascii_bytes name) ++ u32 virtual_size ++ u32 virtual_address ++
  u32 size_of_raw_data ++ u32 pointer_to_raw_data ++ zeros 12 ++
  u32 characteristics.

Definition directory_table (dirs : list (nat * (Z * Z))) : list byte :=
  flat_map
    (fun i =>
       match find (fun d => Nat.eqb (fst d) i) dirs with
       | Some (_, (va, sz)) => u32 va ++ u32 sz
       | None => zeros 8
       end)
    (seq 0 16).

(** DOS header with [e_lfanew = 64], NT signature, file header, optional
    header and section table: [328 + 40 * length sections] bytes. *)
Definition headers (machine optional_magic image_base entry_point : Z)
  (dirs : list (nat * (Z * Z))) (sections : list (list byte)) : list byte :=
  pad_to 60 (u16 0x5A4D) ++ u32 64 ++
  u32 0x00004550 ++
  u16 machine ++ u16 (Z.of_nat (length sections)) ++ zeros 12 ++ u16 240 ++
  u16 0x22 ++
  u16 optional_magic ++ zeros 14 ++ u32 entry_point ++ zeros 4 ++
  u64 image_base ++ zeros 76 ++ u32 16 ++ directory_table dirs ++
  concat sections.

Definition x64_headers := headers 0x8664 0x20b.

End Image.

(** The parser object constructed from [buffer]; for a buffer that [parse]
    rejects, which no statement below uses, an object without headers. *)
Definition loaded (buffer : list byte) : Parser :=
  match Parser_new buffer with
  | Ok p => p
  | _ => {| buffer_ := buffer;
            pe_info_ := {| dos_header := DosHeader.mk 0 0;
                           file_header := FileHeader.mk 0 0 0 0 0 0 0;
                           optional_header := OptionalHeader.mk 0 0 0 [];
                           section_headers := [];
                           data_directories := [] |};
            override_base_address_ := 0;
            override_entry_point_ := 0 |}
  end.

(** Two sections whose ranges overlap: [0x1000, 0x3000) and [0x2000, 0x3000). *)
Definition overlap_image : list byte :=
  Image.x64_headers 0x140000000 0x1000 []
    [ Image.section ".text" 0x2000 0x1000 0x200 0x400 0x60000020;
      Image.section ".data" 0x1000 0x2000 0x200 0x800 0xC0000040 ].

(** The first 32 bytes of scenario S1: a buffer that starts [4D 5B]. *)
Definition short_image : list byte :=
  Image.pad_to 32 [x4d; x5b].

(** Scenario S1 at full length: 64 bytes that start [4D 5B]. *)
Definition bad_magic_image : list byte :=
  Image.pad_to 64 [x4d; x5b].

(** Scenario S2: a 32-bit image, optional-header magic [0x10B]. *)
Definition pe32_image : list byte :=
  Image.headers 0x8664 0x10b 0x400000 0x1000 [] [].

(** Scenario S3: one [.text] section at RVA [0x1000], raw pointer [0x400],
    virtual size [0x200], with its raw data present. *)
Definition minimal_image : list byte :=
  Image.place 0x400 (repeat x90 0x200)
    (Image.x64_headers 0x140000000 0x1000 []
       [ Image.section ".text" 0x200 0x1000 0x200 0x400 0x60000020 ]).


(** An export directory at RVA [0x1000], size [0x60], with two named exports:
    [fwd], whose function RVA [0x1040] lies inside the directory (a
    forwarder), and [run] at RVA [0x1800]. *)
Definition forwarder_image : list byte :=
  Image.pad_to 0x400
   (Image.place 0x25C (Image.ascii_bytes "run")
   (Image.place 0x258 (Image.ascii_bytes "fwd")
   (Image.place 0x250 (Image.ascii_bytes "lib.dll")
   (Image.place 0x240 (Image.ascii_bytes "NTDLL.Rtl")
   (Image.place 0x238 (Image.u16 0 ++ Image.u16 1)
   (Image.place 0x230 (Image.u32 0x1058 ++ Image.u32 0x105C)
   (Image.place 0x228 (Image.u32 0x1040 ++ Image.u32 0x1800)
   (Image.place 0x200
      (Image.u32 0 ++ Image.u32 0 ++ Image.u16 0 ++ Image.u16 0 ++
       Image.u32 0x1050 ++ Image.u32 1 ++ Image.u32 2 ++ Image.u32 2 ++
       Image.u32 0x1028 ++ Image.u32 0x1030 ++ Image.u32 0x1038)
      (Image.x64_headers 0x140000000 0x1800 [(0%nat, (0x1000, 0x60))]
         [ Image.section ".edata" 0x1000 0x1000 0x200 0x200 0x40000040 ]))))))))).

(** What [get_export_directory] returns on [forwarder_image]. *)
Definition forwarder_table : ExportDirectory.t :=
  ExportDirectory.mk 0 0 0 0 0x1050 1 2 2 0x1028 0x1030 0x1038.
Definition forwarder_fwd : ExportEntry.t :=
  ExportEntry.mk (Image.ascii_bytes "fwd") 1 (Some 0) 0x140001040.
Definition forwarder_run : ExportEntry.t :=
  ExportEntry.mk (Image.ascii_bytes "run") 2 None 0x140001800.

(** The parser of [forwarder_image] after [override_base_address
    (2^64 - 0x1800)], and what [get_export_directory] returns on it. *)
Definition rebased_forwarder : Parser :=
  override_base_address (loaded forwarder_image) 0xFFFFFFFFFFFFE800.
Definition rebased_fwd : ExportEntry.t :=
  ExportEntry.mk (Image.ascii_bytes "fwd") 1 (Some 0) 0xFFFFFFFFFFFFF840.
Definition rebased_run : ExportEntry.t :=
  ExportEntry.mk (Image.ascii_bytes "run") 2 None 0.

(** A TLS directory at RVA [0x1000] whose callback array, at RVA [0x1040],
    holds two callbacks and the zero terminator. *)
Definition tls_image : list byte :=
  Image.pad_to 0x400
   (Image.place 0x240
      (Image.u64 0x100001100 ++ Image.u64 0x100001200 ++ Image.u64 0)
   (Image.place 0x200
      (Image.u64 0x100001080 ++ Image.u64 0x100001090 ++ Image.u64 0x1000010A0 ++
       Image.u64 0x100001040 ++ Image.u32 0 ++ Image.u32 0)
      (Image.x64_headers 0x100000000 0x1000 [(9%nat, (0x1000, 40))]
         [ Image.section ".tls" 0x1000 0x1000 0x200 0x200 0xC0000040 ]))).

(** The same directory in a file that ends after the second callback: the
    array has no terminator. *)
Definition tls_unterminated_image : list byte :=
   (Image.place 0x240
      (Image.u64 0x100001100 ++ Image.u64 0x100001200)
   (Image.place 0x200
      (Image.u64 0x100001080 ++ Image.u64 0x100001090 ++ Image.u64 0x1000010A0 ++
       Image.u64 0x100001040 ++ Image.u32 0 ++ Image.u32 0)
      (Image.x64_headers 0x100000000 0x1000 [(9%nat, (0x1000, 40))]
         [ Image.section ".tls" 0x1000 0x1000 0x200 0x200 0xC0000040 ]))).

Definition tls_image_directory : TlsDirectory64.t :=
  TlsDirectory64.mk 0x100001080 0x100001090 0x1000010A0 0x100001040 0 0.

(** An import directory at RVA [0x1000] with one descriptor, for [k.dll]: the
    ILT at RVA [0x1040] holds the ordinal import of scenario S4,
    [0x8000000000000042], and a name import of [Run] (hint/name record at
    RVA [0x1080]); the IAT is at RVA [0x1060]. *)
Definition import_image : list byte :=
  Image.pad_to 0x400
   (Image.place 0x290 (Image.ascii_bytes "k.dll")
   (Image.place 0x280 (Image.u16 7 ++ Image.ascii_bytes "Run")
   (Image.place 0x240
      (Image.u64 0x8000000000000042 ++ Image.u64 0x1080 ++ Image.u64 0)
   (Image.place 0x200
      (Image.u32 0x1040 ++ Image.u32 0 ++ Image.u32 0 ++ Image.u32 0x1090 ++
       Image.u32 0x1060)
      (Image.x64_headers 0x140000000 0x1000 [(1%nat, (0x1000, 40))]
         [ Image.section ".idata" 0x1000 0x1000 0x200 0x200 0xC0000040 ]))))).

Definition import_image_entries : list ImportEntry.t :=
  [ ImportEntry.mk 0x42 None 0x1060;
    ImportEntry.mk 0 (Some (Image.ascii_bytes "Run")) 0x1068 ].

(** An exception directory with one [RuntimeFunction] whose unwind info, at
    RVA [0x1010], has [UNW_FLAG_CHAININFO] set and no unwind codes; the
    chained [RuntimeFunction] behind it names the same unwind info again. *)
Definition cyclic_function : RuntimeFunction.t :=
  RuntimeFunction.mk 0x1100 0x1200 0x1010.

Definition cyclic_chain_image : list byte :=
  Image.pad_to 0x400
   (Image.place 0x214
      (Image.u32 0x1100 ++ Image.u32 0x1200 ++ Image.u32 0x1010)
   (Image.place 0x210 [x21; x00; x00; x00]
   (Image.place 0x200
      (Image.u32 0x1100 ++ Image.u32 0x1200 ++ Image.u32 0x1010)
      (Image.x64_headers 0x140000000 0x1100 [(3%nat, (0x1000, 12))]
         [ Image.section ".pdata" 0x1000 0x1000 0x200 0x200 0x40000040 ])))).

(** The same directory with [UNW_FLAG_CHAININFO] clear. *)
Definition unchained_image : list byte :=
  Image.pad_to 0x400
   (Image.place 0x210 [x01; x00; x00; x00]
   (Image.place 0x200
      (Image.u32 0x1100 ++ Image.u32 0x1200 ++ Image.u32 0x1010)
      (Image.x64_headers 0x140000000 0x1100 [(3%nat, (0x1000, 12))]
         [ Image.section ".pdata" 0x1000 0x1000 0x200 0x200 0x40000040 ]))).

(** A 1024-byte file whose executable [.text] section declares [0x1000] bytes
    of raw data at file offset [0x200], and whose debug directory entry
    declares a payload of [0x1000] bytes at file offset [0x300]. *)
Definition truncated_image : list byte :=
  Image.pad_to 0x400
   (Image.place 0x200
      (Image.u32 0 ++ Image.u32 0 ++ Image.u16 0 ++ Image.u16 0 ++ Image.u32 2 ++
       Image.u32 0x1000 ++ Image.u32 0x1100 ++ Image.u32 0x300)
      (Image.x64_headers 0x140000000 0x1000 [(6%nat, (0x1000, 28))]
         [ Image.section ".text" 0x1000 0x1000 0x1000 0x200 0x60000020 ])).

(** Scenario S5: one CodeView debug entry whose payload, at file offset
    [0x240], is the RSDS record with GUID
    [{11223344-5566-7788-99AA-BBCCDDEEFF00}], age [0x1A] and path
    [c:\x\foo.pdb]. *)
Definition rsds_payload : list byte :=
  Image.ascii_bytes "RSDS" ++
  Image.u32 0x11223344 ++ Image.u16 0x5566 ++ Image.u16 0x7788 ++
  [x99; xaa; xbb; xcc; xdd; xee; xff; x00] ++
  Image.u32 0x1A ++ Image.ascii_bytes "c:\x\foo.pdb" ++ [x00].

Definition rsds_entry : DebugDirectory.t :=
  DebugDirectory.mk 0 0 0 0 2 37 0x1040 0x240.

Definition rsds_image : list byte :=
  Image.pad_to 0x400
   (Image.place 0x240 rsds_payload
   (Image.place 0x200
      (Image.u32 0 ++ Image.u32 0 ++ Image.u16 0 ++ Image.u16 0 ++ Image.u32 2 ++
       Image.u32 37 ++ Image.u32 0x1040 ++ Image.u32 0x240)
      (Image.x64_headers 0x140000000 0x1000 [(6%nat, (0x1000, 28))]
         [ Image.section ".rdata" 0x1000 0x1000 0x200 0x200 0x40000040 ]))).

(** * The remaining queries *)

(** ** Section lookup by address *)

(** The loop of [Parser::section_name_for_address]: [start] and [end] are
    [size_t] sums of values read from the file and wrap at [2^64]; the upper
    bound is inclusive. *)
Fixpoint section_name_in (p : Parser) (address : Z)
  (sections : list SectionHeader.t) : list byte :=
  match sections with
  | [] => []
  | section :: rest =>
      let name := until_nul (SectionHeader.name section) in
      let start :=
        wrap64 (get_image_base p + SectionHeader.virtual_address section) in
      let end_ := wrap64 (SectionHeader.size_of_raw_data section + start) in
      if (address >=? start) && (address <=? end_) then name
      else section_name_in p address rest
  end.

Definition section_name_for_address (p : Parser) (address : Z) : list byte :=
  section_name_in p address (section_headers (pe_info_ p)).

(** ** PDB path *)

(** [std::memcmp (a, b, n) == 0] for two runs of [n] bytes. *)
Fixpoint memcmp_eq (a b : list byte) : bool :=
  match a, b with
  | [], [] => true
  | x :: a', y :: b' => Byte.eqb x y && memcmp_eq a' b'
  | _, _ => false
  end.

(** The path behind the fixed part of a CodeView payload: the bytes from
    [path_offset] up to the first NUL, when there is one before the end. *)
Definition embedded_path (data : list byte) (path_offset : Z)
  : option (list byte) :=
  let tail := skipn (Z.to_nat path_offset) data in
  if existsb (Byte.eqb x00) tail then Some (until_nul tail) else None.

(** One iteration of the loop of [get_pdb_path]; [None] is the next
    iteration. *)
Definition pdb_path_of_record (record : DebugDirectory.t * option (list byte))
  : option (list byte) :=
  let (entry, data_opt) := record in
  if DebugDirectory.type_ entry =? 2 then
    match data_opt with
    | None => None
    | Some data =>
        if buffer_size data <? 4 then None else
        if memcmp_eq (slice data 0 4) (String.list_byte_of_string "RSDS") then
          if buffer_size data <? 24 then None else embedded_path data 24
        else if memcmp_eq (slice data 0 4) (String.list_byte_of_string "NB10")
        then
          if buffer_size data <? 16 then None else embedded_path data 16
        else None
    end
  else None.

Fixpoint first_pdb_path (debug_data : list (DebugDirectory.t * option (list byte)))
  : option (list byte) :=
  match debug_data with
  | [] => None
  | record :: rest =>
      match pdb_path_of_record record with
      | Some path => Some path
      | None => first_pdb_path rest
      end
  end.

Definition get_pdb_path (p : Parser) : outcome (option (list byte)) :=
  debug_data <- get_debug_directory p ;;
  Ok (first_pdb_path debug_data).

(** ** Vocabulary of the further statements *)

(** Two parser objects over the same buffer and cached headers: they differ
    at most in their overrides. *)
Definition same_image (p q : Parser) : Prop :=
  buffer_ p = buffer_ q /\ pe_info_ p = pe_info_ q.

(** The raw extent of a section in the address space, as
    [section_name_for_address] computes it, contains [address]; the end is
    inclusive. *)
Definition in_raw_extent (p : Parser) (s : SectionHeader.t) (address : Z)
  : Prop :=
  wrap64 (get_image_base p + SectionHeader.virtual_address s) <= address <=
  wrap64 (SectionHeader.size_of_raw_data s +
          wrap64 (get_image_base p + SectionHeader.virtual_address s)).

(** A call that comes to an end: it returns, throws, or reads past the end of
    the buffer, and does not run on for ever. *)
Definition returns_or_fails {A : Type} (r : outcome A) : Prop :=
  match r with
  | OutOfFuel => False
  | _ => True
  end.

Definition has_prefix (s prefix : list byte) : Prop :=
  exists rest, s = prefix ++ rest.

(** ** Further concrete images *)

(** An executable [.text] at RVA [0x1000] and a writable [.data] right behind
    it at RVA [0x1100], each with [0x100] bytes of raw data in the file. *)
Definition two_section_image : list byte :=
  Image.place 0x300 (repeat xcc 0x100)
   (Image.place 0x200 (repeat x90 0x100)
      (Image.x64_headers 0x140000000 0x1000 []
         [ Image.section ".text" 0x100 0x1000 0x100 0x200 0x60000020;
           Image.section ".data" 0x100 0x1100 0x100 0x300 0xC0000040 ])).

Definition two_section_text : SectionHeader.t :=
  SectionHeader.mk (Image.pad_to 8 (Image.ascii_bytes ".text"))
    0x100 0x1000 0x100 0x200 0 0 0 0 0x60000020.

Definition two_section_data : SectionHeader.t :=
  SectionHeader.mk (Image.pad_to 8 (Image.ascii_bytes ".data"))
    0x100 0x1100 0x100 0x300 0 0 0 0 0xC0000040.

(** An executable [.text] with [0x100] bytes of raw data at [0x200], the end
    of the file, and an empty [.bss] whose file pointer [0x10000] lies behind
    the end of the file. *)
Definition empty_section_image : list byte :=
  Image.place 0x200 (repeat x90 0x100)
    (Image.x64_headers 0x140000000 0x1000 []
       [ Image.section ".text" 0x100 0x1000 0x100 0x200 0x60000020;
         Image.section ".bss" 0x100 0x2000 0 0x10000 0xC0000080 ]).

Definition empty_section_text : SectionHeader.t :=
  SectionHeader.mk (Image.pad_to 8 (Image.ascii_bytes ".text"))
    0x100 0x1000 0x100 0x200 0 0 0 0 0x60000020.

Definition empty_section_bss : SectionHeader.t :=
  SectionHeader.mk (Image.pad_to 8 (Image.ascii_bytes ".bss"))
    0x100 0x2000 0 0x10000 0 0 0 0 0xC0000080.

Definition empty_section_views : list SectionData.t :=
  [ SectionData.mk (Image.ascii_bytes ".text") (repeat x90 0x100)
      0x140001000 true;
    SectionData.mk (Image.ascii_bytes ".bss") [] 0x140002000 false ].

(** Two export entries that differ at most in their address. *)
Definition same_export (e e' : ExportEntry.t) : Prop :=
  ExportEntry.name e = ExportEntry.name e' /\
  ExportEntry.ordinal e = ExportEntry.ordinal e' /\
  ExportEntry.forwarder_ordinal e = ExportEntry.forwarder_ordinal e'.

(** Two section views that differ at most in their address. *)
Definition same_section_bytes (v v' : SectionData.t) : Prop :=
  SectionData.name v = SectionData.name v' /\
  SectionData.data v = SectionData.data v' /\
  SectionData.executable v = SectionData.executable v'.

(** A relocation directory at RVA [0x1000], size 12: one block for page
    [0x2000] with the two entries [0xA123] (type 10, offset [0x123]) and
    [0x0000]. *)
Definition reloc_image : list byte :=
  Image.pad_to 0x400
   (Image.place 0x200
      (Image.u32 0x2000 ++ Image.u32 12 ++ Image.u16 0xA123 ++ Image.u16 0)
      (Image.x64_headers 0x140000000 0x1000 [(5%nat, (0x1000, 12))]
         [ Image.section ".reloc" 0x1000 0x1000 0x200 0x200 0x42000040 ])).

(** An exception directory whose one runtime function chains once: its unwind
    info at RVA [0x1010] has [UNW_FLAG_CHAININFO] and one unwind code (padded
    to two slots), so the chained function sits at file offset
    [0x210 + 4 + 2*2]; the chained function's unwind info, at RVA [0x1030],
    has no chain flag. *)
Definition chained_primary : RuntimeFunction.t :=
  RuntimeFunction.mk 0x1100 0x1200 0x1010.

Definition chained_parent : RuntimeFunction.t :=
  RuntimeFunction.mk 0x1000 0x1100 0x1030.

Definition chained_image : list byte :=
  Image.pad_to 0x400
   (Image.place 0x230 [x01; x04; x00; x00]
   (Image.place 0x218
      (Image.u32 0x1000 ++ Image.u32 0x1100 ++ Image.u32 0x1030)
   (Image.place 0x210 [x21; x00; x01; x00; x42; x00]
   (Image.place 0x200
      (Image.u32 0x1100 ++ Image.u32 0x1200 ++ Image.u32 0x1010)
      (Image.x64_headers 0x140000000 0x1100 [(3%nat, (0x1000, 12))]
         [ Image.section ".pdata" 0x1000 0x1000 0x200 0x200 0x40000040 ]))))).

(** One CodeView debug entry whose payload is an NB10 record with signature
    [0x3D5A1B2C], age 3 and path [d:/build/app.pdb], preceded by a debug
    entry of another type. *)
Definition nb10_payload : list byte :=
  Image.ascii_bytes "NB10" ++ Image.u32 0 ++ Image.u32 0x3D5A1B2C ++
  Image.u32 3 ++ Image.ascii_bytes "d:/build/app.pdb" ++ [x00].

Definition nb10_image : list byte :=
  Image.pad_to 0x400
   (Image.place 0x260 nb10_payload
   (Image.place 0x240 (Image.ascii_bytes "misc")
   (Image.place 0x200
      (Image.u32 0 ++ Image.u32 0 ++ Image.u16 0 ++ Image.u16 0 ++ Image.u32 4 ++
       Image.u32 4 ++ Image.u32 0x1040 ++ Image.u32 0x240 ++
       Image.u32 0 ++ Image.u32 0 ++ Image.u16 0 ++ Image.u16 0 ++ Image.u32 2 ++
       Image.u32 33 ++ Image.u32 0x1060 ++ Image.u32 0x260)
      (Image.x64_headers 0x140000000 0x1000 [(6%nat, (0x1000, 56))]
         [ Image.section ".rdata" 0x1000 0x1000 0x200 0x200 0x40000040 ])))).

Definition nb10_debug_data : list (DebugDirectory.t * option (list byte)) :=
  [ (DebugDirectory.mk 0 0 0 0 4 4 0x1040 0x240,
     Some (Image.ascii_bytes "misc"));
    (DebugDirectory.mk 0 0 0 0 2 33 0x1060 0x260, Some nb10_payload) ].

(** Two debug entries, neither of them usable: one of another type, and one
    CodeView entry whose RSDS payload of 36 bytes ends with the last byte of
    the path [c:\x\foo.pdb], before any NUL. *)
Definition unterminated_rsds_payload : list byte :=
  Image.ascii_bytes "RSDS" ++
  Image.u32 0x11223344 ++ Image.u16 0x5566 ++ Image.u16 0x7788 ++
  [x99; xaa; xbb; xcc; xdd; xee; xff; x00] ++
  Image.u32 0x1A ++ Image.ascii_bytes "c:\x\foo.pdb".

Definition unusable_debug_image : list byte :=
  Image.pad_to 0x400
   (Image.place 0x260 unterminated_rsds_payload
   (Image.place 0x240 (Image.ascii_bytes "misc")
   (Image.place 0x200
      (Image.u32 0 ++ Image.u32 0 ++ Image.u16 0 ++ Image.u16 0 ++ Image.u32 4 ++
       Image.u32 4 ++ Image.u32 0x1040 ++ Image.u32 0x240 ++
       Image.u32 0 ++ Image.u32 0 ++ Image.u16 0 ++ Image.u16 0 ++ Image.u32 2 ++
       Image.u32 36 ++ Image.u32 0x1060 ++ Image.u32 0x260)
      (Image.x64_headers 0x140000000 0x1000 [(6%nat, (0x1000, 56))]
         [ Image.section ".rdata" 0x1000 0x1000 0x200 0x200 0x40000040 ])))).

Definition unusable_debug_data : list (DebugDirectory.t * option (list byte)) :=
  [ (DebugDirectory.mk 0 0 0 0 4 4 0x1040 0x240,
     Some (Image.ascii_bytes "misc"));
    (DebugDirectory.mk 0 0 0 0 2 36 0x1060 0x260,
     Some unterminated_rsds_payload) ].
(** * Properties *)

(** ** Basic facts *)

Lemma byte_val_range (b : byte) : 0 <= byte_val b < 256.
Proof.
  unfold byte_val.
  pose proof (Byte.to_N_bounded b) as H.
  lia.
Qed.

Lemma le_value_nonneg (bs : list byte) : 0 <= le_value bs.
Proof.
  induction bs as [|b r IH]; cbn [le_value].
  - lia.
  - pose proof (byte_val_range b). lia.
Qed.

Lemma field_nonneg bs o w : 0 <= field bs o w.
Proof. apply le_value_nonneg. Qed.

Lemma le_value_bound bs : le_value bs < 256 ^ Z.of_nat (length bs).
Proof.
  induction bs as [|b r IH]; cbn [le_value length].
  - reflexivity.
  - pose proof (byte_val_range b).
    rewrite Nat2Z.inj_succ, Z.pow_succ_r by lia. lia.
Qed.

Lemma slice_length_le data offset len :
  (length (slice data offset len) <= Z.to_nat len)%nat.
Proof. unfold slice. apply firstn_le_length. Qed.

Lemma field_bound bs o w : 0 <= w -> field bs o w < 256 ^ w.
Proof.
  intros Hw. unfold field.
  pose proof (le_value_bound (slice bs o w)) as H.
  pose proof (slice_length_le bs o w) as Hl.
  eapply Z.lt_le_trans; [exact H|].
  apply Z.pow_le_mono_r; lia.
Qed.

Lemma bind_Ok {A B} (m : outcome A) (k : A -> outcome B) (b : B) :
  bind m k = Ok b -> exists a, m = Ok a /\ k a = Ok b.
Proof.
  destruct m as [a| | |]; simpl; try discriminate.
  intros H. exists a. split; [reflexivity | exact H].
Qed.

(** Inverts a chain of binds that ends in [Ok]. *)
Ltac bind_inv H :=
  let a := fresh "v" in
  let Ha := fresh "E" in
  apply bind_Ok in H; destruct H as [a [Ha H]].

Lemma for_each_Ok_length {A B} (f : A -> outcome B) l ys :
  for_each f l = Ok ys -> length ys = length l.
Proof.
  revert ys. induction l as [|x r IH]; simpl; intros ys H.
  - inversion H. reflexivity.
  - bind_inv H. bind_inv H. inversion H; subst. simpl.
    f_equal. apply IH. assumption.
Qed.

Lemma for_each_Ok_nth {A B} (f : A -> outcome B) l ys :
  for_each f l = Ok ys ->
  forall i x, nth_error l i = Some x ->
  exists y, nth_error ys i = Some y /\ f x = Ok y.
Proof.
  revert ys. induction l as [|x0 r IH]; simpl; intros ys H i x Hi.
  - destruct i; discriminate.
  - bind_inv H. bind_inv H. inversion H; subst.
    destruct i as [|i]; simpl in *.
    + inversion Hi; subst. eexists; split; [reflexivity | assumption].
    + eapply IH; eassumption.
Qed.

Lemma iota_length n : length (iota n) = Z.to_nat n.
Proof. unfold iota. rewrite length_map, length_seq. reflexivity. Qed.

Lemma iota_nth_error n i :
  0 <= i < n -> nth_error (iota n) (Z.to_nat i) = Some i.
Proof.
  intros H. unfold iota.
  rewrite nth_error_map, nth_error_seq.
  destruct (Nat.ltb_spec (Z.to_nat i) (Z.to_nat n)); [|lia].
  simpl. f_equal. lia.
Qed.

(** ** Overrides (C8) *)

Lemma get_image_base_spec p :
  get_image_base p =
  if override_base_address_ p =? 0
  then OptionalHeader.image_base (optional_header (pe_info_ p))
  else override_base_address_ p.
Proof. unfold get_image_base. destruct (override_base_address_ p =? 0); reflexivity. Qed.

(** The state [Parser_new] builds: no override was ever set. *)
Lemma Parser_new_overrides buffer p :
  Parser_new buffer = Ok p ->
  buffer_ p = buffer /\ parse buffer = Ok (pe_info_ p) /\
  override_base_address_ p = 0 /\ override_entry_point_ p = 0.
Proof.
  unfold Parser_new. intros H. bind_inv H. inversion H; subst; simpl.
  repeat split; assumption.
Qed.

Lemma override_base_address_twice p a b :
  override_base_address (override_base_address p a) b =
  override_base_address p b.
Proof. reflexivity. Qed.

Lemma override_entry_point_twice p a b :
  override_entry_point (override_entry_point p a) b =
  override_entry_point p b.
Proof. reflexivity. Qed.




(** ** RVA mapping (C3) *)

Lemma is_rva_in_section_covers r s :
  is_rva_in_section r s = true <-> covers s r.
Proof.
  unfold is_rva_in_section, covers.
  rewrite andb_true_iff, Z.geb_le, Z.ltb_lt. tauto.
Qed.

Lemma is_rva_in_section_not_covers r s :
  is_rva_in_section r s = false <-> ~ covers s r.
Proof.
  rewrite <- is_rva_in_section_covers.
  destruct (is_rva_in_section r s); split; congruence.
Qed.

(** An RVA in the exact range of a section whose end does not pass [2^32] is
    covered. *)
Lemma covers_exact s r :
  0 <= SectionHeader.virtual_address s + SectionHeader.virtual_size s < 2 ^ 32 ->
  SectionHeader.virtual_address s <= r <
    SectionHeader.virtual_address s + SectionHeader.virtual_size s ->
  covers s r.
Proof.
  intros Hb Hr. unfold covers, wrap32.
  rewrite Z.mod_small by lia. exact Hr.
Qed.

(** What [covers] excludes is outside the exact range as well. *)
Lemma covers_of_exact_fails s r :
  0 <= SectionHeader.virtual_size s ->
  0 <= SectionHeader.virtual_address s ->
  covers s r ->
  SectionHeader.virtual_address s <= r <
    SectionHeader.virtual_address s + SectionHeader.virtual_size s.
Proof.
  unfold covers, wrap32. intros Hs Ha [H1 H2]. split; [exact H1|].
  pose proof (Z.mod_le (SectionHeader.virtual_address s +
                        SectionHeader.virtual_size s) (2 ^ 32)).
  lia.
Qed.

Lemma find_first {A} (f : A -> bool) l1 x l2 :
  (forall y, In y l1 -> f y = false) -> f x = true ->
  find f (l1 ++ x :: l2) = Some x.
Proof.
  induction l1 as [|y l1 IH]; simpl; intros Hl Hx.
  - rewrite Hx. reflexivity.
  - rewrite (Hl y) by (left; reflexivity). apply IH; auto.
Qed.

Lemma find_none_iff {A} (f : A -> bool) l :
  find f l = None <-> forall y, In y l -> f y = false.
Proof.
  split.
  - apply find_none.
  - induction l as [|y l IH]; simpl; intros H; [reflexivity|].
    rewrite (H y) by (left; reflexivity). apply IH. intros; apply H; right; assumption.
Qed.

(** C3, amended.  If [S] is the first section header, in table order, that
    covers [r], then [rva_to_offset r] returns
    [(r - S.virtual_address + S.pointer_to_raw_data) mod 2^32]; and if no
    section covers [r], [rva_to_offset r] fails with [RvaUnmapped]. *)
Theorem rva_to_offset_first_covering_section (p : Parser) (r : Z) :
  (forall l1 S l2,
     section_headers (pe_info_ p) = l1 ++ S :: l2 ->
     (forall s, In s l1 -> ~ covers s r) ->
     covers S r ->
     rva_to_offset p r =
       Ok (wrap32 (r - SectionHeader.virtual_address S +
                   SectionHeader.pointer_to_raw_data S))) /\
  ((forall s, In s (section_headers (pe_info_ p)) -> ~ covers s r) ->
   rva_to_offset p r = Throw RvaUnmapped).
Proof.
  split.
  - intros l1 S l2 Hsec Hl1 HS. unfold rva_to_offset. rewrite Hsec.
    rewrite find_first; [reflexivity | | ].
    + intros s Hs. apply is_rva_in_section_not_covers. auto.
    + apply is_rva_in_section_covers. exact HS.
  - intros Hnone. unfold rva_to_offset.
    replace (find (is_rva_in_section r) (section_headers (pe_info_ p)))
      with (@None SectionHeader.t); [reflexivity|].
    symmetry. apply find_none_iff. intros s Hs.
    apply is_rva_in_section_not_covers. auto.
Qed.

(** When the section covering [r] is unique (invariant 2 of the spec, which
    [parse] does not check), it is the one [rva_to_offset] uses. *)
Lemma rva_to_offset_unique_section p r S :
  In S (section_headers (pe_info_ p)) ->
  covers S r ->
  (forall s, In s (section_headers (pe_info_ p)) -> covers s r -> s = S) ->
  rva_to_offset p r =
    Ok (wrap32 (r - SectionHeader.virtual_address S +
                SectionHeader.pointer_to_raw_data S)).
Proof.
  intros Hin Hc Huniq. unfold rva_to_offset.
  destruct (find (is_rva_in_section r) (section_headers (pe_info_ p)))
    as [s|] eqn:Hf.
  - apply find_some in Hf. destruct Hf as [Hs Hcs].
    apply is_rva_in_section_covers in Hcs.
    rewrite (Huniq s Hs Hcs). reflexivity.
  - exfalso. pose proof (find_none _ _ Hf S Hin) as Hn.
    apply is_rva_in_section_not_covers in Hn. contradiction.
Qed.

(** The first section of [overlap_image] covers [0x2000] and decides the
    offset. *)
Lemma rva_to_offset_first_covering_section_witness :
  rva_to_offset (loaded overlap_image) 0x2000 = Ok 0x1400 /\
  rva_to_offset (loaded overlap_image) 0x3000 = Throw RvaUnmapped.
Proof.
  pose proof (rva_to_offset_first_covering_section
                (loaded overlap_image) 0x2000) as [H _].
  pose proof (rva_to_offset_first_covering_section
                (loaded overlap_image) 0x3000) as [_ H'].
  split.
  - rewrite (H [] (SectionHeader.mk (Image.pad_to 8 (Image.ascii_bytes ".text"))
                     0x2000 0x1000 0x200 0x400 0 0 0 0 0x60000020)
               [SectionHeader.mk (Image.pad_to 8 (Image.ascii_bytes ".data"))
                     0x1000 0x2000 0x200 0x800 0 0 0 0 0xC0000040]).
    + reflexivity.
    + vm_compute. reflexivity.
    + intros s [].
    + unfold covers; simpl. vm_compute. split; congruence.
  - apply H'. intros s Hs.
    vm_compute in Hs.
    destruct Hs as [Hs | [Hs | []]]; subst s; unfold covers; simpl;
      vm_compute; intros [H1 H2]; auto; congruence.
Defined.

(** C3, counterexample.  [overlap_image] parses; its second section ranges
    over [0x2000, 0x3000) and has raw pointer [0x800], but the RVA [0x2000]
    is mapped through the first section, to [0x1400] and not to [0x800]. *)
Lemma rva_to_offset_every_section_counterexample :
  Parser_new overlap_image = Ok (loaded overlap_image) /\
  exists S r,
    In S (section_headers (pe_info_ (loaded overlap_image))) /\
    SectionHeader.virtual_address S <= r <
      SectionHeader.virtual_address S + SectionHeader.virtual_size S /\
    rva_to_offset (loaded overlap_image) r <>
      Ok (r - SectionHeader.virtual_address S +
          SectionHeader.pointer_to_raw_data S).
Proof.
  split; [vm_compute; reflexivity|].
  exists (SectionHeader.mk (Image.pad_to 8 (Image.ascii_bytes ".data"))
            0x1000 0x2000 0x200 0x800 0 0 0 0 0xC0000040), 0x2000.
  split; [|split].
  - vm_compute. right. left. reflexivity.
  - simpl. lia.
  - vm_compute. intros H. discriminate H.
Qed.

(** ** Header checks (C7) *)

Lemma read_struct_cases {T} (t : Struct T) data offset :
  (offset + sizeof t <= buffer_size data /\
   read_struct t data offset = Ok (of_bytes t (slice data offset (sizeof t)))) \/
  (offset + sizeof t > buffer_size data /\
   read_struct t data offset = Throw BufferOverflow).
Proof.
  unfold read_struct.
  destruct (Z.gtb_spec (offset + sizeof t) (buffer_size data)); [right | left];
    split; (lia || reflexivity).
Qed.

Lemma read_struct_throws {T} (t : Struct T) data offset e :
  read_struct t data offset = Throw e -> e = BufferOverflow.
Proof.
  destruct (read_struct_cases t data offset) as [[_ H] | [_ H]]; rewrite H;
    congruence.
Qed.

Lemma read_struct_not_past_end {T} (t : Struct T) data offset :
  read_struct t data offset <> ReadPastEnd /\
  read_struct t data offset <> OutOfFuel.
Proof.
  destruct (read_struct_cases t data offset) as [[_ H] | [_ H]]; rewrite H;
    split; congruence.
Qed.

Lemma for_each_read_struct_throws {T} (t : Struct T) data (g : Z -> Z) l e :
  for_each (fun i => read_struct t data (g i)) l = Throw e ->
  e = BufferOverflow.
Proof.
  induction l as [|x r IH]; simpl; [discriminate|].
  destruct (read_struct t data (g x)) eqn:Hx; simpl; try discriminate.
  - destruct (for_each (fun i => read_struct t data (g i)) r); simpl;
      try discriminate.
    intros H. apply IH. congruence.
  - intros H. inversion H; subst. eapply read_struct_throws; eassumption.
Qed.

(** Case analysis on every read and test left in a hypothesis about [parse]. *)
Ltac walk_parse H :=
  repeat match type of H with
  | context [read_struct ?t ?d ?o] =>
      let E := fresh "E" in
      destruct (read_struct t d o) eqn:E; simpl in H;
      try (apply read_struct_throws in E; subst); try discriminate H
  | context [if negb ?c then _ else _] =>
      destruct c eqn:?; simpl in H; try discriminate H
  | context [for_each ?f ?l] =>
      let E := fresh "E" in
      destruct (for_each f l) eqn:E; simpl in H;
      try (apply for_each_read_struct_throws in E; subst);
      try discriminate H
  end.

Section ParseChecks.

Variable buffer : list byte.

Let read_dos := read_struct DosHeader.layout buffer 0.
Let read_signature (dos : DosHeader.t) :=
  read_struct uint32_t buffer (DosHeader.e_lfanew dos).
Let read_file_header (dos : DosHeader.t) :=
  read_struct FileHeader.layout buffer (DosHeader.e_lfanew dos + 4).
Let read_optional_header (dos : DosHeader.t) :=
  read_struct OptionalHeader.layout buffer (DosHeader.e_lfanew dos + 4 + 20).

Lemma parse_NotPE :
  parse buffer = Throw NotPE <->
  exists dos, read_dos = Ok dos /\ ~ dos_magic_ok dos.
Proof.
  unfold parse, dos_magic_ok. subst read_dos.
  destruct (read_struct DosHeader.layout buffer 0) as [dos|e| |] eqn:Hd; simpl.
  - destruct (Z.eqb_spec (DosHeader.e_magic dos) 0x5A4D) as [Hm|Hm]; simpl.
    + split.
      * intros H. exfalso. walk_parse H.
      * intros [d [Hd' Hn]]. inversion Hd'; subst. contradiction.
    + split; [|reflexivity]. intros _. exists dos. split; [reflexivity|assumption].
  - apply read_struct_throws in Hd. subst. split; [discriminate|].
    intros [d [H _]]. discriminate H.
  - split; [discriminate|]. intros [d [H _]]. discriminate H.
  - split; [discriminate|]. intros [d [H _]]. discriminate H.
Qed.

Lemma parse_BadNtSignature dos :
  read_dos = Ok dos -> dos_magic_ok dos ->
  (parse buffer = Throw BadNtSignature <->
   exists signature,
     read_signature dos = Ok signature /\ ~ nt_signature_ok signature).
Proof.
  unfold dos_magic_ok, nt_signature_ok. subst read_dos read_signature.
  intros Hd Hm. unfold parse. rewrite Hd. simpl. rewrite Hm. simpl.
  destruct (read_struct uint32_t buffer (DosHeader.e_lfanew dos))
    as [sig|e| |] eqn:Hs; simpl.
  - destruct (Z.eqb_spec sig 0x00004550) as [Hq|Hq]; simpl.
    + split.
      * intros H. exfalso. walk_parse H.
      * intros [s [Hs' Hn]]. inversion Hs'; subst. contradiction.
    + split; [|reflexivity]. intros _. exists sig. split; [reflexivity|assumption].
  - apply read_struct_throws in Hs. subst. split; [discriminate|].
    intros [s [H _]]. discriminate H.
  - split; [discriminate|]. intros [s [H _]]. discriminate H.
  - split; [discriminate|]. intros [s [H _]]. discriminate H.
Qed.

Lemma parse_UnsupportedMachine dos :
  read_dos = Ok dos -> dos_magic_ok dos ->
  read_signature dos = Ok 0x00004550 ->
  (parse buffer = Throw UnsupportedMachine <->
   exists fh, read_file_header dos = Ok fh /\ ~ machine_ok fh).
Proof.
  unfold dos_magic_ok, machine_ok.
  subst read_dos read_signature read_file_header.
  intros Hd Hm Hs. unfold parse. rewrite Hd. simpl. rewrite Hm. simpl.
  rewrite Hs. simpl.
  destruct (read_struct FileHeader.layout buffer (DosHeader.e_lfanew dos + 4))
    as [fh|e| |] eqn:Hf; simpl.
  - destruct (Z.eqb_spec (FileHeader.machine fh) 0x8664) as [Hq|Hq]; simpl.
    + split.
      * intros H. exfalso. walk_parse H.
      * intros [s [Hs' Hn]]. inversion Hs'; subst. contradiction.
    + split; [|reflexivity]. intros _. exists fh. split; [reflexivity|assumption].
  - apply read_struct_throws in Hf. subst. split; [discriminate|].
    intros [s [H _]]. discriminate H.
  - split; [discriminate|]. intros [s [H _]]. discriminate H.
  - split; [discriminate|]. intros [s [H _]]. discriminate H.
Qed.

Lemma parse_UnsupportedOptionalMagic dos fh :
  read_dos = Ok dos -> dos_magic_ok dos ->
  read_signature dos = Ok 0x00004550 ->
  read_file_header dos = Ok fh -> machine_ok fh ->
  (parse buffer = Throw UnsupportedOptionalMagic <->
   exists oh, read_optional_header dos = Ok oh /\ ~ optional_magic_ok oh).
Proof.
  unfold dos_magic_ok, machine_ok, optional_magic_ok.
  subst read_dos read_signature read_file_header read_optional_header.
  intros Hd Hm Hs Hf Hmach. unfold parse. rewrite Hd. simpl. rewrite Hm. simpl.
  rewrite Hs. simpl. rewrite Hf. simpl. rewrite Hmach. simpl.
  destruct (read_struct OptionalHeader.layout buffer
              (DosHeader.e_lfanew dos + 4 + 20)) as [oh|e| |] eqn:Ho; simpl.
  - destruct (Z.eqb_spec (OptionalHeader.magic oh) 0x20b) as [Hq|Hq]; simpl.
    + split.
      * intros H. exfalso. walk_parse H.
      * intros [s [Hs' Hn]]. inversion Hs'; subst. contradiction.
    + split; [|reflexivity]. intros _. exists oh. split; [reflexivity|assumption].
  - apply read_struct_throws in Ho. subst. split; [discriminate|].
    intros [s [H _]]. discriminate H.
  - split; [discriminate|]. intros [s [H _]]. discriminate H.
  - split; [discriminate|]. intros [s [H _]]. discriminate H.
Qed.

Lemma parse_Ok info :
  parse buffer = Ok info ->
  read_dos = Ok (dos_header info) /\ dos_magic_ok (dos_header info) /\
  read_signature (dos_header info) = Ok 0x00004550 /\
  read_file_header (dos_header info) = Ok (file_header info) /\
  machine_ok (file_header info) /\
  read_optional_header (dos_header info) = Ok (optional_header info) /\
  optional_magic_ok (optional_header info) /\
  data_directories info =
    OptionalHeader.data_directories (optional_header info) /\
  for_each
    (fun i => read_struct SectionHeader.layout buffer
                (DosHeader.e_lfanew (dos_header info) + 4 + 20 +
                 FileHeader.size_of_optional_header (file_header info) +
                 i * 40))
    (iota (FileHeader.number_of_sections (file_header info))) =
  Ok (section_headers info).
Proof.
  unfold dos_magic_ok, nt_signature_ok, machine_ok, optional_magic_ok.
  subst read_dos read_signature read_file_header read_optional_header.
  unfold parse. intros H.
  destruct (read_struct DosHeader.layout buffer 0) as [dos|e| |] eqn:Hd;
    simpl in H; try discriminate H.
  destruct (Z.eqb_spec (DosHeader.e_magic dos) 0x5A4D) as [Hm|Hm];
    simpl in H; try discriminate H.
  destruct (read_struct uint32_t buffer (DosHeader.e_lfanew dos))
    as [sig|e| |] eqn:Hs; simpl in H; try discriminate H.
  destruct (Z.eqb_spec sig 0x00004550) as [Hq|Hq];
    simpl in H; try discriminate H.
  destruct (read_struct FileHeader.layout buffer (DosHeader.e_lfanew dos + 4))
    as [fh|e| |] eqn:Hf; simpl in H; try discriminate H.
  destruct (Z.eqb_spec (FileHeader.machine fh) 0x8664) as [Hq'|Hq'];
    simpl in H; try discriminate H.
  destruct (read_struct OptionalHeader.layout buffer
              (DosHeader.e_lfanew dos + 4 + 20)) as [oh|e| |] eqn:Ho;
    simpl in H; try discriminate H.
  destruct (Z.eqb_spec (OptionalHeader.magic oh) 0x20b) as [Hq''|Hq''];
    simpl in H; try discriminate H.
  bind_inv H. inversion H; subst; simpl.
  repeat split; try assumption; reflexivity.
Qed.

End ParseChecks.

(** A loop of bounds-checked reads collects its records or fails with
    [BufferOverflow]. *)
Lemma for_each_read_struct_cases {T} (t : Struct T) data (g : Z -> Z) l :
  (exists ys, for_each (fun i => read_struct t data (g i)) l = Ok ys) \/
  for_each (fun i => read_struct t data (g i)) l = Throw BufferOverflow.
Proof.
  induction l as [|x r IH]; cbn [for_each]; [left; eexists; reflexivity|].
  destruct (read_struct_cases t data (g x)) as [[_ R]|[_ R]]; rewrite R;
    cbn [bind]; [|right; reflexivity].
  destruct IH as [[ys IH]|IH]; rewrite IH; cbn [bind];
    [left; eexists; reflexivity | right; reflexivity].
Qed.

Lemma iota_In n i : In i (iota n) -> 0 <= i < n.
Proof.
  unfold iota. rewrite in_map_iff. intros (k & <- & Hk).
  apply in_seq in Hk. lia.
Qed.

(** The section-header loop of [parse] fails as soon as one counted header
    does not fit, and collects all of them otherwise. *)
Lemma read_sections_overflow {T} (t : Struct T) data (g : Z -> Z) n i :
  0 <= i < n -> g i + sizeof t > buffer_size data ->
  for_each (fun i => read_struct t data (g i)) (iota n) = Throw BufferOverflow.
Proof.
  intros Hi Hb.
  destruct (for_each_read_struct_cases t data g (iota n)) as [[ys H]|H];
    [|exact H].
  destruct (for_each_Ok_nth _ _ _ H (Z.to_nat i) i (iota_nth_error _ _ Hi))
    as (y & _ & Hy).
  destruct (read_struct_cases t data (g i)) as [[Hle _]|[_ R]];
    [lia | rewrite R in Hy; discriminate Hy].
Qed.

Lemma read_sections_fit {T} (t : Struct T) data (g : Z -> Z) n :
  (forall i, 0 <= i < n -> g i + sizeof t <= buffer_size data) ->
  exists ys, for_each (fun i => read_struct t data (g i)) (iota n) = Ok ys.
Proof.
  intros Hall.
  assert (G : forall l, (forall i, In i l -> 0 <= i < n) ->
              exists ys, for_each (fun i => read_struct t data (g i)) l = Ok ys).
  { induction l as [|x r IH]; intros Hl; cbn [for_each];
      [eexists; reflexivity|].
    destruct (read_struct_cases t data (g x)) as [[_ R]|[Hb _]].
    - rewrite R. cbn [bind].
      destruct IH as [ys IH]; [intros i Hi; apply Hl; right; exact Hi|].
      rewrite IH. cbn [bind]. eexists; reflexivity.
    - specialize (Hall x (Hl x (or_introl eq_refl))). lia. }
  apply G. intros i. apply iota_In.
Qed.

Lemma read_struct_overflow {T} (t : Struct T) data offset :
  buffer_size data < offset + sizeof t ->
  read_struct t data offset = Throw BufferOverflow.
Proof.
  intros H.
  destruct (read_struct_cases t data offset) as [[Hle _]|[_ R]]; [lia | exact R].
Qed.

(** C7, amended.  [parse] reads and checks in order, and a header that does
    not fit in the buffer makes it fail with [BufferOverflow] at that step.
    A buffer below the 64 bytes of a DOS header fails with [BufferOverflow];
    [parse] fails with [NotPE] iff the DOS header can be read and its magic
    differs from [0x5A4D].  Given a DOS header with that magic, a buffer that
    ends before [e_lfanew + 4] fails with [BufferOverflow], and [parse] fails
    with [BadNtSignature] iff the 4 bytes at [e_lfanew] can be read and differ
    from [0x00004550].  Given both, a buffer that ends before the file header
    does ([e_lfanew + 24]) fails with [BufferOverflow], and [parse] fails with
    [UnsupportedMachine] iff the file header can be read and its machine
    differs from [0x8664].  Given all three, a buffer that ends before the
    optional header does ([e_lfanew + 264]) fails with [BufferOverflow], and
    [parse] fails with [UnsupportedOptionalMagic] iff the optional header can
    be read and its magic differs from [0x20B].  Given all four, [parse]
    fails with [BufferOverflow] if one of the counted section headers does
    not fit, and succeeds with the headers read if all of them fit.  It
    succeeds only when all four reads and checks pass. *)
Theorem parse_checks_in_order (buffer : list byte) :
  (buffer_size buffer < 64 -> parse buffer = Throw BufferOverflow) /\
  (parse buffer = Throw NotPE <->
   exists dos,
     read_struct DosHeader.layout buffer 0 = Ok dos /\ ~ dos_magic_ok dos) /\
  (forall dos,
     read_struct DosHeader.layout buffer 0 = Ok dos -> dos_magic_ok dos ->
     (buffer_size buffer < DosHeader.e_lfanew dos + 4 ->
      parse buffer = Throw BufferOverflow) /\
     (parse buffer = Throw BadNtSignature <->
      exists signature,
        read_struct uint32_t buffer (DosHeader.e_lfanew dos) = Ok signature /\
        ~ nt_signature_ok signature) /\
     (read_struct uint32_t buffer (DosHeader.e_lfanew dos) = Ok 0x00004550 ->
      (buffer_size buffer < DosHeader.e_lfanew dos + 24 ->
       parse buffer = Throw BufferOverflow) /\
      (parse buffer = Throw UnsupportedMachine <->
       exists fh,
         read_struct FileHeader.layout buffer (DosHeader.e_lfanew dos + 4) =
           Ok fh /\ ~ machine_ok fh) /\
      (forall fh,
         read_struct FileHeader.layout buffer (DosHeader.e_lfanew dos + 4) =
           Ok fh -> machine_ok fh ->
         (buffer_size buffer < DosHeader.e_lfanew dos + 264 ->
          parse buffer = Throw BufferOverflow) /\
         (parse buffer = Throw UnsupportedOptionalMagic <->
          exists oh,
            read_struct OptionalHeader.layout buffer
              (DosHeader.e_lfanew dos + 4 + 20) = Ok oh /\
            ~ optional_magic_ok oh) /\
         (forall oh,
            read_struct OptionalHeader.layout buffer
              (DosHeader.e_lfanew dos + 4 + 20) = Ok oh ->
            optional_magic_ok oh ->
            let section_offset :=
              DosHeader.e_lfanew dos + 24 +
              FileHeader.size_of_optional_header fh in
            ((exists i,
                0 <= i < FileHeader.number_of_sections fh /\
                buffer_size buffer < section_offset + 40 * i + 40) ->
             parse buffer = Throw BufferOverflow) /\
            ((forall i,
                0 <= i < FileHeader.number_of_sections fh ->
                section_offset + 40 * i + 40 <= buffer_size buffer) ->
             exists sections,
               parse buffer =
                 Ok {| dos_header := dos;
                       file_header := fh;
                       optional_header := oh;
                       section_headers := sections;
                       data_directories :=
                         OptionalHeader.data_directories oh |}))))) /\
  (forall info,
     parse buffer = Ok info ->
     read_struct DosHeader.layout buffer 0 = Ok (dos_header info) /\
     dos_magic_ok (dos_header info) /\
     read_struct uint32_t buffer (DosHeader.e_lfanew (dos_header info)) =
       Ok 0x00004550 /\
     read_struct FileHeader.layout buffer
       (DosHeader.e_lfanew (dos_header info) + 4) = Ok (file_header info) /\
     machine_ok (file_header info) /\
     read_struct OptionalHeader.layout buffer
       (DosHeader.e_lfanew (dos_header info) + 4 + 20) =
       Ok (optional_header info) /\
     optional_magic_ok (optional_header info)).
Proof.
  split.
  { intros H. unfold parse.
    rewrite (read_struct_overflow DosHeader.layout) by (cbn [sizeof DosHeader.layout]; lia).
    reflexivity. }
  split; [apply parse_NotPE|]. split.
  - intros dos Hd Hm. split.
    { intros H. unfold parse. rewrite Hd. cbn [bind].
      unfold dos_magic_ok in Hm. rewrite Hm. cbn [Z.eqb Pos.eqb negb].
      rewrite (read_struct_overflow uint32_t)
        by (change (sizeof uint32_t) with 4; lia).
      reflexivity. }
    split; [apply parse_BadNtSignature; assumption|].
    intros Hs. split.
    { intros H. unfold parse. rewrite Hd. cbn [bind].
      unfold dos_magic_ok in Hm. rewrite Hm. cbn [Z.eqb Pos.eqb negb].
      rewrite Hs. cbn [bind Z.eqb Pos.eqb negb].
      rewrite (read_struct_overflow FileHeader.layout)
        by (change (sizeof FileHeader.layout) with 20; lia).
      reflexivity. }
    split; [apply parse_UnsupportedMachine; assumption|].
    intros fh Hf Hmach. split.
    { intros H. unfold parse. rewrite Hd. cbn [bind].
      unfold dos_magic_ok in Hm. rewrite Hm. cbn [Z.eqb Pos.eqb negb].
      rewrite Hs. cbn [bind Z.eqb Pos.eqb negb].
      rewrite Hf. cbn [bind].
      unfold machine_ok in Hmach. rewrite Hmach. cbn [Z.eqb Pos.eqb negb].
      change (sizeof FileHeader.layout) with 20.
      rewrite (read_struct_overflow OptionalHeader.layout)
        by (change (sizeof OptionalHeader.layout) with 240; lia).
      reflexivity. }
    split; [apply parse_UnsupportedOptionalMagic with fh; assumption|].
    intros oh Ho Hmagic section_offset.
    assert (Hparse :
              parse buffer =
              (sections <- for_each
                 (fun i => read_struct SectionHeader.layout buffer
                             (section_offset + i * 40))
                 (iota (FileHeader.number_of_sections fh)) ;;
               Ok {| dos_header := dos;
                     file_header := fh;
                     optional_header := oh;
                     section_headers := sections;
                     data_directories :=
                       OptionalHeader.data_directories oh |})).
    { unfold parse. rewrite Hd. cbn [bind].
      unfold dos_magic_ok in Hm. rewrite Hm. cbn [Z.eqb Pos.eqb negb].
      rewrite Hs. cbn [bind Z.eqb Pos.eqb negb].
      rewrite Hf. cbn [bind].
      unfold machine_ok in Hmach. rewrite Hmach. cbn [Z.eqb Pos.eqb negb].
      change (sizeof FileHeader.layout) with 20.
      rewrite Ho. cbn [bind].
      unfold optional_magic_ok in Hmagic. rewrite Hmagic.
      cbn [Z.eqb Pos.eqb negb].
      change (sizeof SectionHeader.layout) with 40.
      subst section_offset.
      replace (DosHeader.e_lfanew dos + 4 + 20) with (DosHeader.e_lfanew dos + 24)
        by lia.
      reflexivity. }
    split.
    + intros (i & Hi & Hb). rewrite Hparse.
      rewrite (read_sections_overflow SectionHeader.layout buffer
                 (fun i => section_offset + i * 40) _ i Hi)
        by (change (sizeof SectionHeader.layout) with 40; lia).
      reflexivity.
    + intros Hall. rewrite Hparse.
      destruct (read_sections_fit SectionHeader.layout buffer
                  (fun i => section_offset + i * 40)
                  (FileHeader.number_of_sections fh)) as [ys Hys].
      { intros i Hi. change (sizeof SectionHeader.layout) with 40.
        specialize (Hall i Hi). lia. }
      rewrite Hys. cbn [bind]. exists ys. reflexivity.
  - intros info H. pose proof (parse_Ok buffer info H). tauto.
Qed.

(** A buffer shorter than a DOS header is rejected by the bounds check of the
    first read, whatever its first two bytes are. *)
Lemma parse_BufferOverflow_first (buffer : list byte) :
  buffer_size buffer < 64 -> parse buffer = Throw BufferOverflow.
Proof.
  intros H. unfold parse.
  destruct (read_struct_cases DosHeader.layout buffer 0) as [[Hle _] | [_ Hr]].
  - simpl in Hle. lia.
  - rewrite Hr. reflexivity.
Qed.

(** Scenarios S1 and S2 through the theorem: 64 bytes that start [4D 5B] fail
    with [NotPE], an x64 image with optional magic [0x10B] fails with
    [UnsupportedOptionalMagic]; and three truncated buffers fail with
    [BufferOverflow]: 32 bytes, an image cut inside its file header, and one
    cut inside its section header. *)
Lemma parse_checks_in_order_witness :
  parse bad_magic_image = Throw NotPE /\
  parse pe32_image = Throw UnsupportedOptionalMagic /\
  parse short_image = Throw BufferOverflow /\
  parse (firstn 80 minimal_image) = Throw BufferOverflow /\
  parse (firstn 360 minimal_image) = Throw BufferOverflow /\
  exists sections,
    parse minimal_image =
      Ok {| dos_header := DosHeader.mk 0x5A4D 64;
            file_header := FileHeader.mk 0x8664 1 0 0 0 240 0x22;
            optional_header := optional_header (pe_info_ (loaded minimal_image));
            section_headers := sections;
            data_directories :=
              OptionalHeader.data_directories
                (optional_header (pe_info_ (loaded minimal_image))) |}.
Proof.
  split; [|split; [|split; [|split; [|split]]]].
  - apply (proj1 (proj2 (parse_checks_in_order bad_magic_image))).
    eexists. split; [vm_compute; reflexivity|].
    unfold dos_magic_ok. vm_compute. intros H; discriminate H.
  - destruct (parse_checks_in_order pe32_image) as [_ [_ [H _]]].
    destruct (H (DosHeader.mk 0x5A4D 64)) as [_ [_ H1]];
      [vm_compute; reflexivity | reflexivity |].
    destruct H1 as [_ [_ H2]]; [vm_compute; reflexivity|].
    apply (H2 (FileHeader.mk 0x8664 0 0 0 0 240 0x22));
      [vm_compute; reflexivity | reflexivity |].
    eexists. split; [vm_compute; reflexivity|].
    unfold optional_magic_ok. vm_compute. intros E; discriminate E.
  - apply (proj1 (parse_checks_in_order short_image)).
    vm_compute. reflexivity.
  - destruct (parse_checks_in_order (firstn 80 minimal_image))
      as [_ [_ [H _]]].
    destruct (H (DosHeader.mk 0x5A4D 64)) as [_ [_ H1]];
      [vm_compute; reflexivity | reflexivity |].
    destruct H1 as [H2 _]; [vm_compute; reflexivity|].
    apply H2. vm_compute. reflexivity.
  - destruct (parse_checks_in_order (firstn 360 minimal_image))
      as [_ [_ [H _]]].
    destruct (H (DosHeader.mk 0x5A4D 64)) as [_ [_ H1]];
      [vm_compute; reflexivity | reflexivity |].
    destruct H1 as [_ [_ H2]]; [vm_compute; reflexivity|].
    destruct (H2 (FileHeader.mk 0x8664 1 0 0 0 240 0x22)) as [_ [_ H3]];
      [vm_compute; reflexivity | reflexivity |].
    destruct (H3 (optional_header (pe_info_ (loaded minimal_image))))
      as [H4 _]; [vm_compute; reflexivity | vm_compute; reflexivity |].
    apply H4. exists 0. vm_compute. repeat split; intros E; discriminate E.
  - destruct (parse_checks_in_order minimal_image) as [_ [_ [H _]]].
    destruct (H (DosHeader.mk 0x5A4D 64)) as [_ [_ H1]];
      [vm_compute; reflexivity | reflexivity |].
    destruct H1 as [_ [_ H2]]; [vm_compute; reflexivity|].
    destruct (H2 (FileHeader.mk 0x8664 1 0 0 0 240 0x22)) as [_ [_ H3]];
      [vm_compute; reflexivity | reflexivity |].
    destruct (H3 (optional_header (pe_info_ (loaded minimal_image))))
      as [_ H4]; [vm_compute; reflexivity | vm_compute; reflexivity |].
    apply H4. intros i Hi.
    assert (i = 0) by (cbn [FileHeader.number_of_sections] in Hi; lia).
    subst i. vm_compute. intros E; discriminate E.
Defined.

(** C7, counterexample.  The 32-byte buffer [short_image] starts [4D 5B]: its
    DOS magic is [0x5B4D], not [0x5A4D], yet [parse] does not fail with
    [NotPE]: the read of the 64-byte DOS header fails first, with
    [BufferOverflow]. *)
Lemma parse_NotPE_iff_magic_counterexample :
  read_struct uint16_t short_image 0 = Ok 0x5B4D /\
  0x5B4D <> 0x5A4D /\
  parse short_image = Throw BufferOverflow /\
  ~ (parse short_image = Throw NotPE <->
     read_struct uint16_t short_image 0 <> Ok 0x5A4D).
Proof.
  split; [vm_compute; reflexivity|].
  split; [intros H; discriminate H|].
  split; [vm_compute; reflexivity|].
  intros [_ H].
  assert (Hf : parse short_image = Throw NotPE).
  { apply H. vm_compute. intros E; discriminate E. }
  vm_compute in Hf. discriminate Hf.
Qed.

(** ** Parsed images *)

Lemma parsed_loaded buffer p : Parser_new buffer = Ok p -> parsed p.
Proof.
  intros H. destruct (Parser_new_overrides _ _ H) as (Hb & Hp & _).
  unfold parsed. rewrite Hb. exact Hp.
Qed.

Lemma parsed_override_base_address p a :
  parsed p -> parsed (override_base_address p a).
Proof. exact (fun H => H). Qed.

Lemma parsed_override_entry_point p a :
  parsed p -> parsed (override_entry_point p a).
Proof. exact (fun H => H). Qed.

Lemma parse_data_directories buffer info :
  parse buffer = Ok info ->
  length (data_directories info) = 16%nat /\
  Forall (fun d => 0 <= DataDirectory.virtual_address d /\
                   0 <= DataDirectory.size d) (data_directories info).
Proof.
  intros H. apply parse_Ok in H.
  destruct H as (_ & _ & _ & _ & _ & Ho & _ & Hd & _).
  rewrite Hd.
  destruct (read_struct_cases OptionalHeader.layout buffer
              (DosHeader.e_lfanew (dos_header info) + 4 + 20)) as [[_ E]|[_ E]];
    rewrite E in Ho; [|discriminate Ho].
  inversion Ho as [Hoh]. simpl. split; [reflexivity|].
  repeat constructor; apply field_nonneg.
Qed.


(** ** Exports (C1, C4) *)

Lemma in_export_range_covers dir rva :
  in_export_range dir rva = true <-> directory_covers dir rva.
Proof.
  unfold in_export_range, directory_covers.
  rewrite andb_true_iff, Z.geb_le, Z.ltb_lt. tauto.
Qed.

(** What one successful iteration of the export loop emits. *)
Lemma export_entry_Ok p dir table fo no oo i e :
  export_entry p dir table fo no oo i = Ok e ->
  exists ordinal function_rva,
    read_struct uint16_t (buffer_ p) (oo + i * 2) = Ok ordinal /\
    read_struct uint32_t (buffer_ p) (fo + ordinal * 4) = Ok function_rva /\
    0 <= function_rva /\
    ExportEntry.ordinal e = wrap32 (ordinal + ExportDirectory.base table) /\
    ExportEntry.forwarder_ordinal e =
      (if in_export_range dir function_rva then Some ordinal else None) /\
    ExportEntry.address e =
      (if function_rva =? 0 then 0
       else wrap64 (get_image_base p + function_rva)).
Proof.
  unfold export_entry, export_name_rva, export_table_ordinal,
    export_function_rva.
  intros H. bind_inv H. bind_inv H. bind_inv H. bind_inv H.
  inversion H; subst; simpl.
  exists v0, v1. repeat split; try assumption.
  - destruct (read_struct_cases uint32_t (buffer_ p)
                (fo + v0 * sizeof uint32_t)) as [[_ R]|[_ R]];
      rewrite R in E1; inversion E1. apply le_value_nonneg.
  - destruct (v1 =? 0); reflexivity.
Qed.

(** What a successful call on a non-empty export directory has computed. *)
Lemma get_export_directory_Ok p table entries :
  get_export_directory p = Ok (table, entries) ->
  DataDirectory.virtual_address (data_directory p 0) <> 0 ->
  exists fo no oo,
    rva_to_offset p (ExportDirectory.address_of_functions table) = Ok fo /\
    rva_to_offset p (ExportDirectory.address_of_names table) = Ok no /\
    rva_to_offset p (ExportDirectory.address_of_name_ordinals table) = Ok oo /\
    for_each (export_entry p (data_directory p 0) table fo no oo)
             (iota (ExportDirectory.number_of_names table)) = Ok entries.
Proof.
  unfold get_export_directory. intros H Hva.
  destruct (Z.eqb_spec
              (DataDirectory.virtual_address (data_directory p 0)) 0);
    [contradiction|].
  bind_inv H. bind_inv H. bind_inv H. bind_inv H. bind_inv H. bind_inv H.
  bind_inv H. inversion H; subst.
  exists v2, v3, v4. repeat split; assumption.
Qed.

Lemma get_export_directory_entry p table entries i :
  get_export_directory p = Ok (table, entries) ->
  DataDirectory.virtual_address (data_directory p 0) <> 0 ->
  0 <= i < ExportDirectory.number_of_names table ->
  exists fo oo e ordinal function_rva,
    rva_to_offset p (ExportDirectory.address_of_functions table) = Ok fo /\
    rva_to_offset p (ExportDirectory.address_of_name_ordinals table) = Ok oo /\
    nth_error entries (Z.to_nat i) = Some e /\
    read_struct uint16_t (buffer_ p) (oo + i * 2) = Ok ordinal /\
    read_struct uint32_t (buffer_ p) (fo + ordinal * 4) = Ok function_rva /\
    0 <= function_rva /\
    ExportEntry.ordinal e = wrap32 (ordinal + ExportDirectory.base table) /\
    ExportEntry.forwarder_ordinal e =
      (if in_export_range (data_directory p 0) function_rva
       then Some ordinal else None) /\
    ExportEntry.address e =
      (if function_rva =? 0 then 0
       else wrap64 (get_image_base p + function_rva)).
Proof.
  intros H Hva Hi.
  destruct (get_export_directory_Ok _ _ _ H Hva) as (fo & no & oo & Hf & _ & Ho & Hl).
  destruct (for_each_Ok_nth _ _ _ Hl (Z.to_nat i) i (iota_nth_error _ _ Hi))
    as (e & He & Hent).
  destruct (export_entry_Ok _ _ _ _ _ _ _ _ Hent) as (ord & frva & P).
  exists fo, oo, e, ord, frva. tauto.
Qed.

(** A scalar read gives a value of its width. *)
Lemma read_scalar_range w data offset v :
  0 <= w -> read_struct (scalar w) data offset = Ok v -> 0 <= v < 256 ^ w.
Proof.
  intros Hw H.
  destruct (read_struct_cases (scalar w) data offset) as [[_ R]|[_ R]];
    rewrite R in H; inversion H.
  change (of_bytes (scalar w) (slice data offset (sizeof (scalar w))))
    with (field data offset w).
  split; [apply field_nonneg | apply field_bound; exact Hw].
Qed.

(** The table a successful call returns is the export directory record of the
    file. *)
Lemma get_export_directory_table p table entries :
  get_export_directory p = Ok (table, entries) ->
  DataDirectory.virtual_address (data_directory p 0) <> 0 ->
  exists offset,
    rva_to_offset p (DataDirectory.virtual_address (data_directory p 0)) =
      Ok offset /\
    read_struct ExportDirectory.layout (buffer_ p) offset = Ok table.
Proof.
  unfold get_export_directory. intros H Hva.
  destruct (Z.eqb_spec
              (DataDirectory.virtual_address (data_directory p 0)) 0);
    [contradiction|].
  bind_inv H. bind_inv H. exists v. split; [exact E|].
  bind_inv H. bind_inv H. bind_inv H. bind_inv H. bind_inv H.
  inversion H; subst. exact E0.
Qed.

(** C4, amended.  On a successful call with a non-empty export directory the
    table returned is the export directory record at the directory's mapped
    offset, exactly [number_of_names] entries are emitted, and for each [i]
    below it the [i]-th entry has public ordinal = table ordinal (the
    [uint16_t] at [ordinals_offset + i*2]) + [base] modulo [2^32], is marked
    forwarder with [forwarder_ordinal] = table ordinal iff [function_rva]
    (the [uint32_t] at [functions_offset + ordinal*4]) lies within the export
    directory's range (its end a [uint32_t] sum), and has address 0 when
    [function_rva] is 0 and effective image base + [function_rva] modulo
    [2^64] otherwise.  Where a sum stays below the modulus it is the plain
    sum. *)
Theorem export_entry_fields (p : Parser) table entries :
  get_export_directory p = Ok (table, entries) ->
  DataDirectory.virtual_address (data_directory p 0) <> 0 ->
  (exists offset,
     rva_to_offset p (DataDirectory.virtual_address (data_directory p 0)) =
       Ok offset /\
     read_struct ExportDirectory.layout (buffer_ p) offset = Ok table) /\
  length entries = Z.to_nat (ExportDirectory.number_of_names table) /\
  forall i, 0 <= i < ExportDirectory.number_of_names table ->
    exists functions_offset ordinals_offset e ordinal function_rva,
      rva_to_offset p (ExportDirectory.address_of_functions table) =
        Ok functions_offset /\
      rva_to_offset p (ExportDirectory.address_of_name_ordinals table) =
        Ok ordinals_offset /\
      nth_error entries (Z.to_nat i) = Some e /\
      read_struct uint16_t (buffer_ p) (ordinals_offset + i * 2) = Ok ordinal /\
      read_struct uint32_t (buffer_ p) (functions_offset + ordinal * 4) =
        Ok function_rva /\
      ExportEntry.ordinal e = wrap32 (ordinal + ExportDirectory.base table) /\
      (ordinal + ExportDirectory.base table < 2 ^ 32 ->
       ExportEntry.ordinal e = ordinal + ExportDirectory.base table) /\
      (ExportEntry.forwarder_ordinal e = Some ordinal <->
       directory_covers (data_directory p 0) function_rva) /\
      (ExportEntry.forwarder_ordinal e = None <->
       ~ directory_covers (data_directory p 0) function_rva) /\
      (function_rva = 0 -> ExportEntry.address e = 0) /\
      (function_rva <> 0 ->
       ExportEntry.address e = wrap64 (get_image_base p + function_rva)) /\
      (function_rva <> 0 ->
       0 <= get_image_base p -> get_image_base p + function_rva < 2 ^ 64 ->
       ExportEntry.address e = get_image_base p + function_rva).
Proof.
  intros H Hva.
  pose proof (get_export_directory_table _ _ _ H Hva) as Htable.
  split; [exact Htable|]. split.
  - destruct (get_export_directory_Ok _ _ _ H Hva) as (fo & no & oo & _ & _ & _ & Hl).
    apply for_each_Ok_length in Hl. rewrite Hl. apply iota_length.
  - intros i Hi.
    destruct (get_export_directory_entry _ _ _ i H Hva Hi)
      as (fo & oo & e & ord & frva & Hf & Ho & He & Hord & Hfr & Hnn & Hpub & Hfw & Had).
    exists fo, oo, e, ord, frva.
    repeat (split; [assumption|]).
    split.
    { intros Hsum. rewrite Hpub. unfold wrap32. apply Z.mod_small.
      pose proof (read_scalar_range 2 _ _ _ ltac:(lia) Hord) as Hr.
      assert (Hb : 0 <= ExportDirectory.base table).
      { destruct Htable as (offset & _ & Ht).
        destruct (read_struct_cases ExportDirectory.layout (buffer_ p) offset)
          as [[_ R]|[_ R]]; rewrite R in Ht; inversion Ht.
        cbn [ExportDirectory.base of_bytes ExportDirectory.layout].
        apply field_nonneg. }
      lia. }
    rewrite Hfw, Had. rewrite <- in_export_range_covers.
    destruct (in_export_range (data_directory p 0) frva);
      destruct (Z.eqb_spec frva 0);
      repeat split; intros; try congruence;
      unfold wrap64; rewrite Z.mod_small by lia; reflexivity.
Qed.


Lemma forwarder_image_exports :
  get_export_directory (loaded forwarder_image) =
  Ok (forwarder_table, [forwarder_fwd; forwarder_run]).
Proof. vm_compute. reflexivity. Qed.

(** [forwarder_image] through the theorem: the table is the record at file
    offset [0x200], two entries are emitted, and the second has public
    ordinal 2. *)
Lemma export_entry_fields_witness :
  (exists offset,
     rva_to_offset (loaded forwarder_image)
       (DataDirectory.virtual_address
          (data_directory (loaded forwarder_image) 0)) = Ok offset /\
     read_struct ExportDirectory.layout (buffer_ (loaded forwarder_image))
       offset = Ok forwarder_table) /\
  length [forwarder_fwd; forwarder_run] = 2%nat /\
  exists e ordinal,
    nth_error [forwarder_fwd; forwarder_run] (Z.to_nat 1) = Some e /\
    ExportEntry.ordinal e = wrap32 (ordinal + ExportDirectory.base forwarder_table).
Proof.
  assert (H : get_export_directory (loaded forwarder_image) =
              Ok (forwarder_table, [forwarder_fwd; forwarder_run]))
    by (vm_compute; reflexivity).
  assert (Hva : DataDirectory.virtual_address
                  (data_directory (loaded forwarder_image) 0) <> 0)
    by (vm_compute; intros E; discriminate E).
  destruct (export_entry_fields (loaded forwarder_image) forwarder_table
              [forwarder_fwd; forwarder_run] H Hva) as (Ht & Hl & Hall).
  split; [exact Ht|]. split; [exact Hl|].
  destruct (Hall 1) as (fo & oo & e & ord & frva & _ & _ & He & _ & _ & Ho & _);
    [vm_compute; split; [intros E; discriminate E | reflexivity]|].
  exists e, ord. split; assumption.
Defined.

(** C4, counterexample.  With the base-address override of [forwarder_image]
    at [2^64 - 0x1800], its second export, whose function RVA is [0x1800] and
    not 0, has address 0: the sum image base + function RVA is [2^64] and
    wraps. *)
Lemma export_address_wraps_counterexample :
  get_export_directory rebased_forwarder =
    Ok (forwarder_table, [rebased_fwd; rebased_run]) /\
  get_image_base rebased_forwarder = 0xFFFFFFFFFFFFE800 /\
  read_struct uint16_t (buffer_ rebased_forwarder) 0x23A = Ok 1 /\
  read_struct uint32_t (buffer_ rebased_forwarder) 0x22C = Ok 0x1800 /\
  0x1800 <> 0 /\
  ExportEntry.address rebased_run = 0 /\
  ExportEntry.address rebased_run <>
    get_image_base rebased_forwarder + 0x1800.
Proof.
  repeat split; try (vm_compute; reflexivity);
    vm_compute; intros E; discriminate E.
Qed.



(** ** TLS callbacks (C10) *)

Lemma rva_to_offset_range p rva offset :
  rva_to_offset p rva = Ok offset -> 0 <= offset < 2 ^ 32.
Proof.
  unfold rva_to_offset.
  destruct (find (is_rva_in_section rva) (section_headers (pe_info_ p)));
    [|discriminate].
  intros H. inversion H. unfold wrap32. apply Z.mod_pos_bound. reflexivity.
Qed.

Lemma buffer_size_nonneg data : 0 <= buffer_size data.
Proof. unfold buffer_size. lia. Qed.

Lemma read_struct_Ok_bound {T} (t : Struct T) data offset v :
  read_struct t data offset = Ok v -> offset + sizeof t <= buffer_size data.
Proof.
  destruct (read_struct_cases t data offset) as [[H _]|[_ R]];
    [auto | rewrite R; discriminate].
Qed.

Lemma read_struct_Throw_bound {T} (t : Struct T) data offset e :
  read_struct t data offset = Throw e -> offset + sizeof t > buffer_size data.
Proof.
  destruct (read_struct_cases t data offset) as [[_ R]|[H _]];
    [rewrite R; discriminate | auto].
Qed.

Lemma bind_not_OutOfFuel {A B} (m : outcome A) (k : A -> outcome B) :
  m <> OutOfFuel -> (forall a, m = Ok a -> k a <> OutOfFuel) ->
  bind m k <> OutOfFuel.
Proof.
  intros Hm Hk. destruct m; cbn [bind]; try discriminate; auto.
Qed.

Lemma rva_to_offset_not_OutOfFuel p rva : rva_to_offset p rva <> OutOfFuel.
Proof.
  unfold rva_to_offset.
  destruct (find (is_rva_in_section rva) (section_headers (pe_info_ p)));
    discriminate.
Qed.

Lemma read_cstring_not_OutOfFuel data offset :
  read_cstring data offset <> OutOfFuel.
Proof. unfold read_cstring. destruct (offset >? buffer_size data); discriminate. Qed.

Lemma tls_callbacks_S fuel p offset :
  tls_callbacks (S fuel) p offset =
  (callback <- read_struct uint64_t (buffer_ p) offset ;;
   if callback =? 0 then Ok [] else
   rest <- tls_callbacks fuel p (offset + 8) ;;
   Ok (callback :: rest)).
Proof. reflexivity. Qed.

(** Case analysis on one bounds-checked read. *)
Ltac case_read R :=
  match goal with
  | |- context [read_struct ?t ?d ?o] =>
      let v := fresh "v" in
      let e := fresh "e" in
      destruct (read_struct t d o) as [v|e| |] eqn:R;
      [ | pose proof (read_struct_throws _ _ _ _ R); subst e
        | exfalso; exact (proj1 (read_struct_not_past_end t d o) R)
        | exfalso; exact (proj2 (read_struct_not_past_end t d o) R) ]
  end.

(** A terminator in slot [n], after [n] non-zero slots, ends the walk with
    exactly those [n] values. *)
Lemma tls_callbacks_terminated p (n : nat) :
  forall fuel offset,
    (n < fuel)%nat ->
    (forall k, 0 <= k < Z.of_nat n -> tls_slot p offset k <> Ok 0) ->
    tls_slot p offset (Z.of_nat n) = Ok 0 ->
    exists callbacks,
      tls_callbacks fuel p offset = Ok callbacks /\
      length callbacks = n /\
      forall k, 0 <= k < Z.of_nat n ->
        tls_slot p offset k = Ok (nth (Z.to_nat k) callbacks 0) /\
        nth (Z.to_nat k) callbacks 0 <> 0.
Proof.
  unfold tls_slot.
  induction n as [|n IH]; intros fuel offset Hfuel Hnz Hterm;
    (destruct fuel as [|fuel]; [lia|]); rewrite tls_callbacks_S.
  - replace (offset + 8 * Z.of_nat 0) with offset in Hterm by lia.
    rewrite Hterm. cbn [bind]. simpl. exists []. repeat split; lia.
  - pose proof (Hnz 0 ltac:(lia)) as H0.
    replace (offset + 8 * 0) with offset in H0 by lia.
    case_read R.
    + cbn [bind].
      destruct (Z.eqb_spec v 0) as [Hz|Hz]; [subst v; contradiction|].
      destruct (IH fuel (offset + 8)) as (cbs & Hcbs & Hlen & Hall).
      * lia.
      * intros k Hk.
        replace (offset + 8 + 8 * k) with (offset + 8 * (k + 1)) by lia.
        apply Hnz. lia.
      * replace (offset + 8 + 8 * Z.of_nat n)
          with (offset + 8 * Z.of_nat (S n)) by lia.
        exact Hterm.
      * rewrite Hcbs. cbn [bind].
        exists (v :: cbs). split; [reflexivity|]. split; [simpl; lia|].
        intros k Hk.
        destruct (Z.eq_dec k 0) as [->|Hk0].
        -- replace (offset + 8 * 0) with offset by lia.
           split; [exact R | exact Hz].
        -- replace (Z.to_nat k) with (S (Z.to_nat (k - 1))) by lia.
           cbn [nth].
           replace (offset + 8 * k) with (offset + 8 + 8 * (k - 1)) by lia.
           apply Hall. lia.
    + (* the terminator would lie beyond a slot that cannot be read *)
      exfalso.
      apply read_struct_Throw_bound in R.
      apply read_struct_Ok_bound in Hterm.
      simpl in R, Hterm. lia.
Qed.

(** Without a terminator the walk ends at the first slot that does not fit
    in the buffer. *)
Lemma tls_callbacks_unterminated p :
  forall fuel offset,
    (forall k, 0 <= k -> tls_slot p offset k <> Ok 0) ->
    buffer_size (buffer_ p) < offset + 8 + 8 * Z.of_nat fuel ->
    tls_callbacks (S fuel) p offset = Throw BufferOverflow.
Proof.
  unfold tls_slot.
  induction fuel as [|fuel IH]; intros offset Hnz Hsize;
    rewrite tls_callbacks_S; case_read R; try reflexivity.
  - apply read_struct_Ok_bound in R. simpl in R. lia.
  - cbn [bind].
    pose proof (Hnz 0 ltac:(lia)) as H0.
    replace (offset + 8 * 0) with offset in H0 by lia.
    destruct (Z.eqb_spec v 0) as [Hz|Hz]; [subst v; contradiction|].
    rewrite IH; [reflexivity | | lia].
    intros k Hk.
    replace (offset + 8 + 8 * k) with (offset + 8 * (k + 1)) by lia.
    apply Hnz. lia.
Qed.

(** The walk never runs out of the fuel [get_tls_directory] gives it. *)
Lemma tls_callbacks_fuel p offset :
  0 <= offset -> tls_callbacks (walk_fuel p) p offset <> OutOfFuel.
Proof.
  unfold walk_fuel. intros Hoff.
  assert (G : forall fuel off,
             buffer_size (buffer_ p) < off + 8 + 8 * Z.of_nat fuel ->
             tls_callbacks (S fuel) p off <> OutOfFuel).
  { induction fuel as [|fuel IH]; intros off Hs;
      rewrite tls_callbacks_S; case_read R; try discriminate.
    - apply read_struct_Ok_bound in R. simpl in R. lia.
    - cbn [bind]. destruct (v =? 0); [discriminate|].
      specialize (IH (off + 8)).
      destruct (tls_callbacks (S fuel) p (off + 8)); try discriminate.
      exfalso. apply IH; [lia | reflexivity]. }
  apply G. unfold buffer_size. lia.
Qed.

(** [get_tls_directory] returns or fails on every parser state. *)
Lemma get_tls_directory_returns p : get_tls_directory p <> OutOfFuel.
Proof.
  unfold get_tls_directory.
  destruct (DataDirectory.virtual_address (data_directory p 9) =? 0);
    [discriminate|].
  apply bind_not_OutOfFuel; [apply rva_to_offset_not_OutOfFuel|].
  intros offset _.
  apply bind_not_OutOfFuel; [apply (proj2 (read_struct_not_past_end _ _ _))|].
  intros tls _.
  apply bind_not_OutOfFuel; [|discriminate].
  destruct (negb (TlsDirectory64.address_of_callbacks tls =? 0));
    [|discriminate].
  apply bind_not_OutOfFuel; [apply rva_to_offset_not_OutOfFuel|].
  intros cb Hcb. apply tls_callbacks_fuel.
  apply rva_to_offset_range in Hcb. lia.
Qed.

(** C10.  On an image whose TLS directory is read and has a non-zero
    [address_of_callbacks] that maps to [callback_offset]: if no 64-bit slot
    of the callback array that fits in the buffer is zero, [get_tls_directory]
    fails with [BufferOverflow] (it returns nothing); and if slot [n] is the
    first zero slot, it returns the directory with exactly the [n] non-zero
    values of the slots before it. *)
Theorem get_tls_directory_terminator (p : Parser) offset tls callback_offset :
  DataDirectory.virtual_address (data_directory p 9) <> 0 ->
  rva_to_offset p (DataDirectory.virtual_address (data_directory p 9)) =
    Ok offset ->
  read_struct TlsDirectory64.layout (buffer_ p) offset = Ok tls ->
  TlsDirectory64.address_of_callbacks tls <> 0 ->
  rva_to_offset p (wrap32 (TlsDirectory64.address_of_callbacks tls)) =
    Ok callback_offset ->
  ((forall k, 0 <= k -> tls_slot p callback_offset k <> Ok 0) ->
   get_tls_directory p = Throw BufferOverflow) /\
  (forall n,
     0 <= n ->
     tls_slot p callback_offset n = Ok 0 ->
     (forall k, 0 <= k < n -> tls_slot p callback_offset k <> Ok 0) ->
     exists callbacks,
       get_tls_directory p = Ok (tls, callbacks) /\
       Z.of_nat (length callbacks) = n /\
       forall k, 0 <= k < n ->
         tls_slot p callback_offset k = Ok (nth (Z.to_nat k) callbacks 0) /\
         nth (Z.to_nat k) callbacks 0 <> 0).
Proof.
  intros Hva Hoff Htls Haoc Hcb.
  pose proof (rva_to_offset_range _ _ _ Hcb) as Hrange.
  assert (Hunfold : get_tls_directory p =
                    (callbacks <- tls_callbacks (walk_fuel p) p callback_offset ;;
                     Ok (tls, callbacks))).
  { unfold get_tls_directory.
    destruct (Z.eqb_spec (DataDirectory.virtual_address (data_directory p 9)) 0);
      [contradiction|].
    rewrite Hoff. cbn [bind]. rewrite Htls. cbn [bind].
    destruct (Z.eqb_spec (TlsDirectory64.address_of_callbacks tls) 0);
      [contradiction|].
    cbn [negb]. rewrite Hcb. reflexivity. }
  rewrite Hunfold. split.
  - intros Hnz. unfold walk_fuel.
    rewrite tls_callbacks_unterminated; [reflexivity | exact Hnz | ].
    unfold buffer_size. lia.
  - intros n Hn Hterm Hnz.
    destruct (tls_callbacks_terminated p (Z.to_nat n) (walk_fuel p)
                callback_offset) as (cbs & Hcbs & Hlen & Hall).
    + unfold walk_fuel. unfold tls_slot in Hterm.
      apply read_struct_Ok_bound in Hterm. unfold buffer_size in Hterm.
      change (sizeof uint64_t) with 8 in Hterm. lia.
    + intros k Hk. apply Hnz. lia.
    + rewrite Z2Nat.id by lia. exact Hterm.
    + exists cbs. rewrite Hcbs. cbn [bind].
      split; [reflexivity|]. split; [lia|].
      intros k Hk. apply Hall. lia.
Qed.

(** [tls_unterminated_image] and [tls_image] through the theorem: the first
    fails with [BufferOverflow], the second returns its two callbacks. *)
Lemma get_tls_directory_terminator_witness :
  get_tls_directory (loaded tls_unterminated_image) = Throw BufferOverflow /\
  exists callbacks,
    get_tls_directory (loaded tls_image) = Ok (tls_image_directory, callbacks) /\
    Z.of_nat (length callbacks) = 2.
Proof.
  split.
  - apply (get_tls_directory_terminator (loaded tls_unterminated_image)
             0x200 tls_image_directory 0x240).
    + vm_compute. intros E; discriminate E.
    + vm_compute. reflexivity.
    + vm_compute. reflexivity.
    + vm_compute. intros E; discriminate E.
    + vm_compute. reflexivity.
    + intros k Hk.
      destruct (Z.eq_dec k 0) as [->|H0];
        [vm_compute; intros E; discriminate E|].
      destruct (Z.eq_dec k 1) as [->|H1];
        [vm_compute; intros E; discriminate E|].
      unfold tls_slot. intros R. apply read_struct_Ok_bound in R.
      assert (Hs : buffer_size (buffer_ (loaded tls_unterminated_image)) = 592)
        by (vm_compute; reflexivity).
      rewrite Hs in R. change (sizeof uint64_t) with 8 in R. lia.
  - destruct (get_tls_directory_terminator (loaded tls_image)
                0x200 tls_image_directory 0x240) as [_ H].
    + vm_compute. intros E; discriminate E.
    + vm_compute. reflexivity.
    + vm_compute. reflexivity.
    + vm_compute. intros E; discriminate E.
    + vm_compute. reflexivity.
    + destruct (H 2) as (cbs & Hc & Hl & _).
      * lia.
      * vm_compute. reflexivity.
      * intros k Hk.
        assert (Hk' : k = 0 \/ k = 1) by lia.
        destruct Hk' as [-> | ->]; vm_compute; intros E; discriminate E.
      * exists cbs. split; assumption.
Defined.

(** ** Imports (C5) *)



Lemma land_low_bits a n :
  0 <= n -> Z.land a (2 ^ n - 1) = a mod 2 ^ n.
Proof.
  intros Hn. rewrite <- Z.land_ones by assumption.
  rewrite Z.ones_equiv. f_equal; lia.
Qed.



(** The C string at an offset: no zero byte inside, and it ends at the first
    zero byte of the data, or at the end of the data when none is left. *)
Lemma until_nul_spec bs :
  ~ In x00 (until_nul bs) /\
  ((exists rest, bs = until_nul bs ++ x00 :: rest) \/
   (bs = until_nul bs /\ ~ In x00 bs)).
Proof.
  induction bs as [|b r [IH1 IH2]]; simpl.
  - split; [tauto|]. right. tauto.
  - destruct (Byte.eqb b x00) eqn:Hb.
    + apply Byte.byte_dec_bl in Hb. subst b.
      split; [simpl; tauto|]. left. exists r. reflexivity.
    + assert (Hne : b <> x00).
      { intros Heq. subst b.
        vm_compute in Hb. discriminate Hb. }
      split; [simpl; tauto|].
      destruct IH2 as [[rest Hr] | [Hr Hn]].
      * left. exists rest. simpl. f_equal. exact Hr.
      * right. split; [f_equal; exact Hr | simpl; tauto].
Qed.


Lemma read_cstring_Ok data offset name :
  read_cstring data offset = Ok name ->
  name = cstring_at data offset /\ offset <= buffer_size data.
Proof.
  unfold read_cstring.
  destruct (Z.gtb_spec offset (buffer_size data)) as [Hgt|Hle]; [discriminate|].
  intros E. inversion E. split; [reflexivity | lia].
Qed.


Lemma import_entries_S fuel p iat lookup_offset index :
  import_entries (S fuel) p iat lookup_offset index =
  (entry <- read_struct ImportLookupEntry64.layout (buffer_ p) lookup_offset ;;
   if ImportLookupEntry64.data entry =? 0 then Ok [] else
   e <- import_entry p iat index (ImportLookupEntry64.data entry) ;;
   rest <- import_entries fuel p iat (lookup_offset + 8) (index + 1) ;;
   Ok (e :: rest)).
Proof. reflexivity. Qed.


Lemma import_descriptors_S fuel p current_offset :
  import_descriptors (S fuel) p current_offset =
  if current_offset + 20 <=? buffer_size (buffer_ p) then
    import <- read_struct ImportDirectory.layout (buffer_ p) current_offset ;;
    if ImportDirectory.import_lookup_table_rva import =? 0 then Ok [] else
    name_start <- rva_to_offset p (ImportDirectory.name_rva import) ;;
    dll_name <- read_cstring (buffer_ p) name_start ;;
    lookup_offset <- rva_to_offset p
                       (ImportDirectory.import_lookup_table_rva import) ;;
    entries <- import_entries (walk_fuel p) p
                 (ImportDirectory.import_address_table_rva import)
                 lookup_offset 0 ;;
    rest <- import_descriptors fuel p (current_offset + 20) ;;
    Ok ((dll_name, entries) :: rest)
  else Ok [].
Proof. reflexivity. Qed.

(** Every descriptor a successful walk emits comes from the descriptor record
    at its position and a successful ILT walk. *)
Lemma import_descriptors_Ok p :
  forall fuel offset descs,
    import_descriptors fuel p offset = Ok descs ->
    forall j dll entries,
      nth_error descs j = Some (dll, entries) ->
      exists import name_start lookup_offset,
        read_struct ImportDirectory.layout (buffer_ p)
          (offset + 20 * Z.of_nat j) = Ok import /\
        ImportDirectory.import_lookup_table_rva import <> 0 /\
        rva_to_offset p (ImportDirectory.name_rva import) = Ok name_start /\
        dll = cstring_at (buffer_ p) name_start /\
        rva_to_offset p (ImportDirectory.import_lookup_table_rva import) =
          Ok lookup_offset /\
        import_entries (walk_fuel p) p
          (ImportDirectory.import_address_table_rva import) lookup_offset 0 =
          Ok entries.
Proof.
  induction fuel as [|fuel IH]; intros offset descs H; [discriminate H|].
  rewrite import_descriptors_S in H.
  destruct (offset + 20 <=? buffer_size (buffer_ p)).
  - bind_inv H.
    destruct (Z.eqb_spec (ImportDirectory.import_lookup_table_rva v) 0) as [Hz|Hz].
    + inversion H; subst. intros [|j] ? ? Hj; discriminate Hj.
    + bind_inv H. bind_inv H. bind_inv H. bind_inv H. bind_inv H.
      inversion H; subst descs.
      intros [|j] dll entries Hj; simpl in Hj.
      * inversion Hj; subst.
        exists v, v0, v2.
        replace (offset + 20 * Z.of_nat 0) with offset by lia.
        apply read_cstring_Ok in E1. destruct E1 as [-> _].
        repeat split; assumption.
      * destruct (IH _ _ E4 j dll entries Hj) as (imp & ns & lo & R & P).
        exists imp, ns, lo.
        replace (offset + 20 * Z.of_nat (S j))
          with (offset + 20 + 20 * Z.of_nat j) by lia.
        split; assumption.
  - inversion H; subst. intros [|j] ? ? Hj; discriminate Hj.
Qed.

Lemma import_entry_not_OutOfFuel p iat index data :
  import_entry p iat index data <> OutOfFuel.
Proof.
  unfold import_entry.
  destruct (negb (Z.land data (Z.shiftl 1 63) =? 0)); [discriminate|].
  apply bind_not_OutOfFuel; [apply rva_to_offset_not_OutOfFuel|].
  intros mapped _.
  apply bind_not_OutOfFuel; [apply read_cstring_not_OutOfFuel|].
  discriminate.
Qed.

(** The ILT walk advances by eight bytes per read and stops at the first
    read that does not fit: it never uses up [walk_fuel]. *)
Lemma import_entries_fuel p iat lookup_offset index :
  0 <= lookup_offset ->
  import_entries (walk_fuel p) p iat lookup_offset index <> OutOfFuel.
Proof.
  unfold walk_fuel. intros Hoff.
  assert (G : forall fuel off idx,
             buffer_size (buffer_ p) < off + 8 + 8 * Z.of_nat fuel ->
             import_entries (S fuel) p iat off idx <> OutOfFuel).
  { induction fuel as [|fuel IH]; intros off idx Hs;
      rewrite import_entries_S; case_read R; try discriminate.
    - apply read_struct_Ok_bound in R.
      change (sizeof ImportLookupEntry64.layout) with 8 in R. lia.
    - cbn [bind]. destruct (ImportLookupEntry64.data v =? 0); [discriminate|].
      apply bind_not_OutOfFuel; [apply import_entry_not_OutOfFuel|].
      intros e _. apply bind_not_OutOfFuel; [|discriminate].
      apply IH. lia. }
  apply G. unfold buffer_size. lia.
Qed.

(** The descriptor walk advances by twenty bytes and stops at the end of the
    buffer: it never uses up [walk_fuel] either. *)
Lemma import_descriptors_fuel p offset :
  0 <= offset ->
  import_descriptors (walk_fuel p) p offset <> OutOfFuel.
Proof.
  intros Hoff.
  assert (G : forall fuel off,
             buffer_size (buffer_ p) < off + 20 + 20 * Z.of_nat fuel ->
             import_descriptors (S fuel) p off <> OutOfFuel).
  { induction fuel as [|fuel IH]; intros off Hs;
      rewrite import_descriptors_S;
      (destruct (Z.leb_spec (off + 20) (buffer_size (buffer_ p))) as [Hle|Hgt];
       [|discriminate]).
    - lia.
    - apply bind_not_OutOfFuel;
        [apply (proj2 (read_struct_not_past_end _ _ _))|].
      intros imp _.
      destruct (ImportDirectory.import_lookup_table_rva imp =? 0);
        [discriminate|].
      apply bind_not_OutOfFuel; [apply rva_to_offset_not_OutOfFuel|].
      intros ns _.
      apply bind_not_OutOfFuel; [apply read_cstring_not_OutOfFuel|].
      intros dll _.
      apply bind_not_OutOfFuel; [apply rva_to_offset_not_OutOfFuel|].
      intros lo Hlo.
      apply bind_not_OutOfFuel.
      { apply import_entries_fuel. apply rva_to_offset_range in Hlo. lia. }
      intros entries _.
      apply bind_not_OutOfFuel; [|discriminate].
      apply IH. lia. }
  unfold walk_fuel. apply G. unfold buffer_size. lia.
Qed.

(** [get_import_directory] returns or fails on every parser state. *)
Lemma get_import_directory_returns p : get_import_directory p <> OutOfFuel.
Proof.
  unfold get_import_directory.
  destruct (DataDirectory.virtual_address (data_directory p 1) =? 0);
    [discriminate|].
  apply bind_not_OutOfFuel; [apply rva_to_offset_not_OutOfFuel|].
  intros offset Ho. apply import_descriptors_fuel.
  apply rva_to_offset_range in Ho. lia.
Qed.


Lemma import_image_imports :
  get_import_directory (loaded import_image) =
  Ok [(Image.ascii_bytes "k.dll", import_image_entries)].
Proof. vm_compute. reflexivity. Qed.


(** ** Chain resolution (C2) *)

Lemma resolve_chained_function_S fuel p base_offset func :
  resolve_chained_function (S fuel) p base_offset func =
  if RuntimeFunction.unwind_info_address func =? 0 then Ok func else
  try_catch
    (mapped <- rva_to_offset p (RuntimeFunction.unwind_info_address func) ;;
     unwind_info <- read_struct UnwindInfo.layout (buffer_ p) mapped ;;
     if negb (Z.land (UnwindInfo.flags unwind_info) 0x4 =? 0) then
       let index := UnwindInfo.count_of_codes unwind_info in
       let index :=
         if negb (Z.land index 1 =? 0) then wrap32 (index + 1) else index in
       mapped' <- rva_to_offset p (RuntimeFunction.unwind_info_address func) ;;
       let chain_offset :=
         mapped' + UnwindInfo.offsetof_unwind_code + index * UnwindCode.sizeof in
       chain_func <- read_struct RuntimeFunction.layout (buffer_ p)
                       chain_offset ;;
       resolve_chained_function fuel p base_offset chain_func
     else Ok func)
    (Ok func).
Proof. reflexivity. Qed.

(** A function without unwind info is returned at once. *)
Lemma resolve_chained_function_no_unwind fuel p base_offset func :
  RuntimeFunction.unwind_info_address func = 0 ->
  resolve_chained_function (S fuel) p base_offset func = Ok func.
Proof.
  intros H. rewrite resolve_chained_function_S, H. reflexivity.
Qed.

(** A function whose unwind info has the chain flag clear is returned after
    one read. *)
Lemma resolve_chained_function_unchained fuel p base_offset func mapped u :
  rva_to_offset p (RuntimeFunction.unwind_info_address func) = Ok mapped ->
  read_struct UnwindInfo.layout (buffer_ p) mapped = Ok u ->
  Z.land (UnwindInfo.flags u) 0x4 = 0 ->
  resolve_chained_function (S fuel) p base_offset func = Ok func.
Proof.
  intros Hm Hu Hf. rewrite resolve_chained_function_S.
  destruct (RuntimeFunction.unwind_info_address func =? 0); [reflexivity|].
  rewrite Hm. cbn [bind]. rewrite Hu. cbn [bind]. rewrite Hf. reflexivity.
Qed.

(** Any failing read along the chain is swallowed: the call never throws. *)
Lemma resolve_chained_function_no_throw p base_offset :
  forall fuel func e,
    resolve_chained_function fuel p base_offset func <> Throw e.
Proof.
  induction fuel as [|fuel IH]; intros func e; [discriminate|].
  rewrite resolve_chained_function_S.
  destruct (RuntimeFunction.unwind_info_address func =? 0); [discriminate|].
  unfold try_catch.
  match goal with |- match ?b with _ => _ end <> _ => destruct b; discriminate end.
Qed.

Lemma cyclic_chain_step fuel :
  resolve_chained_function (S fuel) (loaded cyclic_chain_image) 0x200
    cyclic_function =
  try_catch
    (resolve_chained_function fuel (loaded cyclic_chain_image) 0x200
       cyclic_function)
    (Ok cyclic_function).
Proof.
  rewrite resolve_chained_function_S.
  change (RuntimeFunction.unwind_info_address cyclic_function) with 0x1010.
  change (0x1010 =? 0) with false. cbv iota.
  assert (E1 : rva_to_offset (loaded cyclic_chain_image) 0x1010 = Ok 0x210)
    by (vm_compute; reflexivity).
  rewrite E1. cbn [bind].
  assert (E2 : read_struct UnwindInfo.layout
                 (buffer_ (loaded cyclic_chain_image)) 0x210 =
               Ok (UnwindInfo.mk 1 4 0 0 0 0 0x1100))
    by (vm_compute; reflexivity).
  rewrite E2. cbn [bind].
  change (UnwindInfo.flags (UnwindInfo.mk 1 4 0 0 0 0 0x1100)) with 4.
  change (UnwindInfo.count_of_codes (UnwindInfo.mk 1 4 0 0 0 0 0x1100)) with 0.
  change (negb (Z.land 4 4 =? 0)) with true.
  change (negb (Z.land 0 1 =? 0)) with false. cbv iota zeta.
  assert (E3 : read_struct RuntimeFunction.layout
                 (buffer_ (loaded cyclic_chain_image))
                 (0x210 + UnwindInfo.offsetof_unwind_code + 0 * UnwindCode.sizeof) =
               Ok cyclic_function)
    by (vm_compute; reflexivity).
  rewrite E3. reflexivity.
Qed.

Lemma cyclic_chain_never_returns fuel :
  resolve_chained_function fuel (loaded cyclic_chain_image) 0x200
    cyclic_function = OutOfFuel.
Proof.
  induction fuel as [|fuel IH]; [reflexivity|].
  rewrite cyclic_chain_step, IH. reflexivity.
Qed.

(** C2, the failing input.  [cyclic_chain_image] parses, and its exception
    directory holds one runtime function whose chained unwind info leads back
    to itself: however many calls are allowed, [resolve_chained_function] is
    still following the chain, and so [get_exception_directory] does not
    return; with the chain flag clear ([unchained_image]) the same query
    returns its one entry. *)
Theorem chain_resolution_cycle_never_returns :
  Parser_new cyclic_chain_image = Ok (loaded cyclic_chain_image) /\
  read_struct RuntimeFunction.layout (buffer_ (loaded cyclic_chain_image))
    0x200 = Ok cyclic_function /\
  (forall fuel,
     resolve_chained_function fuel (loaded cyclic_chain_image) 0x200
       cyclic_function = OutOfFuel) /\
  (forall fuel,
     get_exception_directory fuel (loaded cyclic_chain_image) = OutOfFuel) /\
  get_exception_directory 1 (loaded unchained_image) =
    Ok [(cyclic_function, Some (UnwindInfo.mk 1 0 0 0 0 0 0))].
Proof.
  split; [vm_compute; reflexivity|].
  split; [vm_compute; reflexivity|].
  split; [exact cyclic_chain_never_returns|].
  split; [|vm_compute; reflexivity].
  intros fuel. unfold get_exception_directory.
  change (DataDirectory.virtual_address
            (data_directory (loaded cyclic_chain_image) 3)) with 0x1000.
  change (0x1000 =? 0) with false. cbv iota.
  assert (E1 : rva_to_offset (loaded cyclic_chain_image) 0x1000 = Ok 0x200)
    by (vm_compute; reflexivity).
  rewrite E1. cbn [bind].
  change (DataDirectory.size (data_directory (loaded cyclic_chain_image) 3) /
          sizeof RuntimeFunction.layout) with 1.
  change (iota 1) with [0]. cbn [for_each].
  assert (E2 : read_struct RuntimeFunction.layout
                 (buffer_ (loaded cyclic_chain_image))
                 (0x200 + 0 * sizeof RuntimeFunction.layout) =
               Ok cyclic_function)
    by (vm_compute; reflexivity).
  rewrite E2. cbn [bind].
  rewrite cyclic_chain_never_returns. reflexivity.
Qed.

(** ** Raw-region copies (C9) *)

Lemma copy_range_Ok data start len bytes :
  copy_range data start len = Ok bytes ->
  bytes = slice data start len /\
  (0 < len -> start + len <= buffer_size data).
Proof.
  unfold copy_range.
  destruct (Z.gtb_spec len 0) as [Hl|Hl];
    destruct (Z.gtb_spec (start + len) (buffer_size data)) as [Hs|Hs];
    cbn [andb]; intros E; inversion E; split; (reflexivity || lia).
Qed.

Lemma copy_range_past_end data start len :
  0 < len -> start + len > buffer_size data ->
  copy_range data start len = ReadPastEnd.
Proof.
  unfold copy_range. intros Hlen H.
  destruct (Z.gtb_spec len 0); [|lia].
  destruct (Z.gtb_spec (start + len) (buffer_size data)); [reflexivity | lia].
Qed.

(** An empty range is copied wherever it starts. *)
Lemma copy_range_empty data start : copy_range data start 0 = Ok [].
Proof. reflexivity. Qed.

(** C9, the failing input.  [truncated_image] parses; its [.text] section ends
    at [0x200 + 0x1000] and its debug payload at [0x300 + 0x1000], both past
    the buffer size [0x400]; none of the four accessors throws: each forms the
    copy range beyond the end of the buffer. *)
Theorem raw_copies_read_past_end :
  Parser_new truncated_image = Ok (loaded truncated_image) /\
  buffer_size (buffer_ (loaded truncated_image)) = 0x400 /\
  get_section_data (loaded truncated_image) (Image.ascii_bytes ".text") =
    ReadPastEnd /\
  get_all_sections_data (loaded truncated_image) = ReadPastEnd /\
  get_executable_sections_data (loaded truncated_image) = ReadPastEnd /\
  get_debug_directory (loaded truncated_image) = ReadPastEnd.
Proof.
  repeat split; vm_compute; reflexivity.
Qed.

(** ** Symbol URL (C6) *)






Lemma is_separator_test c :
  existsb (Byte.eqb c) path_separators = true <-> is_separator c.
Proof.
  unfold is_separator. change path_separators with [x5c; x2f].
  cbn [existsb]. rewrite !orb_true_iff.
  split.
  - intros [H | [H | H]]; [left | right | discriminate H];
      apply Byte.byte_dec_bl; exact H.
  - intros [-> | ->]; [left | right; left]; reflexivity.
Qed.

Lemma is_separator_test_false c :
  existsb (Byte.eqb c) path_separators = false <-> ~ is_separator c.
Proof.
  rewrite <- is_separator_test.
  destruct (existsb (Byte.eqb c) path_separators); split; congruence.
Qed.

(** [find_last_of] on a string shorter than [npos]: either no character is a
    separator, or the result is the position of the last one. *)
Lemma find_last_of_spec s :
  Z.of_nat (length s) <= npos ->
  (find_last_of s path_separators = npos /\
   forall c, In c s -> ~ is_separator c) \/
  (exists pre c post,
     s = pre ++ c :: post /\
     find_last_of s path_separators = Z.of_nat (length pre) /\
     is_separator c /\
     forall d, In d post -> ~ is_separator d).
Proof.
  induction s as [|c r IH]; intros Hlen.
  - left. split; [reflexivity|]. intros c [].
  - cbn [length] in Hlen. cbn [find_last_of].
    destruct IH as [[Hn Hall] | (pre & c' & post & Hs & Hi & Hc & Hpost)];
      [lia | | ].
    + rewrite Hn. change (negb (npos =? npos)) with false. cbv iota.
      destruct (existsb (Byte.eqb c) path_separators) eqn:Hc.
      * right. exists [], c, r. repeat split; try assumption.
        apply is_separator_test. exact Hc.
      * left. split; [reflexivity|].
        intros d [<- | Hd]; [apply is_separator_test_false; exact Hc | auto].
    + rewrite Hi.
      assert (Hlt : Z.of_nat (length pre) < npos).
      { subst r. rewrite length_app in Hlen. cbn [length] in Hlen. lia. }
      destruct (Z.eqb_spec (Z.of_nat (length pre)) npos) as [Heq|_]; [lia|].
      cbn [negb]. right. exists (c :: pre), c', post.
      subst r. repeat split; try assumption.
      cbn [length]. lia.
Qed.

Lemma pdb_filename_of_basename path :
  Z.of_nat (length path) <= npos ->
  basename path (pdb_filename_of path).
Proof.
  intros Hlen. unfold pdb_filename_of, substr, basename.
  destruct (find_last_of_spec path Hlen)
    as [[Hn Hall] | (pre & c & post & Hs & Hi & Hc & Hpost)].
  - rewrite Hn. change (wrap64 (npos + 1)) with 0. cbn [Z.to_nat skipn].
    split; [exact Hall|]. exists []. split; [reflexivity | left; reflexivity].
  - rewrite Hi.
    assert (Hlt : Z.of_nat (length pre) < npos).
    { subst path. rewrite length_app in Hlen. cbn [length] in Hlen. lia. }
    unfold wrap64. rewrite Z.mod_small by (unfold npos in Hlt; lia).
    replace (Z.to_nat (Z.of_nat (length pre) + 1)) with (length (pre ++ [c]))
      by (rewrite length_app; cbn [length]; lia).
    subst path.
    replace (pre ++ c :: post) with ((pre ++ [c]) ++ post)
      by (rewrite <- app_assoc; reflexivity).
    rewrite skipn_app, skipn_all, Nat.sub_diag. cbn [skipn app].
    split; [exact Hpost|].
    exists (pre ++ [c]). split; [reflexivity|].
    right. exists pre, c. split; [reflexivity | exact Hc].
Qed.

Lemma slice_length data offset len :
  0 <= offset -> 0 <= len -> offset + len <= buffer_size data ->
  buffer_size (slice data offset len) = len.
Proof.
  unfold slice, buffer_size. intros Ho Hl Hs.
  rewrite length_firstn, length_skipn. lia.
Qed.

Lemma until_nul_length bs : (length (until_nul bs) <= length bs)%nat.
Proof.
  induction bs as [|b r IH]; simpl; [lia|].
  destruct (Byte.eqb b x00); simpl; lia.
Qed.

(** A payload [get_debug_directory] has copied is [size_of_data] bytes long,
    a [uint32_t]. *)
Lemma debug_entry_payload p offset i entry data :
  debug_entry p offset i = Ok (entry, Some data) ->
  buffer_size data = DebugDirectory.size_of_data entry /\
  DebugDirectory.size_of_data entry < 2 ^ 32.
Proof.
  unfold debug_entry. intros H. bind_inv H. bind_inv H.
  inversion H; subst; clear H.
  assert (Hf : 0 <= DebugDirectory.size_of_data entry < 2 ^ 32 /\
               0 <= DebugDirectory.pointer_to_raw_data entry).
  { destruct (read_struct_cases DebugDirectory.layout (buffer_ p)
                (offset + i * sizeof DebugDirectory.layout)) as [[_ R]|[_ R]];
      rewrite R in E; inversion E; subst entry; simpl.
    repeat split; try apply field_nonneg. apply (field_bound _ 16 4). lia. }
  destruct (Z.eqb_spec (DebugDirectory.pointer_to_raw_data entry) 0);
    [discriminate E0|].
  destruct (Z.eqb_spec (DebugDirectory.size_of_data entry) 0);
    [discriminate E0|].
  cbn [negb andb] in E0.
  bind_inv E0. inversion E0; subst.
  destruct (copy_range_Ok _ _ _ _ E1) as [-> Hb].
  split; [|lia]. apply slice_length; lia.
Qed.

Lemma get_debug_directory_payload p debug_data entry data :
  get_debug_directory p = Ok debug_data ->
  In (entry, Some data) debug_data ->
  buffer_size data < 2 ^ 32.
Proof.
  unfold get_debug_directory. intros H Hin.
  destruct (DataDirectory.virtual_address (data_directory p 6) =? 0).
  { inversion H; subst. destruct Hin. }
  bind_inv H.
  apply In_nth_error in Hin. destruct Hin as [n Hn].
  pose proof (for_each_Ok_length _ _ _ H) as Hlen.
  destruct (nth_error (iota (DataDirectory.size (data_directory p 6) /
                             sizeof DebugDirectory.layout)) n) as [i|] eqn:Hi.
  - destruct (for_each_Ok_nth _ _ _ H n i Hi) as (y & Hy & Hd).
    rewrite Hn in Hy. inversion Hy; subst y.
    apply debug_entry_payload in Hd. lia.
  - apply nth_error_None in Hi.
    assert (Hsome : nth_error debug_data n <> None) by (rewrite Hn; discriminate).
    apply nth_error_Some in Hsome. lia.
Qed.

Lemma existsb_nul tail :
  existsb (Byte.eqb x00) tail = true <-> In x00 tail.
Proof.
  rewrite existsb_exists. split.
  - intros (b & Hin & Hb). apply Byte.byte_dec_bl in Hb. subst b. exact Hin.
  - intros Hin. exists x00. split; [exact Hin | reflexivity].
Qed.

(** The iteration of [get_pdb_url] that meets a usable RSDS record returns
    the URL built from its fields. *)
Lemma pdb_url_of_usable_rsds entry data :
  usable_rsds (entry, Some data) ->
  pdb_url_of_record (entry, Some data) =
  Ok (Some (symbol_url (pdb_filename_of (cstring_at data 24))
              (guid_string (of_bytes CV_INFO_PDB70.layout (slice data 0 25)))
              (CV_INFO_PDB70.age
                 (of_bytes CV_INFO_PDB70.layout (slice data 0 25))))).
Proof.
  intros (d & Hd & Ht & Hs & Hsig & Hnul). simpl in Hd, Ht.
  inversion Hd; subst d. unfold pdb_url_of_record.
  rewrite Ht. change (negb (2 =? 2)) with false. cbv iota.
  destruct (Z.ltb_spec (buffer_size data) 4) as [Hlt|_]; [lia|].
  destruct (read_struct_cases uint32_t data 0) as [[_ R]|[Hgt _]];
    [|change (sizeof uint32_t) with 4 in Hgt; lia].
  rewrite R. cbn [bind].
  change (of_bytes uint32_t (slice data 0 (sizeof uint32_t)))
    with (field data 0 4).
  rewrite Hsig. change (0x53445352 =? 0x53445352) with true. cbv iota.
  change (sizeof CV_INFO_PDB70.layout) with 25.
  destruct (Z.ltb_spec (buffer_size data) 25) as [Hlt|_]; [lia|].
  destruct (read_struct_cases CV_INFO_PDB70.layout data 0) as [[_ R']|[Hgt _]];
    [|change (sizeof CV_INFO_PDB70.layout) with 25 in Hgt; lia].
  rewrite R'. cbn [bind].
  change (Z.to_nat (25 - 1)) with 24%nat.
  apply existsb_nul in Hnul. rewrite Hnul. reflexivity.
Qed.

(** A record that is not a usable CodeView record is passed over. *)
Lemma pdb_url_of_unusable record :
  ~ usable_codeview record -> pdb_url_of_record record = Ok None.
Proof.
  destruct record as [entry [data|]]; [|reflexivity].
  unfold usable_codeview, usable_rsds, usable_nb10. intros Hno.
  unfold pdb_url_of_record.
  destruct (Z.eqb_spec (DebugDirectory.type_ entry) 2) as [Ht|Ht];
    [|reflexivity].
  cbn [negb].
  destruct (Z.ltb_spec (buffer_size data) 4) as [Hlt|H4]; [reflexivity|].
  destruct (read_struct_cases uint32_t data 0) as [[_ R]|[Hgt _]];
    [|change (sizeof uint32_t) with 4 in Hgt; lia].
  rewrite R. cbn [bind].
  change (of_bytes uint32_t (slice data 0 (sizeof uint32_t)))
    with (field data 0 4).
  destruct (Z.eqb_spec (field data 0 4) 0x53445352) as [Hsig|Hsig].
  - change (sizeof CV_INFO_PDB70.layout) with 25.
    destruct (Z.ltb_spec (buffer_size data) 25) as [Hlt|H25]; [reflexivity|].
    destruct (read_struct_cases CV_INFO_PDB70.layout data 0) as [[_ R']|[Hgt _]];
      [|change (sizeof CV_INFO_PDB70.layout) with 25 in Hgt; lia].
    rewrite R'. cbn [bind]. change (Z.to_nat (25 - 1)) with 24%nat.
    destruct (existsb (Byte.eqb x00) (skipn 24 data)) eqn:Hn; [|reflexivity].
    exfalso. apply Hno. left. exists data. simpl.
    apply existsb_nul in Hn. repeat split; assumption.
  - destruct (Z.eqb_spec (field data 0 4) 0x3031424E) as [Hsig'|Hsig'];
      [|reflexivity].
    change (sizeof CV_INFO_PDB20.layout) with 17.
    destruct (Z.ltb_spec (buffer_size data) 17) as [Hlt|H17]; [reflexivity|].
    destruct (read_struct_cases CV_INFO_PDB20.layout data 0) as [[_ R']|[Hgt _]];
      [|change (sizeof CV_INFO_PDB20.layout) with 17 in Hgt; lia].
    rewrite R'. cbn [bind]. change (Z.to_nat (17 - 1)) with 16%nat.
    destruct (existsb (Byte.eqb x00) (skipn 16 data)) eqn:Hn; [|reflexivity].
    exfalso. apply Hno. right. exists data. simpl.
    apply existsb_nul in Hn. repeat split; assumption.
Qed.




(** ** Section views *)

Lemma copy_range_in_bounds data start len :
  start + len <= buffer_size data ->
  copy_range data start len = Ok (slice data start len).
Proof.
  unfold copy_range. intros H.
  destruct (Z.gtb_spec (start + len) (buffer_size data)); [lia|].
  rewrite andb_false_r. reflexivity.
Qed.

(** Within the buffer, [get_section_data] is the raw region of the first
    section whose name starts with the given name. *)
Lemma get_section_data_in_bounds p name l1 S l2 :
  section_headers (pe_info_ p) = l1 ++ S :: l2 ->
  (forall s, In s l1 -> starts_with (SectionHeader.name s) name = false) ->
  starts_with (SectionHeader.name S) name = true ->
  SectionHeader.pointer_to_raw_data S + SectionHeader.size_of_raw_data S <=
    buffer_size (buffer_ p) ->
  get_section_data p name =
    Ok (slice (buffer_ p) (SectionHeader.pointer_to_raw_data S)
          (SectionHeader.size_of_raw_data S)).
Proof.
  intros Hs Hl HS Hb. unfold get_section_data. rewrite Hs.
  rewrite find_first by assumption.
  apply copy_range_in_bounds. exact Hb.
Qed.

(** Scenario S3 on [minimal_image]. *)
Example scenario_S3 :
  rva_to_offset (loaded minimal_image) 0x1050 = Ok 0x450 /\
  get_text_section_data (loaded minimal_image) =
    Ok (slice minimal_image 0x400 0x200).
Proof. split; vm_compute; reflexivity. Qed.

(** ** The bounded walks

    Imports, TLS callbacks and debug records return or fail on every parser
    state, the relocation walk on every file below 4 GiB, and the exception
    walk whenever chain resolution does. *)

Lemma for_each_not_OutOfFuel {A B} (f : A -> outcome B) l :
  (forall x, f x <> OutOfFuel) -> for_each f l <> OutOfFuel.
Proof.
  intros Hf. induction l as [|x r IH]; cbn [for_each]; [discriminate|].
  apply bind_not_OutOfFuel; [apply Hf|]. intros y _.
  apply bind_not_OutOfFuel; [exact IH | discriminate].
Qed.

Lemma copy_range_not_OutOfFuel data start len :
  copy_range data start len <> OutOfFuel.
Proof. unfold copy_range. destruct (_ && _); discriminate. Qed.

Lemma get_debug_directory_returns p : get_debug_directory p <> OutOfFuel.
Proof.
  unfold get_debug_directory.
  destruct (DataDirectory.virtual_address (data_directory p 6) =? 0);
    [discriminate|].
  apply bind_not_OutOfFuel; [apply rva_to_offset_not_OutOfFuel|].
  intros offset _. apply for_each_not_OutOfFuel. intros i.
  unfold debug_entry.
  apply bind_not_OutOfFuel; [apply (proj2 (read_struct_not_past_end _ _ _))|].
  intros entry _.
  apply bind_not_OutOfFuel; [|discriminate].
  destruct (_ && _); [|discriminate].
  apply bind_not_OutOfFuel; [apply copy_range_not_OutOfFuel | discriminate].
Qed.

(** The exception walk itself is bounded by its entry count: it returns or
    fails whenever every chain it follows comes to an end. *)
Lemma get_exception_directory_returns fuel p :
  (forall base_offset func,
     resolve_chained_function fuel p base_offset func <> OutOfFuel) ->
  get_exception_directory fuel p <> OutOfFuel.
Proof.
  intros Hchain. unfold get_exception_directory.
  destruct (DataDirectory.virtual_address (data_directory p 3) =? 0);
    [discriminate|].
  apply bind_not_OutOfFuel; [apply rva_to_offset_not_OutOfFuel|].
  intros offset _. apply for_each_not_OutOfFuel. intros i.
  apply bind_not_OutOfFuel; [apply (proj2 (read_struct_not_past_end _ _ _))|].
  intros func _.
  apply bind_not_OutOfFuel; [apply Hchain|].
  intros resolved _.
  apply bind_not_OutOfFuel; [|discriminate].
  destruct (negb (RuntimeFunction.unwind_info_address resolved =? 0));
    [|discriminate].
  unfold try_catch.
  destruct (rva_to_offset p (RuntimeFunction.unwind_info_address resolved))
    eqn:Hm; cbn [bind]; try discriminate.
  - destruct (read_struct UnwindInfo.layout (buffer_ p) a) eqn:R;
      cbn [bind]; try discriminate.
    exfalso. exact (proj2 (read_struct_not_past_end _ _ _) R).
  - exfalso. eapply rva_to_offset_not_OutOfFuel. exact Hm.
Qed.

Lemma relocation_blocks_S fuel p offset dir_size current_offset :
  relocation_blocks (S fuel) p offset dir_size current_offset =
  if current_offset <? offset + dir_size then
    block <- read_struct BaseRelocationBlock.layout (buffer_ p) current_offset ;;
    let entry_count :=
      wrap32 (BaseRelocationBlock.size_of_block block - 8) / 2 in
    entries <- for_each
      (fun i =>
         entry <- read_struct BaseRelocationEntry.layout (buffer_ p)
                    (current_offset + 8 + i * 2) ;;
         Ok (RelocationEntry.mk
               (wrap16 (Z.land (Z.shiftr (BaseRelocationEntry.offset entry) 12)
                               0xF))
               (wrap16 (Z.land (BaseRelocationEntry.offset entry) 0xFFF))))
      (iota entry_count) ;;
    rest <- relocation_blocks fuel p offset dir_size
              (current_offset + BaseRelocationBlock.size_of_block block) ;;
    Ok ((BaseRelocationBlock.virtual_address block, entries) :: rest)
  else Ok [].
Proof. reflexivity. Qed.

(** A block shorter than its own header claims about [2^31] entries; in a
    file below 4 GiB their reads cannot all succeed. *)
Lemma relocation_entries_of_short_block p current_offset size_of_block entries :
  0 <= current_offset ->
  0 <= size_of_block < 8 ->
  buffer_size (buffer_ p) < 2 ^ 32 - 2 ->
  for_each
    (fun i =>
       entry <- read_struct BaseRelocationEntry.layout (buffer_ p)
                  (current_offset + 8 + i * 2) ;;
       Ok (RelocationEntry.mk
             (wrap16 (Z.land (Z.shiftr (BaseRelocationEntry.offset entry) 12)
                             0xF))
             (wrap16 (Z.land (BaseRelocationEntry.offset entry) 0xFFF))))
    (iota (wrap32 (size_of_block - 8) / 2)) = Ok entries ->
  False.
Proof.
  intros Hcur Hs Hsize H.
  assert (Hn : 2 ^ 31 - 4 <= wrap32 (size_of_block - 8) / 2).
  { unfold wrap32. change (2 ^ 32) with 4294967296.
    change (2 ^ 31) with 2147483648. Z.div_mod_to_equations. lia. }
  set (n := wrap32 (size_of_block - 8) / 2) in *.
  assert (Hi : 0 <= n - 1 < n) by (change (2 ^ 31) with 2147483648 in Hn; lia).
  destruct (for_each_Ok_nth _ _ _ H (Z.to_nat (n - 1)) (n - 1)
              (iota_nth_error _ _ Hi)) as (y & _ & Hy).
  bind_inv Hy. apply read_struct_Ok_bound in E.
  change (sizeof BaseRelocationEntry.layout) with 2 in E.
  change (2 ^ 31) with 2147483648 in Hn.
  change (2 ^ 32) with 4294967296 in Hsize. lia.
Qed.

(** On a file below 4 GiB the relocation walk returns or fails: every block
    it accepts advances it by at least the eight bytes of a block header. *)
Lemma get_relocation_directory_returns p :
  buffer_size (buffer_ p) < 2 ^ 32 - 2 ->
  get_relocation_directory (walk_fuel p) p <> OutOfFuel.
Proof.
  intros Hsize.
  assert (G : forall fuel offset dir_size cur,
             0 <= cur ->
             buffer_size (buffer_ p) < cur + 8 + 8 * Z.of_nat fuel ->
             relocation_blocks (S fuel) p offset dir_size cur <> OutOfFuel).
  { induction fuel as [|fuel IH]; intros offset dir_size cur Hcur Hs;
      rewrite relocation_blocks_S;
      (destruct (cur <? offset + dir_size); [|discriminate]);
      case_read R; try discriminate;
      pose proof (read_struct_Ok_bound _ _ _ _ R) as Hb;
      change (sizeof BaseRelocationBlock.layout) with 8 in Hb; [lia|].
    cbn [bind]. cbv zeta.
    match goal with
    | |- bind (for_each ?f ?l) _ <> _ => destruct (for_each f l) eqn:Hfe
    end; cbn [bind]; try discriminate.
    - assert (Hblock : 0 <= BaseRelocationBlock.size_of_block v).
      { destruct (read_struct_cases BaseRelocationBlock.layout (buffer_ p) cur)
          as [[_ R']|[_ R']]; rewrite R' in R; inversion R; subst v.
        apply field_nonneg. }
      destruct (Z.lt_ge_cases (BaseRelocationBlock.size_of_block v) 8)
        as [Hshort|Hlong].
      + exfalso.
        eapply (relocation_entries_of_short_block p cur
                  (BaseRelocationBlock.size_of_block v)); eauto.
      + apply bind_not_OutOfFuel; [|discriminate].
        apply IH; lia.
    - exfalso. revert Hfe. apply for_each_not_OutOfFuel. intros i.
      apply bind_not_OutOfFuel;
        [apply (proj2 (read_struct_not_past_end _ _ _)) | discriminate]. }
  unfold get_relocation_directory.
  destruct (DataDirectory.virtual_address (data_directory p 5) =? 0);
    [discriminate|].
  apply bind_not_OutOfFuel; [apply rva_to_offset_not_OutOfFuel|].
  intros offset Ho. apply rva_to_offset_range in Ho.
  unfold walk_fuel. apply G; [lia|]. unfold buffer_size. lia.
Qed.

(** * Further properties *)

(** ** The header parser *)

Lemma bind_not_ReadPastEnd {A B} (m : outcome A) (k : A -> outcome B) :
  m <> ReadPastEnd -> (forall a, m = Ok a -> k a <> ReadPastEnd) ->
  bind m k <> ReadPastEnd.
Proof.
  intros Hm Hk. destruct m; cbn [bind]; try discriminate; auto.
Qed.

Lemma for_each_not_ReadPastEnd {A B} (f : A -> outcome B) l :
  (forall x, f x <> ReadPastEnd) -> for_each f l <> ReadPastEnd.
Proof.
  intros Hf. induction l as [|x r IH]; cbn [for_each]; [discriminate|].
  apply bind_not_ReadPastEnd; [apply Hf|]. intros y _.
  apply bind_not_ReadPastEnd; [exact IH | discriminate].
Qed.

Lemma parse_not_ReadPastEnd buffer : parse buffer <> ReadPastEnd.
Proof.
  unfold parse.
  repeat (apply bind_not_ReadPastEnd;
          [first [apply (proj1 (read_struct_not_past_end _ _ _))
                 | apply for_each_not_ReadPastEnd; intros;
                   apply (proj1 (read_struct_not_past_end _ _ _))]
          | intros ? _];
          try match goal with
              | |- (if negb ?c then _ else _) <> _ =>
                  destruct c; cbn [negb]; [|discriminate]
              end).
  discriminate.
Qed.

Lemma parse_not_OutOfFuel buffer : parse buffer <> OutOfFuel.
Proof.
  unfold parse.
  repeat (apply bind_not_OutOfFuel;
          [first [apply (proj2 (read_struct_not_past_end _ _ _))
                 | apply for_each_not_OutOfFuel; intros;
                   apply (proj2 (read_struct_not_past_end _ _ _))]
          | intros ? _];
          try match goal with
              | |- (if negb ?c then _ else _) <> _ =>
                  destruct c; cbn [negb]; [|discriminate]
              end).
  discriminate.
Qed.

(** X1.  [parse] never forms an address outside the buffer: every read goes
    through [read_struct].  It succeeds or throws one of the four format
    errors or [BufferOverflow]. *)
Theorem parse_outcomes (buffer : list byte) :
  match parse buffer with
  | Ok _ => True
  | Throw e =>
      In e [NotPE; BadNtSignature; UnsupportedMachine;
            UnsupportedOptionalMagic; BufferOverflow]
  | ReadPastEnd => False
  | OutOfFuel => False
  end.
Proof.
  destruct (parse buffer) as [info|e| |] eqn:H; [exact I | | | ].
  - unfold parse in H. walk_parse H; inversion H; subst; simpl; tauto.
  - exact (parse_not_ReadPastEnd buffer H).
  - exact (parse_not_OutOfFuel buffer H).
Qed.

(** X2.  An accepted buffer holds all of its headers: the DOS header, the NT
    signature, file header and optional header at [e_lfanew], and one section
    header per counted section, each inside the buffer.  The cached section
    table has exactly [number_of_sections] entries, read in order, and the
    cached directory table has sixteen. *)
Theorem parse_accepts_complete_headers (buffer : list byte) info :
  parse buffer = Ok info ->
  let pe_offset := DosHeader.e_lfanew (dos_header info) in
  let section_offset :=
    pe_offset + 24 +
    FileHeader.size_of_optional_header (file_header info) in
  64 <= buffer_size buffer /\
  pe_offset + 264 <= buffer_size buffer /\
  length (data_directories info) = 16%nat /\
  length (section_headers info) =
    Z.to_nat (FileHeader.number_of_sections (file_header info)) /\
  forall i, 0 <= i < FileHeader.number_of_sections (file_header info) ->
    section_offset + 40 * i + 40 <= buffer_size buffer /\
    nth_error (section_headers info) (Z.to_nat i) =
      Some (of_bytes SectionHeader.layout
              (slice buffer (section_offset + 40 * i) 40)).
Proof.
  intros H. cbv zeta.
  pose proof (parse_data_directories _ _ H) as [Hdirs _].
  apply parse_Ok in H.
  destruct H as (Hd & _ & _ & _ & _ & Ho & _ & _ & Hs).
  apply read_struct_Ok_bound in Hd. apply read_struct_Ok_bound in Ho.
  change (sizeof DosHeader.layout) with 64 in Hd.
  change (sizeof OptionalHeader.layout) with 240 in Ho.
  split; [lia|]. split; [lia|]. split; [exact Hdirs|].
  split.
  - apply for_each_Ok_length in Hs. rewrite Hs. apply iota_length.
  - intros i Hi.
    destruct (for_each_Ok_nth _ _ _ Hs (Z.to_nat i) i (iota_nth_error _ _ Hi))
      as (s & Hn & Hr).
    destruct (read_struct_cases SectionHeader.layout buffer
                (DosHeader.e_lfanew (dos_header info) + 4 + 20 +
                 FileHeader.size_of_optional_header (file_header info) +
                 i * 40)) as [[Hle R]|[_ R]];
      rewrite R in Hr; [|discriminate Hr].
    change (sizeof SectionHeader.layout) with 40 in *.
    inversion Hr; subst s. split; [lia|].
    rewrite Hn.
    replace (DosHeader.e_lfanew (dos_header info) + 24 +
             FileHeader.size_of_optional_header (file_header info) + 40 * i)
      with (DosHeader.e_lfanew (dos_header info) + 4 + 20 +
            FileHeader.size_of_optional_header (file_header info) + i * 40)
      by lia.
    reflexivity.
Qed.

(** Scenario S3 through the theorem: the one section header of
    [minimal_image] lies inside the buffer. *)
Lemma parse_accepts_complete_headers_witness :
  length (section_headers (pe_info_ (loaded minimal_image))) = 1%nat /\
  64 + 24 + 240 + 40 * 0 + 40 <= buffer_size minimal_image.
Proof.
  assert (H : parse minimal_image = Ok (pe_info_ (loaded minimal_image)))
    by (vm_compute; reflexivity).
  destruct (parse_accepts_complete_headers minimal_image _ H)
    as (_ & _ & _ & Hlen & Hsec).
  split.
  - rewrite Hlen. vm_compute. reflexivity.
  - apply (Hsec 0). vm_compute. split; [intros E; discriminate E | reflexivity].
Defined.

(** ** Section views *)

Lemma starts_with_has_prefix s prefix :
  starts_with s prefix = true <-> has_prefix s prefix.
Proof.
  unfold has_prefix. revert s.
  induction prefix as [|c prefix IH]; intros s.
  - split; [intros _; exists s; reflexivity | destruct s; reflexivity].
  - destruct s as [|d s]; cbn [starts_with].
    + split; [discriminate | intros [rest H]; discriminate H].
    + rewrite andb_true_iff, IH. split.
      * intros [Hc [rest Hr]]. apply Byte.byte_dec_bl in Hc. subst.
        exists rest. reflexivity.
      * intros [rest Hr]. inversion Hr; subst.
        split; [apply Byte.byte_dec_lb; reflexivity | exists rest; reflexivity].
Qed.

Lemma starts_with_not_prefix s prefix :
  starts_with s prefix = false <-> ~ has_prefix s prefix.
Proof.
  rewrite <- starts_with_has_prefix.
  destruct (starts_with s prefix); split; congruence.
Qed.

Lemma copy_range_cases data start len :
  copy_range data start len = Ok (slice data start len) \/
  copy_range data start len = ReadPastEnd.
Proof. unfold copy_range. destruct (_ && _); auto. Qed.

(** X3.  [get_section_data] fails with [SectionNotFound] exactly when no section
    header's 8-byte name slot starts with the requested name. *)
Theorem get_section_data_not_found (p : Parser) (section_name : list byte) :
  get_section_data p section_name = Throw SectionNotFound <->
  forall s, In s (section_headers (pe_info_ p)) ->
            ~ has_prefix (SectionHeader.name s) section_name.
Proof.
  unfold get_section_data.
  destruct (find _ (section_headers (pe_info_ p))) as [s|] eqn:Hf.
  - split.
    + intros H. exfalso.
      destruct (copy_range_cases (buffer_ p)
                  (SectionHeader.pointer_to_raw_data s)
                  (SectionHeader.size_of_raw_data s)) as [R|R];
        rewrite R in H; discriminate H.
    + intros Hall. exfalso. apply find_some in Hf. destruct Hf as [Hin Hs].
      apply starts_with_has_prefix in Hs. exact (Hall s Hin Hs).
  - split; [|reflexivity]. intros _ s Hin.
    apply starts_with_not_prefix. exact (find_none _ _ Hf s Hin).
Qed.

(** [.text] is found in [two_section_image], [.rsrc] is not. *)
Lemma get_section_data_not_found_witness :
  get_section_data (loaded two_section_image) (Image.ascii_bytes ".rsrc") =
    Throw SectionNotFound /\
  get_section_data (loaded two_section_image) (Image.ascii_bytes ".text") <>
    Throw SectionNotFound.
Proof.
  split.
  - apply (proj2 (get_section_data_not_found (loaded two_section_image)
                    (Image.ascii_bytes ".rsrc"))).
    intros s Hin. apply starts_with_not_prefix.
    vm_compute in Hin. destruct Hin as [<- | [<- | []]]; vm_compute; reflexivity.
  - intros H.
    apply (proj1 (get_section_data_not_found (loaded two_section_image)
                    (Image.ascii_bytes ".text")) H two_section_text).
    + vm_compute. left. reflexivity.
    + apply starts_with_has_prefix. vm_compute. reflexivity.
Defined.

Lemma for_each_Ok_In {A B} (f : A -> outcome B) l ys y :
  for_each f l = Ok ys -> In y ys -> exists x, In x l /\ f x = Ok y.
Proof.
  revert ys. induction l as [|x0 r IH]; cbn [for_each]; intros ys H Hin.
  - inversion H; subst. destruct Hin.
  - bind_inv H. bind_inv H. inversion H; subst.
    destruct Hin as [<- | Hin].
    + exists x0. split; [left; reflexivity | assumption].
    + destruct (IH _ E0 Hin) as (x & Hx & Hf).
      exists x. split; [right; assumption | assumption].
Qed.

(** The name slot of a parsed section header holds at most eight bytes. *)
Lemma parsed_section_name_length p s :
  parsed p -> In s (section_headers (pe_info_ p)) ->
  (length (SectionHeader.name s) <= 8)%nat.
Proof.
  intros Hp Hin. apply parse_Ok in Hp.
  destruct Hp as (_ & _ & _ & _ & _ & _ & _ & _ & Hs).
  destruct (for_each_Ok_In _ _ _ _ Hs Hin) as (i & _ & Hr).
  match type of Hr with
  | read_struct ?t ?d ?o = _ =>
      destruct (read_struct_cases t d o) as [[_ R]|[_ R]]
  end; rewrite R in Hr; inversion Hr; subst s.
  cbn [of_bytes SectionHeader.layout SectionHeader.name].
  apply (slice_length_le _ 0 8).
Qed.

Lemma starts_with_length s prefix :
  starts_with s prefix = true -> (length prefix <= length s)%nat.
Proof.
  intros H. apply starts_with_has_prefix in H. destruct H as [rest ->].
  rewrite length_app. lia.
Qed.

(** X4.  Matching is by prefix over the 8-byte name slot: on a parsed image a
    requested name longer than eight bytes matches no section, and the empty
    name selects the first section. *)
Theorem get_section_data_name_length (p : Parser) (section_name : list byte) :
  parsed p ->
  ((8 < length section_name)%nat ->
   get_section_data p section_name = Throw SectionNotFound) /\
  (forall first rest,
     section_headers (pe_info_ p) = first :: rest ->
     get_section_data p [] =
       copy_range (buffer_ p) (SectionHeader.pointer_to_raw_data first)
         (SectionHeader.size_of_raw_data first)).
Proof.
  intros Hp. split.
  - intros Hlen. unfold get_section_data.
    destruct (find _ (section_headers (pe_info_ p))) as [s|] eqn:Hf;
      [|reflexivity].
    exfalso. apply find_some in Hf. destruct Hf as [Hin Hs].
    apply starts_with_length in Hs.
    pose proof (parsed_section_name_length p s Hp Hin). lia.
  - intros first rest Hsec. unfold get_section_data. rewrite Hsec.
    cbn [find]. destruct (SectionHeader.name first); reflexivity.
Qed.

(** On [two_section_image] the nine-byte name [.textual1] is not found, and the
    empty name yields the [0x100] bytes of [.text]. *)
Lemma get_section_data_name_length_witness :
  get_section_data (loaded two_section_image) (Image.ascii_bytes ".textual1") =
    Throw SectionNotFound /\
  get_section_data (loaded two_section_image) [] = Ok (repeat x90 0x100).
Proof.
  assert (Hp : parsed (loaded two_section_image)) by (vm_compute; reflexivity).
  destruct (get_section_data_name_length (loaded two_section_image)
              (Image.ascii_bytes ".textual1") Hp) as [H1 _].
  destruct (get_section_data_name_length (loaded two_section_image) [] Hp)
    as [_ H2].
  split.
  - apply H1. vm_compute. lia.
  - rewrite (H2 two_section_text [two_section_data]);
      vm_compute; reflexivity.
Defined.

Lemma until_nul_no_nul bs : ~ In x00 (until_nul bs).
Proof. exact (proj1 (until_nul_spec bs)). Qed.

Lemma section_view_Ok p e s v :
  section_view p e s = Ok v ->
  (0 < SectionHeader.size_of_raw_data s ->
   SectionHeader.pointer_to_raw_data s + SectionHeader.size_of_raw_data s <=
     buffer_size (buffer_ p)) /\
  v = SectionData.mk (until_nul (SectionHeader.name s))
        (slice (buffer_ p) (SectionHeader.pointer_to_raw_data s)
           (SectionHeader.size_of_raw_data s))
        (wrap64 (get_image_base p + SectionHeader.virtual_address s))
        (e s).
Proof.
  unfold section_view. intros H. bind_inv H. inversion H; subst.
  destruct (copy_range_Ok _ _ _ _ E) as [-> Hb]. split; [exact Hb|].
  reflexivity.
Qed.

(** X5.  A successful [get_all_sections_data] returns one view per section
    header, in table order.  The view's name is the name slot cut at its
    first NUL, its bytes are the section's raw region, which lies inside the
    buffer unless it is empty (an empty region gives an empty view wherever
    its file pointer lies), its address is the effective image base plus the
    section RVA, and it is flagged executable iff the section has
    [IMAGE_SCN_MEM_EXECUTE]. *)
Theorem get_all_sections_data_views (p : Parser) views :
  get_all_sections_data p = Ok views ->
  length views = length (section_headers (pe_info_ p)) /\
  forall i s,
    nth_error (section_headers (pe_info_ p)) i = Some s ->
    exists v,
      nth_error views i = Some v /\
      SectionData.name v = until_nul (SectionHeader.name s) /\
      ~ In x00 (SectionData.name v) /\
      (0 < SectionHeader.size_of_raw_data s ->
       SectionHeader.pointer_to_raw_data s + SectionHeader.size_of_raw_data s <=
         buffer_size (buffer_ p)) /\
      (SectionHeader.size_of_raw_data s = 0 -> SectionData.data v = []) /\
      SectionData.data v =
        slice (buffer_ p) (SectionHeader.pointer_to_raw_data s)
          (SectionHeader.size_of_raw_data s) /\
      SectionData.virtual_address v =
        wrap64 (get_image_base p + SectionHeader.virtual_address s) /\
      (SectionData.executable v = true <->
       Z.land (SectionHeader.characteristics s) 0x20000000 <> 0).
Proof.
  unfold get_all_sections_data. intros H. split.
  - exact (for_each_Ok_length _ _ _ H).
  - intros i s Hi.
    destruct (for_each_Ok_nth _ _ _ H i s Hi) as (v & Hv & Hs).
    apply section_view_Ok in Hs. destruct Hs as [Hb ->].
    exists (SectionData.mk (until_nul (SectionHeader.name s))
              (slice (buffer_ p) (SectionHeader.pointer_to_raw_data s)
                 (SectionHeader.size_of_raw_data s))
              (wrap64 (get_image_base p + SectionHeader.virtual_address s))
              (is_executable s)).
    cbn [SectionData.name SectionData.data SectionData.virtual_address
         SectionData.executable].
    repeat (split; [first [assumption | reflexivity | apply until_nul_no_nul
                           | intros ->; reflexivity]|]).
    unfold is_executable, scn_mem_execute.
    destruct (Z.eqb_spec (Z.land (SectionHeader.characteristics s) 0x20000000) 0)
      as [E|E]; cbn [negb]; split; congruence.
Qed.

(** [empty_section_image] through the theorem: two views are returned; the
    [.text] region lies inside the buffer, and the empty [.bss] region, whose
    file pointer [0x10000] lies behind the end of the file, gives an empty
    view. *)
Lemma get_all_sections_data_views_witness :
  get_all_sections_data (loaded empty_section_image) = Ok empty_section_views /\
  length empty_section_views = 2%nat /\
  0x200 + 0x100 <= buffer_size (buffer_ (loaded empty_section_image)) /\
  exists v,
    nth_error empty_section_views 1 = Some v /\ SectionData.data v = [].
Proof.
  assert (H : get_all_sections_data (loaded empty_section_image) =
              Ok empty_section_views)
    by (vm_compute; reflexivity).
  destruct (get_all_sections_data_views _ _ H) as [Hlen Hall].
  split; [exact H|]. split; [rewrite Hlen; vm_compute; reflexivity|].
  split.
  - destruct (Hall 0%nat empty_section_text) as (v & _ & _ & _ & Hb & _);
      [vm_compute; reflexivity|].
    apply Hb. vm_compute. reflexivity.
  - destruct (Hall 1%nat empty_section_bss) as (v & Hv & _ & _ & _ & He & _);
      [vm_compute; reflexivity|].
    exists v. split; [exact Hv|]. apply He. reflexivity.
Defined.

Lemma section_view_flag p e e' s :
  e s = e' s -> section_view p e s = section_view p e' s.
Proof. unfold section_view. intros ->. reflexivity. Qed.

(** X6.  Whenever [get_all_sections_data] succeeds, so does
    [get_executable_sections_data], and it returns exactly the views flagged
    executable, in the same order. *)
Theorem executable_sections_are_filtered_views (p : Parser) views :
  get_all_sections_data p = Ok views ->
  get_executable_sections_data p =
    Ok (filter SectionData.executable views).
Proof.
  unfold get_all_sections_data, get_executable_sections_data.
  revert views.
  induction (section_headers (pe_info_ p)) as [|s r IH]; intros views H.
  - inversion H; subst. reflexivity.
  - cbn [for_each] in H. bind_inv H. bind_inv H. inversion H; subst views.
    pose proof (section_view_Ok _ _ _ _ E) as [_ Hv].
    cbn [filter].
    assert (Hflag : SectionData.executable v = is_executable s)
      by (rewrite Hv; reflexivity).
    rewrite Hflag.
    destruct (is_executable s) eqn:Hx.
    + cbn [for_each].
      rewrite (section_view_flag p (fun _ => true) is_executable s)
        by (rewrite Hx; reflexivity).
      rewrite E. cbn [bind]. rewrite (IH _ E0). reflexivity.
    + apply IH. exact E0.
Qed.

(** [two_section_image] through the theorem: only [.text] is executable. *)
Lemma executable_sections_are_filtered_views_witness :
  get_executable_sections_data (loaded two_section_image) =
  Ok [ SectionData.mk (Image.ascii_bytes ".text") (repeat x90 0x100)
         0x140001000 true ].
Proof.
  rewrite (executable_sections_are_filtered_views (loaded two_section_image)
             [ SectionData.mk (Image.ascii_bytes ".text") (repeat x90 0x100)
                 0x140001000 true;
               SectionData.mk (Image.ascii_bytes ".data") (repeat xcc 0x100)
                 0x140001100 false ]).
  - reflexivity.
  - vm_compute. reflexivity.
Defined.

(** ** Section lookup by address *)

Lemma in_raw_extent_test p s address :
  (address >=? wrap64 (get_image_base p + SectionHeader.virtual_address s)) &&
  (address <=? wrap64 (SectionHeader.size_of_raw_data s +
                       wrap64 (get_image_base p +
                               SectionHeader.virtual_address s))) = true <->
  in_raw_extent p s address.
Proof.
  unfold in_raw_extent. rewrite andb_true_iff, Z.geb_le, Z.leb_le. tauto.
Qed.

(** X7.  [section_name_for_address] returns the name (cut at its first NUL) of the
    first section, in table order, whose raw extent
    [image base + virtual_address, + size_of_raw_data] contains the address,
    both ends included, and the empty string when no extent contains it. *)
Theorem section_name_for_address_first_extent (p : Parser) (address : Z) :
  (forall l1 S l2,
     section_headers (pe_info_ p) = l1 ++ S :: l2 ->
     (forall s, In s l1 -> ~ in_raw_extent p s address) ->
     in_raw_extent p S address ->
     section_name_for_address p address = until_nul (SectionHeader.name S)) /\
  ((forall s, In s (section_headers (pe_info_ p)) ->
              ~ in_raw_extent p s address) ->
   section_name_for_address p address = []).
Proof.
  unfold section_name_for_address. split.
  - intros l1 S l2 -> Hl1 HS.
    induction l1 as [|s l1 IH]; cbn [app section_name_in].
    + apply in_raw_extent_test in HS. rewrite HS. reflexivity.
    + destruct (_ && _) eqn:Ht.
      * exfalso. apply in_raw_extent_test in Ht.
        exact (Hl1 s (or_introl eq_refl) Ht).
      * apply IH. intros s' Hs'. apply Hl1. right. exact Hs'.
  - induction (section_headers (pe_info_ p)) as [|s r IH]; intros Hall;
      cbn [section_name_in]; [reflexivity|].
    destruct (_ && _) eqn:Ht.
    + exfalso. apply in_raw_extent_test in Ht.
      exact (Hall s (or_introl eq_refl) Ht).
    + apply IH. intros s' Hs'. apply Hall. right. exact Hs'.
Qed.

(** On [two_section_image] the address [0x140001100], one past the last raw
    byte of [.text] and the first byte of [.data], is attributed to [.text];
    an address below the image base has no section. *)
Lemma section_name_for_address_first_extent_witness :
  section_name_for_address (loaded two_section_image) 0x140001100 =
    Image.ascii_bytes ".text" /\
  section_name_for_address (loaded two_section_image) 0x1000 = [].
Proof.
  split.
  - destruct (section_name_for_address_first_extent
                (loaded two_section_image) 0x140001100) as [H _].
    rewrite (H [] two_section_text [two_section_data]).
    + vm_compute. reflexivity.
    + vm_compute. reflexivity.
    + intros s [].
    + unfold in_raw_extent. vm_compute.
      split; intros E; discriminate E.
  - destruct (section_name_for_address_first_extent
                (loaded two_section_image) 0x1000) as [_ H].
    apply H. intros s Hin. vm_compute in Hin.
    destruct Hin as [<- | [<- | []]]; unfold in_raw_extent; vm_compute;
      intros [H1 _]; apply H1; reflexivity.
Defined.

(** ** What the overrides reach *)

(** X8.  Without an entry-point override, a base-address override moves
    [get_image_base] but leaves [get_entry_point] at the on-disk image base
    plus the on-disk entry-point RVA; with both overrides non-zero the entry
    point is their sum. *)
Theorem entry_point_under_base_override (p : Parser) (b : Z) :
  b <> 0 ->
  get_image_base (override_base_address p b) = b /\
  (override_entry_point_ p = 0 ->
   get_entry_point (override_base_address p b) =
     wrap64 (OptionalHeader.image_base (optional_header (pe_info_ p)) +
             OptionalHeader.address_of_entry_point
               (optional_header (pe_info_ p)))) /\
  (override_entry_point_ p <> 0 ->
   get_entry_point (override_base_address p b) =
     wrap64 (b + override_entry_point_ p)).
Proof.
  intros Hb.
  assert (Hbase : get_image_base (override_base_address p b) = b).
  { unfold get_image_base, override_base_address. cbn.
    destruct (Z.eqb_spec b 0); [contradiction | reflexivity]. }
  split; [exact Hbase|]. split.
  - intros He. unfold get_entry_point.
    change (override_entry_point_ (override_base_address p b))
      with (override_entry_point_ p).
    rewrite He. reflexivity.
  - intros He. unfold get_entry_point.
    change (override_entry_point_ (override_base_address p b))
      with (override_entry_point_ p).
    destruct (Z.eqb_spec (override_entry_point_ p) 0); [contradiction|].
    cbn [negb]. rewrite Hbase. reflexivity.
Qed.

(** On [minimal_image], rebased to [0x7FF000000000], the entry point is still
    [0x140001000]; with the entry-point override [0x2000] on top it is
    [0x7FF000002000]. *)
Lemma entry_point_under_base_override_witness :
  get_entry_point (override_base_address (loaded minimal_image) 0x7FF000000000) =
    0x140001000 /\
  get_entry_point
    (override_base_address (override_entry_point (loaded minimal_image) 0x2000)
       0x7FF000000000) = 0x7FF000002000.
Proof.
  split.
  - destruct (entry_point_under_base_override (loaded minimal_image)
                0x7FF000000000) as (_ & H & _); [intros E; discriminate E|].
    rewrite H; vm_compute; reflexivity.
  - destruct (entry_point_under_base_override
                (override_entry_point (loaded minimal_image) 0x2000)
                0x7FF000000000) as (_ & _ & H); [intros E; discriminate E|].
    rewrite H; [vm_compute; reflexivity | vm_compute; intros E; discriminate E].
Defined.

Lemma bind_ext {A B} (m : outcome A) (k k' : A -> outcome B) :
  (forall a, k a = k' a) -> bind m k = bind m k'.
Proof. intros H. destruct m; cbn [bind]; auto. Qed.

Lemma for_each_ext {A B} (f g : A -> outcome B) l :
  (forall x, f x = g x) -> for_each f l = for_each g l.
Proof.
  intros H. induction l as [|x r IH]; cbn [for_each]; [reflexivity|].
  rewrite H, IH. reflexivity.
Qed.

Section SameImage.

Variables p q : Parser.
Hypothesis Hsame : same_image p q.

Lemma same_image_buffer : buffer_ p = buffer_ q.
Proof. exact (proj1 Hsame). Qed.

Lemma same_image_info : pe_info_ p = pe_info_ q.
Proof. exact (proj2 Hsame). Qed.

Lemma same_image_walk_fuel : walk_fuel p = walk_fuel q.
Proof. unfold walk_fuel. rewrite same_image_buffer. reflexivity. Qed.

Lemma same_image_data_directory i : data_directory p i = data_directory q i.
Proof. unfold data_directory. rewrite same_image_info. reflexivity. Qed.

Lemma same_image_rva_to_offset rva : rva_to_offset p rva = rva_to_offset q rva.
Proof. unfold rva_to_offset. rewrite same_image_info. reflexivity. Qed.

Lemma same_image_get_section_data name :
  get_section_data p name = get_section_data q name.
Proof.
  unfold get_section_data.
  rewrite same_image_info, same_image_buffer. reflexivity.
Qed.

Lemma same_image_import_entry iat index data :
  import_entry p iat index data = import_entry q iat index data.
Proof.
  unfold import_entry.
  rewrite same_image_rva_to_offset, same_image_buffer. reflexivity.
Qed.

Lemma same_image_import_entries fuel :
  forall iat lookup_offset index,
    import_entries fuel p iat lookup_offset index =
    import_entries fuel q iat lookup_offset index.
Proof.
  induction fuel as [|fuel IH]; intros; [reflexivity|].
  rewrite !import_entries_S, same_image_buffer.
  apply bind_ext. intros entry.
  destruct (_ =? 0); [reflexivity|].
  rewrite same_image_import_entry, IH. reflexivity.
Qed.

Lemma same_image_import_descriptors fuel :
  forall offset,
    import_descriptors fuel p offset = import_descriptors fuel q offset.
Proof.
  induction fuel as [|fuel IH]; intros; [reflexivity|].
  rewrite !import_descriptors_S, same_image_buffer, same_image_walk_fuel.
  destruct (_ <=? _); [|reflexivity].
  apply bind_ext. intros import.
  destruct (_ =? 0); [reflexivity|].
  rewrite !same_image_rva_to_offset.
  repeat (apply bind_ext; intros).
  rewrite same_image_import_entries, IH. reflexivity.
Qed.

Lemma same_image_get_import_directory :
  get_import_directory p = get_import_directory q.
Proof.
  unfold get_import_directory.
  rewrite same_image_data_directory, same_image_rva_to_offset,
    same_image_walk_fuel.
  destruct (_ =? 0); [reflexivity|].
  apply bind_ext. intros. apply same_image_import_descriptors.
Qed.

Lemma same_image_relocation_blocks fuel :
  forall offset dir_size current_offset,
    relocation_blocks fuel p offset dir_size current_offset =
    relocation_blocks fuel q offset dir_size current_offset.
Proof.
  induction fuel as [|fuel IH]; intros; [reflexivity|].
  rewrite !relocation_blocks_S, same_image_buffer.
  destruct (_ <? _); [|reflexivity].
  apply bind_ext. intros block. cbv zeta.
  apply bind_ext. intros entries.
  rewrite IH. reflexivity.
Qed.

Lemma same_image_get_relocation_directory fuel :
  get_relocation_directory fuel p = get_relocation_directory fuel q.
Proof.
  unfold get_relocation_directory.
  rewrite same_image_data_directory, same_image_rva_to_offset.
  destruct (_ =? 0); [reflexivity|].
  apply bind_ext. intros. apply same_image_relocation_blocks.
Qed.

Lemma same_image_resolve_chained_function fuel :
  forall base_offset func,
    resolve_chained_function fuel p base_offset func =
    resolve_chained_function fuel q base_offset func.
Proof.
  induction fuel as [|fuel IH]; intros; [reflexivity|].
  rewrite !resolve_chained_function_S, same_image_buffer,
    !same_image_rva_to_offset.
  destruct (_ =? 0); [reflexivity|].
  f_equal. apply bind_ext. intros mapped. apply bind_ext. intros u.
  destruct (negb _); [|reflexivity]. cbv zeta.
  apply bind_ext. intros mapped'. apply bind_ext. intros chain_func.
  apply IH.
Qed.

Lemma same_image_get_exception_directory fuel :
  get_exception_directory fuel p = get_exception_directory fuel q.
Proof.
  unfold get_exception_directory.
  rewrite same_image_data_directory, same_image_rva_to_offset,
    same_image_buffer.
  destruct (_ =? 0); [reflexivity|].
  apply bind_ext. intros offset. cbv zeta.
  apply for_each_ext. intros i.
  apply bind_ext. intros func.
  rewrite same_image_resolve_chained_function.
  apply bind_ext. intros resolved.
  rewrite same_image_rva_to_offset. reflexivity.
Qed.

Lemma same_image_tls_callbacks fuel :
  forall offset, tls_callbacks fuel p offset = tls_callbacks fuel q offset.
Proof.
  induction fuel as [|fuel IH]; intros; [reflexivity|].
  rewrite !tls_callbacks_S, same_image_buffer.
  apply bind_ext. intros callback.
  destruct (_ =? 0); [reflexivity|]. rewrite IH. reflexivity.
Qed.

Lemma same_image_get_tls_directory :
  get_tls_directory p = get_tls_directory q.
Proof.
  unfold get_tls_directory.
  rewrite same_image_data_directory, same_image_rva_to_offset,
    same_image_buffer, same_image_walk_fuel.
  destruct (_ =? 0); [reflexivity|].
  apply bind_ext. intros offset. apply bind_ext. intros tls.
  f_equal. destruct (negb _); [|reflexivity].
  rewrite same_image_rva_to_offset.
  apply bind_ext. intros. apply same_image_tls_callbacks.
Qed.

Lemma same_image_get_debug_directory :
  get_debug_directory p = get_debug_directory q.
Proof.
  unfold get_debug_directory.
  rewrite same_image_data_directory, same_image_rva_to_offset.
  destruct (_ =? 0); [reflexivity|].
  apply bind_ext. intros offset. cbv zeta.
  apply for_each_ext. intros i.
  unfold debug_entry. rewrite same_image_buffer. reflexivity.
Qed.

Lemma same_image_get_pdb_url : get_pdb_url p = get_pdb_url q.
Proof. unfold get_pdb_url. rewrite same_image_get_debug_directory. reflexivity. Qed.

Lemma same_image_get_pdb_path : get_pdb_path p = get_pdb_path q.
Proof. unfold get_pdb_path. rewrite same_image_get_debug_directory. reflexivity. Qed.

End SameImage.

Lemma same_image_overrides p b e :
  same_image (override_entry_point (override_base_address p b) e) p.
Proof. split; reflexivity. Qed.

(** X9.  The overrides reach no directory walk: whatever the two overrides are set
    to, RVA mapping, section bytes, imports, relocations, exceptions, TLS,
    debug records, the PDB path and the symbol URL are what they are without
    any override. *)
Theorem overrides_leave_directories_unchanged (p : Parser) (b e : Z)
  (fuel : nat) :
  let q := override_entry_point (override_base_address p b) e in
  (forall rva, rva_to_offset q rva = rva_to_offset p rva) /\
  (forall name, get_section_data q name = get_section_data p name) /\
  get_import_directory q = get_import_directory p /\
  get_relocation_directory fuel q = get_relocation_directory fuel p /\
  get_exception_directory fuel q = get_exception_directory fuel p /\
  get_tls_directory q = get_tls_directory p /\
  get_debug_directory q = get_debug_directory p /\
  get_pdb_path q = get_pdb_path p /\
  get_pdb_url q = get_pdb_url p.
Proof.
  cbv zeta. pose proof (same_image_overrides p b e) as H.
  split; [intros; apply same_image_rva_to_offset; exact H|].
  split; [intros; apply same_image_get_section_data; exact H|].
  split; [apply same_image_get_import_directory; exact H|].
  split; [apply same_image_get_relocation_directory; exact H|].
  split; [apply same_image_get_exception_directory; exact H|].
  split; [apply same_image_get_tls_directory; exact H|].
  split; [apply same_image_get_debug_directory; exact H|].
  split; [apply same_image_get_pdb_path; exact H|].
  apply same_image_get_pdb_url; exact H.
Qed.

Lemma for_each_related {A B} (R : B -> B -> Prop) (f g : A -> outcome B) l :
  (forall x y, f x = Ok y -> exists y', g x = Ok y' /\ R y y') ->
  forall ys, for_each f l = Ok ys ->
  exists ys', for_each g l = Ok ys' /\ Forall2 R ys ys'.
Proof.
  intros Hfg. induction l as [|x r IH]; cbn [for_each]; intros ys H.
  - inversion H; subst. exists []. split; [reflexivity | constructor].
  - bind_inv H. bind_inv H. inversion H; subst.
    destruct (Hfg _ _ E) as (y' & Hy' & HR).
    destruct (IH _ E0) as (ys' & Hys' & HRs).
    exists (y' :: ys'). rewrite Hy', Hys'. cbn [bind].
    split; [reflexivity | constructor; assumption].
Qed.

Lemma export_entry_rebased p q dir table fo no oo i e :
  same_image p q ->
  export_entry p dir table fo no oo i = Ok e ->
  exists e', export_entry q dir table fo no oo i = Ok e' /\ same_export e e'.
Proof.
  intros Hs H.
  unfold export_entry, export_name_rva, export_table_ordinal,
    export_function_rva in *.
  rewrite <- (same_image_buffer p q Hs).
  bind_inv H. bind_inv H. bind_inv H. bind_inv H. inversion H; subst e.
  rewrite E. cbn [bind]. rewrite E0. cbn [bind]. rewrite E1. cbn [bind].
  assert (E2' : (if negb (v =? 0)
                 then name_start <- rva_to_offset q v ;;
                      read_cstring (buffer_ p) name_start
                 else Ok []) = Ok v2).
  { rewrite <- (same_image_rva_to_offset p q Hs). exact E2. }
  rewrite E2'. cbn [bind].
  eexists. split; [reflexivity|]. repeat split.
Qed.

Lemma section_view_rebased p q e s v :
  same_image p q ->
  section_view p e s = Ok v ->
  exists v', section_view q e s = Ok v' /\ same_section_bytes v v'.
Proof.
  intros Hs H. unfold section_view in *.
  rewrite <- (same_image_buffer p q Hs).
  bind_inv H. inversion H; subst v. rewrite E. cbn [bind].
  eexists. split; [reflexivity|]. repeat split.
Qed.

(** X10.  A base-address override changes addresses only: if [get_export_directory]
    or [get_all_sections_data] succeeds without it, it succeeds with it, and
    returns the same export table, the same names, ordinals and forwarder
    marks, and the same section names, bytes and flags. *)
Theorem base_override_changes_addresses_only (p : Parser) (b : Z) :
  (forall table entries,
     get_export_directory p = Ok (table, entries) ->
     exists entries',
       get_export_directory (override_base_address p b) = Ok (table, entries') /\
       Forall2 same_export entries entries') /\
  (forall views,
     get_all_sections_data p = Ok views ->
     exists views',
       get_all_sections_data (override_base_address p b) = Ok views' /\
       Forall2 same_section_bytes views views').
Proof.
  assert (Hs : same_image p (override_base_address p b))
    by (split; reflexivity).
  split.
  - intros table entries H. unfold get_export_directory in *.
    rewrite <- (same_image_data_directory p _ Hs).
    rewrite <- (same_image_buffer p _ Hs).
    destruct (_ =? 0).
    { inversion H; subst. exists []. split; [reflexivity | constructor]. }
    bind_inv H. bind_inv H. bind_inv H. bind_inv H. bind_inv H. bind_inv H.
    bind_inv H. inversion H; subst.
    rewrite <- !(same_image_rva_to_offset p _ Hs).
    rewrite E. cbn [bind]. rewrite E0. cbn [bind].
    assert (E1' : (if negb (ExportDirectory.name_rva table =? 0)
                   then name_start <-
                          rva_to_offset (override_base_address p b)
                            (ExportDirectory.name_rva table) ;;
                        read_cstring (buffer_ p) name_start
                   else Ok []) = Ok v1).
    { rewrite <- (same_image_rva_to_offset p _ Hs). exact E1. }
    rewrite E1'. cbn [bind].
    rewrite <- (same_image_rva_to_offset p _ Hs), E2. cbn [bind].
    rewrite <- (same_image_rva_to_offset p _ Hs), E3. cbn [bind].
    rewrite <- (same_image_rva_to_offset p _ Hs), E4. cbn [bind].
    destruct (for_each_related same_export
                (export_entry p (data_directory p 0) table v2 v3 v4)
                (export_entry (override_base_address p b)
                   (data_directory p 0) table v2 v3 v4)
                (iota (ExportDirectory.number_of_names table))
                (fun x y Hx => export_entry_rebased p _ _ _ _ _ _ _ _ Hs Hx)
                _ E5) as (es' & Hes' & HR).
    exists es'. rewrite Hes'. cbn [bind]. split; [reflexivity | exact HR].
  - intros views H. unfold get_all_sections_data in *.
    rewrite <- (same_image_info p _ Hs).
    exact (for_each_related same_section_bytes _ _ _
             (fun x y Hx => section_view_rebased p _ _ _ _ Hs Hx) _ H).
Qed.

(** [forwarder_image] rebased to [0x7FF000000000]: the exports are found
    again, with the same names, ordinals and forwarder marks. *)
Lemma base_override_changes_addresses_only_witness :
  exists entries',
    get_export_directory
      (override_base_address (loaded forwarder_image) 0x7FF000000000) =
      Ok (forwarder_table, entries') /\
    Forall2 same_export [forwarder_fwd; forwarder_run] entries'.
Proof.
  apply (proj1 (base_override_changes_addresses_only
                  (loaded forwarder_image) 0x7FF000000000)).
  vm_compute. reflexivity.
Defined.

(** ** Base relocations *)

(** The two bit fields of a 16-bit relocation entry: the high four bits and
    the low twelve, which together give the entry back. *)
Lemma relocation_fields raw :
  0 <= raw < 2 ^ 16 ->
  wrap16 (Z.land (Z.shiftr raw 12) 0xF) = raw / 4096 /\
  wrap16 (Z.land raw 0xFFF) = raw mod 4096 /\
  0 <= raw / 4096 < 16 /\ 0 <= raw mod 4096 < 4096.
Proof.
  intros Hr. change (2 ^ 16) with 65536 in Hr.
  assert (Hd : 0 <= raw / 4096 < 16) by (Z.div_mod_to_equations; lia).
  assert (Hm : 0 <= raw mod 4096 < 4096) by (apply Z.mod_pos_bound; lia).
  rewrite Z.shiftr_div_pow2 by lia. change (2 ^ 12) with 4096.
  change 0xF with (2 ^ 4 - 1). change 0xFFF with (2 ^ 12 - 1).
  rewrite !land_low_bits by lia.
  change (2 ^ 4) with 16. change (2 ^ 12) with 4096.
  rewrite (Z.mod_small (raw / 4096) 16) by lia.
  unfold wrap16. change (2 ^ 16) with 65536.
  rewrite !Z.mod_small by lia. repeat split; lia.
Qed.

Lemma slice_prefix data offset len :
  slice (slice data offset len) 0 len = slice data offset len.
Proof.
  unfold slice. change (Z.to_nat 0) with 0%nat. cbn [skipn].
  rewrite firstn_firstn, Nat.min_id. reflexivity.
Qed.

Lemma read_relocation_entry_raw data offset v :
  read_struct BaseRelocationEntry.layout data offset = Ok v ->
  read_struct uint16_t data offset = Ok (BaseRelocationEntry.offset v) /\
  0 <= BaseRelocationEntry.offset v < 2 ^ 16.
Proof.
  unfold read_struct.
  change (sizeof BaseRelocationEntry.layout) with 2.
  change (sizeof uint16_t) with 2.
  destruct (offset + 2 >? buffer_size data); [discriminate|].
  intros H. inversion H; subst v.
  cbn [of_bytes BaseRelocationEntry.layout uint16_t scalar
       BaseRelocationEntry.offset].
  unfold field. rewrite slice_prefix.
  split; [reflexivity|].
  split; [apply le_value_nonneg | apply (field_bound data offset 2); lia].
Qed.

(** Every block a successful relocation walk emits was read as a block header
    inside the directory; it carries the header's page RVA and
    [(size_of_block - 8) / 2] entries (in [uint32_t] arithmetic), and the
    [i]-th entry splits the 16-bit value at [block + 8 + 2*i] into its high
    four bits (type) and low twelve bits (offset), so that
    [type * 4096 + offset] is that value. *)
Lemma relocation_blocks_decoded p offset dir_size :
  forall fuel current_offset blocks,
    relocation_blocks fuel p offset dir_size current_offset = Ok blocks ->
    forall va entries,
      In (va, entries) blocks ->
      exists block_offset block,
        current_offset <= block_offset < offset + dir_size /\
        read_struct BaseRelocationBlock.layout (buffer_ p) block_offset =
          Ok block /\
        va = BaseRelocationBlock.virtual_address block /\
        length entries =
          Z.to_nat (wrap32 (BaseRelocationBlock.size_of_block block - 8) / 2) /\
        forall i,
          0 <= i < wrap32 (BaseRelocationBlock.size_of_block block - 8) / 2 ->
          exists raw e,
            read_struct uint16_t (buffer_ p) (block_offset + 8 + 2 * i) =
              Ok raw /\
            nth_error entries (Z.to_nat i) = Some e /\
            0 <= RelocationEntry.type e < 16 /\
            0 <= RelocationEntry.offset e < 4096 /\
            RelocationEntry.type e * 4096 + RelocationEntry.offset e = raw.
Proof.
  induction fuel as [|fuel IH]; intros cur blocks H va entries Hin;
    [discriminate H|].
  rewrite relocation_blocks_S in H.
  destruct (Z.ltb_spec cur (offset + dir_size)) as [Hlt|Hge];
    [|inversion H; subst; destruct Hin].
  bind_inv H. cbv zeta in H. bind_inv H. bind_inv H.
  inversion H; subst blocks; clear H.
  assert (Hsize : 0 <= BaseRelocationBlock.size_of_block v).
  { destruct (read_struct_cases BaseRelocationBlock.layout (buffer_ p) cur)
      as [[_ R]|[_ R]]; rewrite R in E; inversion E; subst v.
    apply field_nonneg. }
  destruct Hin as [Heq | Hin].
  - inversion Heq; subst va entries.
    exists cur, v. split; [lia|]. split; [exact E|]. split; [reflexivity|].
    split.
    { apply for_each_Ok_length in E0. rewrite E0. apply iota_length. }
    intros i Hi.
    destruct (for_each_Ok_nth _ _ _ E0 (Z.to_nat i) i (iota_nth_error _ _ Hi))
      as (e & He & Hr).
    bind_inv Hr. inversion Hr; subst e; clear Hr.
    assert (Hraw : read_struct uint16_t (buffer_ p) (cur + 8 + 2 * i) =
                   Ok (BaseRelocationEntry.offset v2) /\
                   0 <= BaseRelocationEntry.offset v2 < 2 ^ 16).
    { replace (cur + 8 + 2 * i) with (cur + 8 + i * 2) by lia.
      apply read_relocation_entry_raw. exact E2. }
    destruct Hraw as [Hraw Hrange].
    destruct (relocation_fields _ Hrange) as (Ht & Ho & Htr & Hor).
    exists (BaseRelocationEntry.offset v2). eexists.
    split; [exact Hraw|]. split; [exact He|].
    cbn [RelocationEntry.type RelocationEntry.offset].
    rewrite Ht, Ho. repeat split; try lia.
    pose proof (Z.div_mod (BaseRelocationEntry.offset v2) 4096). lia.
  - destruct (IH _ _ E1 va entries Hin) as (bo & blk & Hbo & P).
    exists bo, blk. split; [lia | exact P].
Qed.

(** X11.  Every block [get_relocation_directory] returns was read as a block header
    at a file offset inside the directory; it carries the header's page RVA
    and [(size_of_block - 8) / 2] entries ([uint32_t] arithmetic), and its
    [i]-th entry splits the 16-bit value at [block + 8 + 2*i] into the high
    four bits (type) and the low twelve bits (offset):
    [type * 4096 + offset] gives the value back. *)
Theorem get_relocation_directory_decoded (fuel : nat) (p : Parser) blocks :
  get_relocation_directory fuel p = Ok blocks ->
  forall va entries,
    In (va, entries) blocks ->
    exists offset block_offset block,
      rva_to_offset p (DataDirectory.virtual_address (data_directory p 5)) =
        Ok offset /\
      offset <= block_offset <
        offset + DataDirectory.size (data_directory p 5) /\
      read_struct BaseRelocationBlock.layout (buffer_ p) block_offset =
        Ok block /\
      va = BaseRelocationBlock.virtual_address block /\
      length entries =
        Z.to_nat (wrap32 (BaseRelocationBlock.size_of_block block - 8) / 2) /\
      forall i,
        0 <= i < wrap32 (BaseRelocationBlock.size_of_block block - 8) / 2 ->
        exists raw e,
          read_struct uint16_t (buffer_ p) (block_offset + 8 + 2 * i) =
            Ok raw /\
          nth_error entries (Z.to_nat i) = Some e /\
          0 <= RelocationEntry.type e < 16 /\
          0 <= RelocationEntry.offset e < 4096 /\
          RelocationEntry.type e * 4096 + RelocationEntry.offset e = raw.
Proof.
  unfold get_relocation_directory. intros H va entries Hin.
  destruct (_ =? 0); [inversion H; subst; destruct Hin|].
  bind_inv H.
  destruct (relocation_blocks_decoded _ _ _ _ _ _ H va entries Hin)
    as (bo & blk & P).
  exists v, bo, blk. split; [exact E | exact P].
Qed.

(** [reloc_image] through the theorem: its block for page [0x2000] has two
    entries, the first of type 10 at offset [0x123]. *)
Lemma get_relocation_directory_decoded_witness :
  get_relocation_directory 2 (loaded reloc_image) =
    Ok [(0x2000, [RelocationEntry.mk 10 0x123; RelocationEntry.mk 0 0])] /\
  exists offset block_offset block,
    rva_to_offset (loaded reloc_image)
      (DataDirectory.virtual_address (data_directory (loaded reloc_image) 5)) =
      Ok offset /\
    offset <= block_offset <
      offset + DataDirectory.size (data_directory (loaded reloc_image) 5) /\
    read_struct BaseRelocationBlock.layout (buffer_ (loaded reloc_image))
      block_offset = Ok block /\
    0x2000 = BaseRelocationBlock.virtual_address block.
Proof.
  assert (H : get_relocation_directory 2 (loaded reloc_image) =
              Ok [(0x2000, [RelocationEntry.mk 10 0x123; RelocationEntry.mk 0 0])])
    by (vm_compute; reflexivity).
  split; [exact H|].
  destruct (get_relocation_directory_decoded 2 (loaded reloc_image) _ H 0x2000
              [RelocationEntry.mk 10 0x123; RelocationEntry.mk 0 0]
              (or_introl eq_refl))
    as (offset & bo & blk & H1 & H2 & H3 & H4 & _).
  exists offset, bo, blk. repeat split; try assumption; apply H2.
Defined.

(** ** Exceptions *)

Lemma try_catch_outcomes {A} (body handler : outcome A) a :
  handler = Ok a ->
  body <> ReadPastEnd ->
  try_catch body handler <> ReadPastEnd /\
  forall e, try_catch body handler <> Throw e.
Proof.
  intros -> Hb. unfold try_catch.
  destruct body; split; try discriminate; try contradiction; auto.
Qed.

Lemma resolve_chained_function_not_past_end p base_offset :
  forall fuel func,
    resolve_chained_function fuel p base_offset func <> ReadPastEnd.
Proof.
  induction fuel as [|fuel IH]; intros func; [discriminate|].
  rewrite resolve_chained_function_S.
  destruct (_ =? 0); [discriminate|].
  apply (try_catch_outcomes _ _ func eq_refl).
  apply bind_not_ReadPastEnd.
  { unfold rva_to_offset. destruct (find _ _); discriminate. }
  intros mapped _.
  apply bind_not_ReadPastEnd;
    [apply (proj1 (read_struct_not_past_end _ _ _))|].
  intros u _. destruct (negb _); [|discriminate]. cbv zeta.
  apply bind_not_ReadPastEnd.
  { unfold rva_to_offset. destruct (find _ _); discriminate. }
  intros mapped' _.
  apply bind_not_ReadPastEnd;
    [apply (proj1 (read_struct_not_past_end _ _ _))|].
  intros chain _. apply IH.
Qed.

Lemma read_unwind_info_count data offset u :
  read_struct UnwindInfo.layout data offset = Ok u ->
  0 <= UnwindInfo.count_of_codes u < 256.
Proof.
  unfold read_struct. destruct (_ >? _); [discriminate|].
  intros H. inversion H. cbn [UnwindInfo.count_of_codes].
  split; [apply field_nonneg | apply (field_bound _ 2 1); lia].
Qed.

(** The slot index behind the unwind codes: their count, rounded up to the
    next even number. *)
Lemma chain_index count :
  0 <= count < 256 ->
  (if negb (Z.land count 1 =? 0) then wrap32 (count + 1) else count) =
  count + count mod 2.
Proof.
  intros Hc. change 1 with (2 ^ 1 - 1) at 1. rewrite land_low_bits by lia.
  change (2 ^ 1) with 2.
  pose proof (Z.mod_pos_bound count 2 eq_refl).
  destruct (Z.eqb_spec (count mod 2) 0) as [E|E]; cbn [negb]; [lia|].
  unfold wrap32. rewrite Z.mod_small; change (2 ^ 32) with 4294967296; lia.
Qed.

(** X12.  Chain resolution swallows every failure: it never throws and never reads
    outside the buffer, and when the unwind info of the function it was given
    cannot be mapped or read, or the chained function behind it cannot be
    read, it returns that function itself. *)
Theorem chain_resolution_swallows_failures (p : Parser) (base_offset : Z)
  (fuel : nat) (func : RuntimeFunction.t) :
  (forall e, resolve_chained_function fuel p base_offset func <> Throw e) /\
  resolve_chained_function fuel p base_offset func <> ReadPastEnd /\
  (rva_to_offset p (RuntimeFunction.unwind_info_address func) =
     Throw RvaUnmapped ->
   resolve_chained_function (S fuel) p base_offset func = Ok func) /\
  (forall mapped,
     rva_to_offset p (RuntimeFunction.unwind_info_address func) = Ok mapped ->
     read_struct UnwindInfo.layout (buffer_ p) mapped = Throw BufferOverflow ->
     resolve_chained_function (S fuel) p base_offset func = Ok func) /\
  (forall mapped u,
     rva_to_offset p (RuntimeFunction.unwind_info_address func) = Ok mapped ->
     read_struct UnwindInfo.layout (buffer_ p) mapped = Ok u ->
     read_struct RuntimeFunction.layout (buffer_ p)
       (mapped + 4 +
        2 * (UnwindInfo.count_of_codes u + UnwindInfo.count_of_codes u mod 2)) =
       Throw BufferOverflow ->
     resolve_chained_function (S fuel) p base_offset func = Ok func).
Proof.
  split; [intros e; apply resolve_chained_function_no_throw|].
  split; [apply resolve_chained_function_not_past_end|].
  split; [|split].
  - intros Hm. rewrite resolve_chained_function_S.
    destruct (_ =? 0); [reflexivity|]. rewrite Hm. reflexivity.
  - intros mapped Hm Hr. rewrite resolve_chained_function_S.
    destruct (_ =? 0); [reflexivity|]. rewrite Hm. cbn [bind].
    rewrite Hr. reflexivity.
  - intros mapped u Hm Hu Hc. rewrite resolve_chained_function_S.
    destruct (_ =? 0); [reflexivity|]. rewrite Hm. cbn [bind].
    rewrite Hu. cbn [bind].
    destruct (negb _); [|reflexivity]. cbv zeta. cbn [bind].
    pose proof (read_unwind_info_count _ _ _ Hu) as Hcount.
    pose proof (chain_index _ Hcount) as Hidx.
    rewrite Hidx.
    replace (mapped + UnwindInfo.offsetof_unwind_code +
             (UnwindInfo.count_of_codes u +
              UnwindInfo.count_of_codes u mod 2) * UnwindCode.sizeof)
      with (mapped + 4 +
            2 * (UnwindInfo.count_of_codes u +
                 UnwindInfo.count_of_codes u mod 2))
      by (unfold UnwindInfo.offsetof_unwind_code, UnwindCode.sizeof; lia).
    rewrite Hc. reflexivity.
Qed.

(** On [chained_image] a function whose unwind info RVA [0x9000] lies in no
    section is returned as it is. *)
Lemma chain_resolution_swallows_failures_witness :
  resolve_chained_function 1 (loaded chained_image) 0x200
    (RuntimeFunction.mk 0x1100 0x1200 0x9000) =
  Ok (RuntimeFunction.mk 0x1100 0x1200 0x9000).
Proof.
  apply (chain_resolution_swallows_failures (loaded chained_image) 0x200 0
           (RuntimeFunction.mk 0x1100 0x1200 0x9000)).
  vm_compute. reflexivity.
Defined.

(** X13.  One step of chain resolution: when the unwind info of [func] has
    [UNW_FLAG_CHAININFO] set, resolution continues with the runtime function
    stored behind the unwind-code array, whose length is [count_of_codes]
    rounded up to an even number of 2-byte slots. *)
Theorem chain_resolution_follows_padded_codes (p : Parser) (base_offset : Z)
  (fuel : nat) (func chain_func : RuntimeFunction.t) mapped u :
  RuntimeFunction.unwind_info_address func <> 0 ->
  rva_to_offset p (RuntimeFunction.unwind_info_address func) = Ok mapped ->
  read_struct UnwindInfo.layout (buffer_ p) mapped = Ok u ->
  Z.land (UnwindInfo.flags u) 0x4 <> 0 ->
  read_struct RuntimeFunction.layout (buffer_ p)
    (mapped + 4 +
     2 * (UnwindInfo.count_of_codes u + UnwindInfo.count_of_codes u mod 2)) =
    Ok chain_func ->
  resolve_chained_function (S fuel) p base_offset func =
  resolve_chained_function fuel p base_offset chain_func.
Proof.
  intros Hnz Hm Hu Hflag Hc. rewrite resolve_chained_function_S.
  destruct (Z.eqb_spec (RuntimeFunction.unwind_info_address func) 0);
    [contradiction|].
  rewrite Hm. cbn [bind]. rewrite Hu. cbn [bind].
  destruct (Z.eqb_spec (Z.land (UnwindInfo.flags u) 4) 0); [contradiction|].
  cbn [negb]. cbv zeta. cbn [bind].
  rewrite (chain_index _ (read_unwind_info_count _ _ _ Hu)).
  replace (mapped + UnwindInfo.offsetof_unwind_code +
           (UnwindInfo.count_of_codes u +
            UnwindInfo.count_of_codes u mod 2) * UnwindCode.sizeof)
    with (mapped + 4 +
          2 * (UnwindInfo.count_of_codes u +
               UnwindInfo.count_of_codes u mod 2))
    by (unfold UnwindInfo.offsetof_unwind_code, UnwindCode.sizeof; lia).
  rewrite Hc. cbn [bind]. unfold try_catch.
  destruct (resolve_chained_function fuel p base_offset chain_func) eqn:R;
    try reflexivity.
  exfalso. exact (resolve_chained_function_no_throw _ _ _ _ _ R).
Qed.

(** [chained_image] through the theorem: its primary function has one unwind
    code, so the chained function is read two slots behind the header, at
    file offset [0x218], and resolution ends there. *)
Lemma chain_resolution_follows_padded_codes_witness :
  resolve_chained_function 2 (loaded chained_image) 0x200 chained_primary =
  Ok chained_parent.
Proof.
  rewrite (chain_resolution_follows_padded_codes (loaded chained_image) 0x200
             1 chained_primary chained_parent 0x210
             (UnwindInfo.mk 1 4 0 1 0 0 0x42)).
  - vm_compute. reflexivity.
  - vm_compute. intros E; discriminate E.
  - vm_compute. reflexivity.
  - vm_compute. reflexivity.
  - vm_compute. intros E; discriminate E.
  - vm_compute. reflexivity.
Defined.

(** X14.  A successful [get_exception_directory] returns [size / 12] entries; the
    [i]-th pairs the chain-resolved form of the runtime function at
    [offset + 12*i] with that function's unwind info, which is absent exactly
    when the resolved function has no unwind info RVA or that RVA cannot be
    mapped and read. *)
Theorem get_exception_directory_entries (fuel : nat) (p : Parser) entries :
  get_exception_directory fuel p = Ok entries ->
  DataDirectory.virtual_address (data_directory p 3) <> 0 ->
  exists offset,
    rva_to_offset p (DataDirectory.virtual_address (data_directory p 3)) =
      Ok offset /\
    length entries =
      Z.to_nat (DataDirectory.size (data_directory p 3) / 12) /\
    forall i, 0 <= i < DataDirectory.size (data_directory p 3) / 12 ->
      exists func resolved unwind_info,
        read_struct RuntimeFunction.layout (buffer_ p) (offset + 12 * i) =
          Ok func /\
        resolve_chained_function fuel p offset func = Ok resolved /\
        nth_error entries (Z.to_nat i) = Some (resolved, unwind_info) /\
        (forall u,
           unwind_info = Some u <->
           RuntimeFunction.unwind_info_address resolved <> 0 /\
           exists mapped,
             rva_to_offset p (RuntimeFunction.unwind_info_address resolved) =
               Ok mapped /\
             read_struct UnwindInfo.layout (buffer_ p) mapped = Ok u).
Proof.
  unfold get_exception_directory. intros H Hva.
  destruct (Z.eqb_spec (DataDirectory.virtual_address (data_directory p 3)) 0);
    [contradiction|].
  bind_inv H. cbv zeta in H. exists v. split; [exact E|].
  change (sizeof RuntimeFunction.layout) with 12 in H.
  split.
  { apply for_each_Ok_length in H. rewrite H. apply iota_length. }
  intros i Hi.
  destruct (for_each_Ok_nth _ _ _ H (Z.to_nat i) i (iota_nth_error _ _ Hi))
    as ([resolved ui] & Hn & Hf).
  bind_inv Hf. bind_inv Hf. bind_inv Hf. inversion Hf; subst; clear Hf.
  exists v0, resolved, ui.
  replace (v + 12 * i) with (v + i * 12) by lia.
  repeat (split; [assumption|]).
  intros u.
  destruct (Z.eqb_spec (RuntimeFunction.unwind_info_address resolved) 0)
    as [Hz|Hz]; cbn [negb] in E2.
  - inversion E2; subst. split; [discriminate | intros [Hc _]; contradiction].
  - unfold try_catch in E2.
    destruct (rva_to_offset p (RuntimeFunction.unwind_info_address resolved))
      as [m|e| |] eqn:Hm; cbn [bind] in E2.
    + destruct (read_struct UnwindInfo.layout (buffer_ p) m)
        as [u'|e| |] eqn:Hu; cbn [bind] in E2; inversion E2; subst.
      * split.
        -- intros Hs. inversion Hs; subst. split; [exact Hz|].
           exists m. split; [reflexivity | exact Hu].
        -- intros [_ (m' & Hm' & Hu')]. inversion Hm'; subst m'.
           rewrite Hu in Hu'. inversion Hu'. reflexivity.
      * split; [discriminate|].
        intros [_ (m' & Hm' & Hu')]. inversion Hm'; subst m'.
        rewrite Hu in Hu'. discriminate Hu'.
    + inversion E2; subst. split; [discriminate|].
      intros [_ (m' & Hm' & _)]. discriminate Hm'.
    + discriminate E2.
    + discriminate E2.
Qed.

(** [chained_image] through the theorem: one entry is returned. *)
Lemma get_exception_directory_entries_witness :
  exists entries,
    get_exception_directory 2 (loaded chained_image) = Ok entries /\
    length entries = 1%nat.
Proof.
  pose (entries := [(chained_parent, Some (UnwindInfo.mk 1 0 4 0 0 0 0))]).
  assert (H : get_exception_directory 2 (loaded chained_image) = Ok entries)
    by (vm_compute; reflexivity).
  exists entries. split; [exact H|].
  destruct (get_exception_directory_entries 2 (loaded chained_image) _ H)
    as (offset & _ & Hlen & _).
  - vm_compute. intros E; discriminate E.
  - rewrite Hlen. vm_compute. reflexivity.
Defined.

(** ** Debug records *)

Lemma debug_entry_Ok p offset i entry payload :
  debug_entry p offset i = Ok (entry, payload) ->
  read_struct DebugDirectory.layout (buffer_ p) (offset + 28 * i) = Ok entry /\
  ((DebugDirectory.pointer_to_raw_data entry = 0 \/
    DebugDirectory.size_of_data entry = 0) -> payload = None) /\
  (DebugDirectory.pointer_to_raw_data entry <> 0 ->
   DebugDirectory.size_of_data entry <> 0 ->
   DebugDirectory.pointer_to_raw_data entry +
     DebugDirectory.size_of_data entry <= buffer_size (buffer_ p) /\
   payload =
     Some (slice (buffer_ p) (DebugDirectory.pointer_to_raw_data entry)
             (DebugDirectory.size_of_data entry))).
Proof.
  unfold debug_entry. change (sizeof DebugDirectory.layout) with 28.
  intros H. bind_inv H. bind_inv H. inversion H; subst; clear H.
  replace (offset + 28 * i) with (offset + i * 28) by lia.
  split; [exact E|].
  destruct (Z.eqb_spec (DebugDirectory.pointer_to_raw_data entry) 0) as [Hp|Hp];
    destruct (Z.eqb_spec (DebugDirectory.size_of_data entry) 0) as [Hs|Hs];
    cbn [negb andb] in E0;
    try (inversion E0; subst; split; [reflexivity | intros; contradiction]).
  bind_inv E0. inversion E0; subst.
  assert (Hf : 0 <= DebugDirectory.size_of_data entry).
  { destruct (read_struct_cases DebugDirectory.layout (buffer_ p)
                (offset + i * 28)) as [[_ R]|[_ R]];
      rewrite R in E; inversion E; subst entry; cbn [DebugDirectory.size_of_data
        of_bytes DebugDirectory.layout].
    apply field_nonneg. }
  destruct (copy_range_Ok _ _ _ _ E1) as [-> Hb].
  split; [intros [C|C]; contradiction|]. intros _ _.
  split; [apply Hb; lia | reflexivity].
Qed.

(** X15.  A successful [get_debug_directory] returns [size / 28] records; the
    [i]-th is the directory entry at [offset + 28*i], with no payload when
    its file pointer or its data size is zero, and otherwise with the
    [size_of_data] bytes at [pointer_to_raw_data], which lie inside the
    buffer. *)
Theorem get_debug_directory_records (p : Parser) records :
  get_debug_directory p = Ok records ->
  DataDirectory.virtual_address (data_directory p 6) <> 0 ->
  exists offset,
    rva_to_offset p (DataDirectory.virtual_address (data_directory p 6)) =
      Ok offset /\
    length records =
      Z.to_nat (DataDirectory.size (data_directory p 6) / 28) /\
    forall i, 0 <= i < DataDirectory.size (data_directory p 6) / 28 ->
      exists entry payload,
        nth_error records (Z.to_nat i) = Some (entry, payload) /\
        read_struct DebugDirectory.layout (buffer_ p) (offset + 28 * i) =
          Ok entry /\
        ((DebugDirectory.pointer_to_raw_data entry = 0 \/
          DebugDirectory.size_of_data entry = 0) -> payload = None) /\
        (DebugDirectory.pointer_to_raw_data entry <> 0 ->
         DebugDirectory.size_of_data entry <> 0 ->
         DebugDirectory.pointer_to_raw_data entry +
           DebugDirectory.size_of_data entry <= buffer_size (buffer_ p) /\
         payload =
           Some (slice (buffer_ p) (DebugDirectory.pointer_to_raw_data entry)
                   (DebugDirectory.size_of_data entry))).
Proof.
  unfold get_debug_directory. intros H Hva.
  destruct (Z.eqb_spec (DataDirectory.virtual_address (data_directory p 6)) 0);
    [contradiction|].
  bind_inv H. cbv zeta in H. change (sizeof DebugDirectory.layout) with 28 in H.
  exists v. split; [exact E|]. split.
  { apply for_each_Ok_length in H. rewrite H. apply iota_length. }
  intros i Hi.
  destruct (for_each_Ok_nth _ _ _ H (Z.to_nat i) i (iota_nth_error _ _ Hi))
    as ([entry payload] & Hn & Hd).
  exists entry, payload. split; [exact Hn|].
  apply debug_entry_Ok. exact Hd.
Qed.

(** [nb10_image] through the theorem: two records are returned. *)
Lemma get_debug_directory_records_witness :
  get_debug_directory (loaded nb10_image) = Ok nb10_debug_data /\
  length nb10_debug_data = 2%nat.
Proof.
  assert (H : get_debug_directory (loaded nb10_image) = Ok nb10_debug_data)
    by (vm_compute; reflexivity).
  split; [exact H|].
  destruct (get_debug_directory_records (loaded nb10_image) _ H)
    as (offset & _ & Hlen & _).
  - vm_compute. intros E; discriminate E.
  - rewrite Hlen. vm_compute. reflexivity.
Defined.

(** ** PDB path and symbol URL *)

Lemma pdb_url_of_usable_nb10 entry data :
  usable_nb10 (entry, Some data) ->
  pdb_url_of_record (entry, Some data) =
  Ok (Some (symbol_url (pdb_filename_of (cstring_at data 16))
              (format_X 8 (CV_INFO_PDB20.signature
                             (of_bytes CV_INFO_PDB20.layout (slice data 0 17))))
              (CV_INFO_PDB20.age
                 (of_bytes CV_INFO_PDB20.layout (slice data 0 17))))).
Proof.
  intros (d & Hd & Ht & Hs & Hsig & Hnul). simpl in Hd, Ht.
  inversion Hd; subst d. unfold pdb_url_of_record.
  rewrite Ht. change (negb (2 =? 2)) with false. cbv iota.
  destruct (Z.ltb_spec (buffer_size data) 4) as [Hlt|_]; [lia|].
  destruct (read_struct_cases uint32_t data 0) as [[_ R]|[Hgt _]];
    [|change (sizeof uint32_t) with 4 in Hgt; lia].
  rewrite R. cbn [bind].
  change (of_bytes uint32_t (slice data 0 (sizeof uint32_t)))
    with (field data 0 4).
  rewrite Hsig. change (0x3031424E =? 0x53445352) with false.
  change (0x3031424E =? 0x3031424E) with true. cbv iota.
  change (sizeof CV_INFO_PDB20.layout) with 17.
  destruct (Z.ltb_spec (buffer_size data) 17) as [Hlt|_]; [lia|].
  destruct (read_struct_cases CV_INFO_PDB20.layout data 0) as [[_ R']|[Hgt _]];
    [|change (sizeof CV_INFO_PDB20.layout) with 17 in Hgt; lia].
  rewrite R'. cbn [bind].
  change (Z.to_nat (17 - 1)) with 16%nat.
  apply existsb_nul in Hnul. rewrite Hnul. reflexivity.
Qed.

Lemma path_length_bound data offset :
  buffer_size data < 2 ^ 32 ->
  Z.of_nat (length (cstring_at data offset)) <= npos.
Proof.
  intros Hsz. unfold cstring_at.
  pose proof (until_nul_length (skipn (Z.to_nat offset) data)) as Hl.
  rewrite length_skipn in Hl. unfold buffer_size in Hsz.
  unfold npos. change (2 ^ 32) with 4294967296 in Hsz.
  change (2 ^ 64) with 18446744073709551616. lia.
Qed.



Example nb10_image_url :
  get_pdb_url (loaded nb10_image) =
  Ok (Some "https://msdl.microsoft.com/download/symbols/app.pdb/3D5A1B2C3/app.pdb").
Proof. vm_compute. reflexivity. Qed.

Lemma memcmp_eq_iff a b : memcmp_eq a b = true <-> a = b.
Proof.
  revert b. induction a as [|x a IH]; intros [|y b]; cbn [memcmp_eq];
    try (split; [discriminate | intros E; discriminate E]);
    [split; reflexivity|].
  rewrite andb_true_iff, IH. split.
  - intros [Hx ->]. apply Byte.byte_dec_bl in Hx. subst. reflexivity.
  - intros E. inversion E; subst.
    split; [apply Byte.byte_dec_lb; reflexivity | reflexivity].
Qed.

Lemma byte_val_inj x y : byte_val x = byte_val y -> x = y.
Proof.
  unfold byte_val. intros H. apply N2Z.inj in H.
  pose proof (Byte.of_to_N x) as Hx. rewrite H, Byte.of_to_N in Hx.
  inversion Hx. reflexivity.
Qed.

Lemma le_value_inj a :
  forall b, length a = length b -> le_value a = le_value b -> a = b.
Proof.
  induction a as [|x a IH]; intros [|y b] Hl Hv; try discriminate Hl;
    [reflexivity|].
  cbn [le_value] in Hv. cbn [length] in Hl.
  pose proof (byte_val_range x). pose proof (byte_val_range y).
  assert (byte_val x = byte_val y /\ le_value a = le_value b) as [Hx Hr] by lia.
  apply byte_val_inj in Hx. subst y. f_equal. apply IH; [lia | exact Hr].
Qed.

(** Comparing the first four payload bytes with a tag is comparing their
    little-endian value with the value of the tag. *)
Lemma memcmp_tag data tag :
  4 <= buffer_size data -> length tag = 4%nat ->
  memcmp_eq (slice data 0 4) tag = (field data 0 4 =? le_value tag).
Proof.
  intros Hs Ht.
  assert (Hl : length (slice data 0 4) = 4%nat).
  { pose proof (slice_length data 0 4 ltac:(lia) ltac:(lia) ltac:(lia)) as H.
    unfold buffer_size in H. lia. }
  destruct (Z.eqb_spec (field data 0 4) (le_value tag)) as [E|E].
  - apply memcmp_eq_iff. apply le_value_inj; [lia | exact E].
  - destruct (memcmp_eq (slice data 0 4) tag) eqn:M; [|reflexivity].
    apply memcmp_eq_iff in M. exfalso. apply E. unfold field. rewrite M.
    reflexivity.
Qed.

(** Each record is either passed over by [get_pdb_url], and then it is not a
    usable CodeView record, or it yields a URL, and then it is one. *)
Lemma pdb_url_of_record_cases record :
  (pdb_url_of_record record = Ok None /\ ~ usable_codeview record) \/
  (exists url, pdb_url_of_record record = Ok (Some url) /\
               usable_codeview record).
Proof.
  destruct record as [entry [data|]].
  2:{ left. split; [reflexivity|].
      intros [(d & Hd & _) | (d & Hd & _)]; discriminate Hd. }
  assert (Hcases : usable_rsds (entry, Some data) \/
                   usable_nb10 (entry, Some data) \/
                   ~ usable_codeview (entry, Some data)).
  { unfold usable_codeview, usable_rsds, usable_nb10. cbn [fst snd].
    destruct (Z.eq_dec (DebugDirectory.type_ entry) 2) as [Ht|Ht].
    2:{ right. right. intros [(d & _ & H & _) | (d & _ & H & _)]; contradiction. }
    destruct (Z.eq_dec (field data 0 4) 0x53445352) as [Hr|Hr].
    - destruct (Z_le_dec 25 (buffer_size data)) as [Hs|Hs].
      2:{ right. right.
          intros [(d & Hd & _ & H & _) | (d & Hd & _ & _ & H & _)];
            inversion Hd; subst; [contradiction | rewrite Hr in H; discriminate H]. }
      destruct (existsb (Byte.eqb x00) (skipn 24 data)) eqn:Hn.
      + left. exists data. apply existsb_nul in Hn. repeat split; assumption.
      + right. right.
        intros [(d & Hd & _ & _ & _ & H) | (d & Hd & _ & _ & H & _)];
          inversion Hd; subst.
        * apply existsb_nul in H. rewrite H in Hn. discriminate Hn.
        * rewrite Hr in H. discriminate H.
    - destruct (Z.eq_dec (field data 0 4) 0x3031424E) as [Hb|Hb].
      2:{ right. right.
          intros [(d & Hd & _ & _ & H & _) | (d & Hd & _ & _ & H & _)];
            inversion Hd; subst; contradiction. }
      destruct (Z_le_dec 17 (buffer_size data)) as [Hs|Hs].
      2:{ right. right.
          intros [(d & Hd & _ & _ & H & _) | (d & Hd & _ & H & _)];
            inversion Hd; subst; contradiction. }
      destruct (existsb (Byte.eqb x00) (skipn 16 data)) eqn:Hn.
      + right. left. exists data. apply existsb_nul in Hn.
        repeat split; assumption.
      + right. right.
        intros [(d & Hd & _ & _ & H & _) | (d & Hd & _ & _ & _ & H)];
          inversion Hd; subst; [contradiction|].
        apply existsb_nul in H. rewrite H in Hn. discriminate Hn. }
  destruct Hcases as [Hu | [Hu | Hu]].
  - right. eexists. split; [apply pdb_url_of_usable_rsds; exact Hu|].
    left. exact Hu.
  - right. eexists. split; [apply pdb_url_of_usable_nb10; exact Hu|].
    right. exact Hu.
  - left. split; [apply pdb_url_of_unusable; exact Hu | exact Hu].
Qed.

Lemma first_pdb_url_None records :
  first_pdb_url records = Ok None <->
  forall r, In r records -> ~ usable_codeview r.
Proof.
  induction records as [|r rest IH]; cbn [first_pdb_url].
  - split; [intros _ r [] | reflexivity].
  - destruct (pdb_url_of_record_cases r) as [[Hn Hu] | (url & Hs & Hu)].
    + rewrite Hn. cbn [bind]. rewrite IH. split.
      * intros H r' [<- | Hr']; auto.
      * intros H r' Hr'. apply H. right. exact Hr'.
    + rewrite Hs. cbn [bind]. split; [discriminate|].
      intros H. exfalso. exact (H r (or_introl eq_refl) Hu).
Qed.

(** X17.  Given the debug records, [get_pdb_url] returns absent exactly when none
    of them is a usable CodeView record: type 2, a payload starting [RSDS] or
    [NB10] that holds the fixed part of the record, and a NUL-terminated path
    behind it.  Records that are not usable are passed over without an
    error. *)
Theorem pdb_url_absent_iff_no_usable_record (p : Parser) records :
  get_debug_directory p = Ok records ->
  (get_pdb_url p = Ok None <->
   forall r, In r records -> ~ usable_codeview r) /\
  exists result, get_pdb_url p = Ok result.
Proof.
  intros H. unfold get_pdb_url. rewrite H. cbn [bind].
  split; [apply first_pdb_url_None|].
  clear H. induction records as [|r rest [res IH]]; cbn [first_pdb_url].
  - exists None. reflexivity.
  - destruct (pdb_url_of_record_cases r) as [[Hn _] | (url & Hs & _)].
    + rewrite Hn. cbn [bind]. exists res. exact IH.
    + rewrite Hs. cbn [bind]. exists (Some url). reflexivity.
Qed.

(** [unusable_debug_image] through the theorem: its two debug records, one
    of another type and one RSDS record whose path has no NUL inside the
    payload, are passed over, and no URL is returned. *)
Lemma pdb_url_absent_iff_no_usable_record_witness :
  get_debug_directory (loaded unusable_debug_image) = Ok unusable_debug_data /\
  get_pdb_url (loaded unusable_debug_image) = Ok None /\
  forall r, In r unusable_debug_data -> ~ usable_codeview r.
Proof.
  assert (Hd : get_debug_directory (loaded unusable_debug_image) =
               Ok unusable_debug_data)
    by (vm_compute; reflexivity).
  assert (Hu : get_pdb_url (loaded unusable_debug_image) = Ok None)
    by (vm_compute; reflexivity).
  split; [exact Hd|]. split; [exact Hu|].
  apply (proj1 (proj1 (pdb_url_absent_iff_no_usable_record
                         (loaded unusable_debug_image) unusable_debug_data Hd))).
  exact Hu.
Defined.

Lemma embedded_path_Some data offset path :
  embedded_path data offset = Some path ->
  path = cstring_at data offset /\ In x00 (skipn (Z.to_nat offset) data).
Proof.
  unfold embedded_path, cstring_at.
  destruct (existsb (Byte.eqb x00) (skipn (Z.to_nat offset) data)) eqn:Hn;
    [|discriminate].
  intros H. inversion H. split; [reflexivity | apply existsb_nul; exact Hn].
Qed.

Lemma nul_in_tail_length data n :
  In x00 (skipn n data) -> Z.of_nat n + 1 <= buffer_size data.
Proof.
  intros H. unfold buffer_size.
  destruct (Nat.le_gt_cases (length data) n) as [Hle|Hgt]; [|lia].
  rewrite skipn_all2 in H by exact Hle. destruct H.
Qed.

(** What an iteration of [get_pdb_path] returns, in terms of the records
    [get_pdb_url] can use. *)
Lemma pdb_path_of_record_cases record :
  match pdb_path_of_record record with
  | Some path =>
      exists data,
        snd record = Some data /\
        ((usable_rsds record /\ path = cstring_at data 24) \/
         (usable_nb10 record /\ path = cstring_at data 16))
  | None => ~ usable_codeview record
  end.
Proof.
  destruct record as [entry payload]. unfold pdb_path_of_record.
  destruct (Z.eqb_spec (DebugDirectory.type_ entry) 2) as [Ht|Ht].
  2:{ intros [(d & _ & H & _) | (d & _ & H & _)]; contradiction. }
  destruct payload as [data|].
  2:{ intros [(d & Hd & _) | (d & Hd & _)]; discriminate Hd. }
  destruct (Z.ltb_spec (buffer_size data) 4) as [H4|H4].
  { intros [(d & Hd & _ & H & _) | (d & Hd & _ & H & _)];
      inversion Hd; subst; lia. }
  rewrite !memcmp_tag by (assumption || reflexivity).
  change (le_value (String.list_byte_of_string "RSDS")) with 0x53445352.
  change (le_value (String.list_byte_of_string "NB10")) with 0x3031424E.
  destruct (Z.eqb_spec (field data 0 4) 0x53445352) as [Hr|Hr].
  - destruct (Z.ltb_spec (buffer_size data) 24) as [H24|H24].
    { intros [(d & Hd & _ & H & _) | (d & Hd & _ & _ & H & _)];
        inversion Hd; subst; [lia | rewrite Hr in H; discriminate H]. }
    destruct (embedded_path data 24) as [path|] eqn:Hp.
    + apply embedded_path_Some in Hp. destruct Hp as [-> Hn].
      exists data. split; [reflexivity|]. left. split; [|reflexivity].
      exists data. cbn [fst snd].
      pose proof (nul_in_tail_length data 24 Hn).
      repeat split; try assumption; lia.
    + unfold embedded_path in Hp. change (Z.to_nat 24) with 24%nat in Hp.
      destruct (existsb (Byte.eqb x00) (skipn 24 data)) eqn:Hn;
        [discriminate Hp|].
      intros [(d & Hd & _ & _ & _ & H) | (d & Hd & _ & _ & H & _)];
        inversion Hd; subst.
      * apply existsb_nul in H. rewrite H in Hn. discriminate Hn.
      * rewrite Hr in H. discriminate H.
  - destruct (Z.eqb_spec (field data 0 4) 0x3031424E) as [Hb|Hb].
    2:{ intros [(d & Hd & _ & _ & H & _) | (d & Hd & _ & _ & H & _)];
          inversion Hd; subst; contradiction. }
    destruct (Z.ltb_spec (buffer_size data) 16) as [H16|H16].
    { intros [(d & Hd & _ & _ & H & _) | (d & Hd & _ & H & _)];
        inversion Hd; subst; [contradiction | lia]. }
    destruct (embedded_path data 16) as [path|] eqn:Hp.
    + apply embedded_path_Some in Hp. destruct Hp as [-> Hn].
      exists data. split; [reflexivity|]. right. split; [|reflexivity].
      exists data. cbn [fst snd].
      pose proof (nul_in_tail_length data 16 Hn).
      repeat split; try assumption; lia.
    + unfold embedded_path in Hp. change (Z.to_nat 16) with 16%nat in Hp.
      destruct (existsb (Byte.eqb x00) (skipn 16 data)) eqn:Hn;
        [discriminate Hp|].
      intros [(d & Hd & _ & _ & H & _) | (d & Hd & _ & _ & _ & H)];
        inversion Hd; subst; [contradiction|].
      apply existsb_nul in H. rewrite H in Hn. discriminate Hn.
Qed.

Lemma first_pdb_path_url records :
  match first_pdb_path records with
  | Some path =>
      exists guid age,
        first_pdb_url records =
          Ok (Some (symbol_url (pdb_filename_of path) guid age))
  | None => first_pdb_url records = Ok None
  end.
Proof.
  induction records as [|r rest IH]; cbn [first_pdb_path first_pdb_url];
    [reflexivity|].
  pose proof (pdb_path_of_record_cases r) as Hc.
  destruct (pdb_path_of_record r) as [path|].
  - destruct Hc as (data & Hd & [[Hu ->] | [Hu ->]]);
      destruct r as [entry payload]; cbn [snd] in Hd; subst payload.
    + rewrite (pdb_url_of_usable_rsds _ _ Hu). cbn [bind].
      eexists. eexists. reflexivity.
    + rewrite (pdb_url_of_usable_nb10 _ _ Hu). cbn [bind].
      eexists. eexists. reflexivity.
  - rewrite (pdb_url_of_unusable _ Hc). cbn [bind]. exact IH.
Qed.

(** X18.  [get_pdb_path] and [get_pdb_url] select the same debug record: one is
    absent iff the other is, and when [get_pdb_path] returns a path, the URL
    is the symbol URL of that path's basename (split on backslash or slash),
    with the GUID (or NB10 signature) and age of the record. *)
Theorem pdb_path_and_url_agree (p : Parser) records :
  get_debug_directory p = Ok records ->
  (get_pdb_path p = Ok None <-> get_pdb_url p = Ok None) /\
  forall path,
    get_pdb_path p = Ok (Some path) ->
    exists filename guid age,
      basename path filename /\
      get_pdb_url p = Ok (Some (spec_pdb_url filename guid age)).
Proof.
  intros Hdir. unfold get_pdb_path, get_pdb_url. rewrite Hdir. cbn [bind].
  pose proof (first_pdb_path_url records) as Hc.
  split.
  - destruct (first_pdb_path records) as [path|].
    + destruct Hc as (g & a & Hu). rewrite Hu.
      split; intros E; discriminate E.
    + rewrite Hc. split; reflexivity.
  - intros path Hp. inversion Hp as [Hp']. rewrite Hp' in Hc.
    destruct Hc as (g & a & Hu).
    exists (pdb_filename_of path), g, a. split; [|exact Hu].
    apply pdb_filename_of_basename.
    (* the path is part of a payload, whose size is a uint32_t *)
    clear Hu Hp. revert Hp'.
    assert (Hall : forall entry data, In (entry, Some data) records ->
                                      buffer_size data < 2 ^ 32).
    { intros entry data Hin.
      exact (get_debug_directory_payload p _ entry data Hdir Hin). }
    clear Hdir. induction records as [|r rest IH]; cbn [first_pdb_path];
      [discriminate|].
    pose proof (pdb_path_of_record_cases r) as Hr.
    destruct (pdb_path_of_record r) as [path'|].
    + intros E. inversion E; subst path'.
      destruct Hr as (data & Hd & Hcase).
      destruct r as [entry payload]. cbn [snd] in Hd. subst payload.
      assert (Hsz : buffer_size data < 2 ^ 32)
        by (apply (Hall entry); left; reflexivity).
      destruct Hcase as [[_ ->] | [_ ->]]; apply path_length_bound; exact Hsz.
    + apply IH. intros entry data Hin. apply (Hall entry). right. exact Hin.
Qed.

(** Scenario S5 through the theorem: the path [c:\x\foo.pdb] and a URL for
    its basename. *)
Lemma pdb_path_and_url_agree_witness :
  get_pdb_path (loaded rsds_image) =
    Ok (Some (Image.ascii_bytes "c:\x\foo.pdb")) /\
  exists filename guid age,
    basename (Image.ascii_bytes "c:\x\foo.pdb") filename /\
    get_pdb_url (loaded rsds_image) =
      Ok (Some (spec_pdb_url filename guid age)).
Proof.
  assert (Hp : get_pdb_path (loaded rsds_image) =
               Ok (Some (Image.ascii_bytes "c:\x\foo.pdb")))
    by (vm_compute; reflexivity).
  split; [exact Hp|].
  apply (proj2 (pdb_path_and_url_agree (loaded rsds_image)
                  [(rsds_entry, Some rsds_payload)]
                  ltac:(vm_compute; reflexivity))).
  exact Hp.
Defined.

(** ** Export names and the library name *)

(** The name one successful iteration of the export loop emits. *)
Lemma export_entry_name p dir table fo no oo i e :
  export_entry p dir table fo no oo i = Ok e ->
  exists name_rva,
    read_struct uint32_t (buffer_ p) (no + i * 4) = Ok name_rva /\
    (name_rva = 0 -> ExportEntry.name e = []) /\
    (name_rva <> 0 ->
     exists name_start,
       rva_to_offset p name_rva = Ok name_start /\
       name_start <= buffer_size (buffer_ p) /\
       ExportEntry.name e = cstring_at (buffer_ p) name_start).
Proof.
  unfold export_entry, export_name_rva, export_table_ordinal,
    export_function_rva.
  intros H. bind_inv H. bind_inv H. bind_inv H.
  exists v. split; [exact E|].
  destruct (Z.eqb_spec v 0) as [Hz|Hz]; cbn [negb] in H.
  - cbn [bind] in H. inversion H; subst e; cbn [ExportEntry.name].
    split; [reflexivity | contradiction].
  - bind_inv H. bind_inv E2. apply read_cstring_Ok in E2.
    destruct E2 as [-> Hb].
    inversion H; subst e; cbn [ExportEntry.name].
    split; [contradiction|]. intros _. exists v3.
    repeat split; assumption.
Qed.

(** X19.  A successful [get_export_directory] on a non-empty export directory has
    mapped the library name's RVA whenever that is non-zero, although the
    library name is not part of the result; and the [i]-th entry's name is
    empty when the [uint32_t] at [names_offset + i*4] is zero, and otherwise
    the bytes from the offset mapped from it up to the first NUL (or the end
    of the buffer). *)
Theorem export_entry_names (p : Parser) table entries :
  get_export_directory p = Ok (table, entries) ->
  DataDirectory.virtual_address (data_directory p 0) <> 0 ->
  (ExportDirectory.name_rva table <> 0 ->
   exists library_name_start,
     rva_to_offset p (ExportDirectory.name_rva table) =
       Ok library_name_start /\
     library_name_start <= buffer_size (buffer_ p)) /\
  forall i, 0 <= i < ExportDirectory.number_of_names table ->
    exists names_offset e name_rva,
      rva_to_offset p (ExportDirectory.address_of_names table) =
        Ok names_offset /\
      nth_error entries (Z.to_nat i) = Some e /\
      read_struct uint32_t (buffer_ p) (names_offset + i * 4) = Ok name_rva /\
      (name_rva = 0 -> ExportEntry.name e = []) /\
      (name_rva <> 0 ->
       exists name_start,
         rva_to_offset p name_rva = Ok name_start /\
         ExportEntry.name e = cstring_at (buffer_ p) name_start /\
         ~ In x00 (ExportEntry.name e)).
Proof.
  intros H Hva. split.
  - intros Hn. revert H. unfold get_export_directory.
    destruct (Z.eqb_spec
                (DataDirectory.virtual_address (data_directory p 0)) 0);
      [contradiction|].
    intros H. bind_inv H. bind_inv H.
    assert (Ht : v0 = table).
    { bind_inv H. bind_inv H. bind_inv H. bind_inv H. bind_inv H.
      inversion H. reflexivity. }
    subst v0.
    destruct (Z.eqb_spec (ExportDirectory.name_rva table) 0) as [Hz|_];
      [contradiction|].
    cbn [negb] in H. bind_inv H. bind_inv E1.
    apply read_cstring_Ok in E1. destruct E1 as [_ Hb].
    exists v1. split; assumption.
  - intros i Hi.
    destruct (get_export_directory_Ok _ _ _ H Hva)
      as (fo & no & oo & _ & Hno & _ & Hl).
    destruct (for_each_Ok_nth _ _ _ Hl (Z.to_nat i) i (iota_nth_error _ _ Hi))
      as (e & He & Hent).
    destruct (export_entry_name _ _ _ _ _ _ _ _ Hent)
      as (name_rva & Hr & Hz & Hnz).
    exists no, e, name_rva. repeat (split; [assumption|]).
    intros Hne. destruct (Hnz Hne) as (start & Hs & _ & Hname).
    exists start. repeat (split; [assumption|]).
    rewrite Hname. apply until_nul_no_nul.
Qed.

(** [forwarder_image] through the theorem: its library name RVA [0x1050]
    maps, and its second export is named [run]. *)
Lemma export_entry_names_witness :
  (exists library_name_start,
     rva_to_offset (loaded forwarder_image) 0x1050 = Ok library_name_start /\
     library_name_start <= buffer_size (buffer_ (loaded forwarder_image))) /\
  exists names_offset e name_rva,
    rva_to_offset (loaded forwarder_image)
      (ExportDirectory.address_of_names forwarder_table) = Ok names_offset /\
    nth_error [forwarder_fwd; forwarder_run] (Z.to_nat 1) = Some e /\
    read_struct uint32_t (buffer_ (loaded forwarder_image))
      (names_offset + 1 * 4) = Ok name_rva /\
    (name_rva = 0 -> ExportEntry.name e = []) /\
    (name_rva <> 0 ->
     exists name_start,
       rva_to_offset (loaded forwarder_image) name_rva = Ok name_start /\
       ExportEntry.name e =
         cstring_at (buffer_ (loaded forwarder_image)) name_start /\
       ~ In x00 (ExportEntry.name e)).
Proof.
  assert (H : get_export_directory (loaded forwarder_image) =
              Ok (forwarder_table, [forwarder_fwd; forwarder_run]))
    by (vm_compute; reflexivity).
  assert (Hva : DataDirectory.virtual_address
                  (data_directory (loaded forwarder_image) 0) <> 0)
    by (vm_compute; intros E; discriminate E).
  destruct (export_entry_names (loaded forwarder_image) _ _ H Hva)
    as [Hlib Hent].
  split.
  - apply Hlib. vm_compute. intros E; discriminate E.
  - apply (Hent 1). vm_compute. split; [intros E; discriminate E | reflexivity].
Defined.

(** ** The import descriptor list *)

(** Where a successful descriptor walk stops: at a descriptor that does not
    fit into the buffer, or at one whose lookup table RVA is zero. *)
Lemma import_descriptors_end p :
  forall fuel offset descs,
    import_descriptors fuel p offset = Ok descs ->
    let stop := offset + 20 * Z.of_nat (length descs) in
    buffer_size (buffer_ p) < stop + 20 \/
    exists import,
      read_struct ImportDirectory.layout (buffer_ p) stop = Ok import /\
      ImportDirectory.import_lookup_table_rva import = 0.
Proof.
  induction fuel as [|fuel IH]; intros offset descs H; [discriminate H|].
  rewrite import_descriptors_S in H.
  destruct (Z.leb_spec (offset + 20) (buffer_size (buffer_ p))) as [Hfit|Hfit].
  - bind_inv H.
    destruct (Z.eqb_spec (ImportDirectory.import_lookup_table_rva v) 0)
      as [Hz|Hz].
    + inversion H; subst descs. cbn [length]. right. exists v.
      replace (offset + 20 * Z.of_nat 0) with offset by lia.
      split; assumption.
    + bind_inv H. bind_inv H. bind_inv H. bind_inv H. bind_inv H.
      inversion H; subst descs.
      specialize (IH _ _ E4). cbn zeta in IH.
      cbn zeta.
      replace (offset + 20 * Z.of_nat (length ((v1, v3) :: v4)))
        with (offset + 20 + 20 * Z.of_nat (length v4))
        by (cbn [length]; lia).
      exact IH.
  - inversion H; subst descs. cbn [length]. left. lia.
Qed.

(** X20.  A successful [get_import_directory] on a non-empty import directory
    emits one pair per 20-byte descriptor from the directory's mapped offset
    on, up to the first descriptor that does not fit into the buffer or
    whose [import_lookup_table_rva] is zero; a missing terminator is not an
    error.  Each pair's library name is the bytes from the offset mapped
    from the descriptor's [name_rva] up to the first NUL (or the end of the
    buffer). *)
Theorem import_descriptor_list (p : Parser) descs :
  get_import_directory p = Ok descs ->
  DataDirectory.virtual_address (data_directory p 1) <> 0 ->
  exists offset,
    rva_to_offset p (DataDirectory.virtual_address (data_directory p 1)) =
      Ok offset /\
    (buffer_size (buffer_ p) < offset + 20 * Z.of_nat (length descs) + 20 \/
     exists import,
       read_struct ImportDirectory.layout (buffer_ p)
         (offset + 20 * Z.of_nat (length descs)) = Ok import /\
       ImportDirectory.import_lookup_table_rva import = 0) /\
    forall j dll entries,
      nth_error descs j = Some (dll, entries) ->
      exists import name_start,
        read_struct ImportDirectory.layout (buffer_ p)
          (offset + 20 * Z.of_nat j) = Ok import /\
        ImportDirectory.import_lookup_table_rva import <> 0 /\
        rva_to_offset p (ImportDirectory.name_rva import) = Ok name_start /\
        dll = cstring_at (buffer_ p) name_start /\
        ~ In x00 dll.
Proof.
  unfold get_import_directory. intros H Hva.
  destruct (Z.eqb_spec
              (DataDirectory.virtual_address (data_directory p 1)) 0);
    [contradiction|].
  bind_inv H. exists v. split; [exact E|]. split.
  - exact (import_descriptors_end p _ _ _ H).
  - intros j dll entries Hj.
    destruct (import_descriptors_Ok p _ _ _ H j dll entries Hj)
      as (imp & ns & lo & Hr & Hnz & Hn & Hd & _).
    exists imp, ns. repeat (split; [assumption|]).
    rewrite Hd. apply until_nul_no_nul.
Qed.

(** [import_image] through the theorem: its one descriptor is followed by a
    zero descriptor, and its library name is [k.dll]. *)
Lemma import_descriptor_list_witness :
  exists offset,
    rva_to_offset (loaded import_image)
      (DataDirectory.virtual_address (data_directory (loaded import_image) 1)) =
      Ok offset /\
    (buffer_size (buffer_ (loaded import_image)) <
       offset + 20 * Z.of_nat 1 + 20 \/
     exists import,
       read_struct ImportDirectory.layout (buffer_ (loaded import_image))
         (offset + 20 * Z.of_nat 1) = Ok import /\
       ImportDirectory.import_lookup_table_rva import = 0) /\
    exists import name_start,
      read_struct ImportDirectory.layout (buffer_ (loaded import_image))
        (offset + 20 * Z.of_nat 0) = Ok import /\
      ImportDirectory.import_lookup_table_rva import <> 0 /\
      rva_to_offset (loaded import_image) (ImportDirectory.name_rva import) =
        Ok name_start /\
      Image.ascii_bytes "k.dll" =
        cstring_at (buffer_ (loaded import_image)) name_start /\
      ~ In x00 (Image.ascii_bytes "k.dll").
Proof.
  assert (H : get_import_directory (loaded import_image) =
              Ok [(Image.ascii_bytes "k.dll", import_image_entries)])
    by (vm_compute; reflexivity).
  assert (Hva : DataDirectory.virtual_address
                  (data_directory (loaded import_image) 1) <> 0)
    by (vm_compute; intros E; discriminate E).
  destruct (import_descriptor_list (loaded import_image) _ H Hva)
    as (offset & Ho & Hend & Hall).
  exists offset. split; [exact Ho|]. split; [exact Hend|].
  exact (Hall 0%nat (Image.ascii_bytes "k.dll") import_image_entries eq_refl).
Defined.

(** ** The walks come to an end *)

(** More fuel does not change what a finished relocation walk returned. *)
Lemma relocation_blocks_more_fuel p offset dir_size :
  forall fuel current_offset,
    relocation_blocks fuel p offset dir_size current_offset <> OutOfFuel ->
    forall extra,
      relocation_blocks (extra + fuel) p offset dir_size current_offset =
      relocation_blocks fuel p offset dir_size current_offset.
Proof.
  induction fuel as [|fuel IH]; intros cur H extra;
    [exfalso; apply H; reflexivity|].
  replace (extra + S fuel)%nat with (S (extra + fuel)) by lia.
  rewrite !relocation_blocks_S. rewrite relocation_blocks_S in H.
  destruct (cur <? offset + dir_size); [|reflexivity].
  destruct (read_struct BaseRelocationBlock.layout (buffer_ p) cur)
    as [block| | |]; cbn [bind] in *; try reflexivity.
  cbv zeta in *.
  match goal with
  | |- bind (for_each ?f ?l) _ = _ => destruct (for_each f l)
  end; cbn [bind] in *; try reflexivity.
  rewrite IH; [reflexivity|].
  intros E. apply H. rewrite E. reflexivity.
Qed.

Lemma returns_or_fails_iff {A} (r : outcome A) :
  returns_or_fails r <-> r <> OutOfFuel.
Proof.
  destruct r; cbn [returns_or_fails]; split; intros H;
    try exact I; try discriminate; try contradiction.
Qed.

(** X21.  On every parser state the two [while (true)] walks, over import lookup
    entries and over TLS callbacks, come to an end: [get_import_directory]
    and [get_tls_directory] return a result or fail (throw, or read past the
    end of the buffer), since each iteration reads a fixed-size record
    further on and [read_struct] throws at the end of the buffer. *)
Theorem import_and_tls_walks_end (p : Parser) :
  returns_or_fails (get_import_directory p) /\
  returns_or_fails (get_tls_directory p).
Proof.
  split; apply returns_or_fails_iff.
  - apply get_import_directory_returns.
  - apply get_tls_directory_returns.
Qed.

(** X22.  On a file below 4 GiB the relocation walk comes to an end although a
    block's [size_of_block] is taken from the file: a block of at least eight
    bytes advances the walk, and a shorter one claims about [2^31] entries,
    whose reads run into the end of the buffer.  As many iterations as the
    buffer has bytes (and one more) suffice, and further ones change
    nothing. *)
Theorem relocation_walk_ends (p : Parser) :
  buffer_size (buffer_ p) < 2 ^ 32 - 2 ->
  exists result,
    returns_or_fails result /\
    forall fuel, (walk_fuel p <= fuel)%nat ->
      get_relocation_directory fuel p = result.
Proof.
  intros Hsize. exists (get_relocation_directory (walk_fuel p) p).
  pose proof (get_relocation_directory_returns p Hsize) as H.
  split; [apply returns_or_fails_iff; exact H|].
  intros fuel Hfuel.
  replace fuel with ((fuel - walk_fuel p) + walk_fuel p)%nat by lia.
  revert H. unfold get_relocation_directory.
  destruct (DataDirectory.virtual_address (data_directory p 5) =? 0);
    [reflexivity|].
  destruct (rva_to_offset p
              (DataDirectory.virtual_address (data_directory p 5)))
    as [offset| | |]; cbn [bind]; try reflexivity.
  intros H. apply relocation_blocks_more_fuel. exact H.
Qed.

(** [reloc_image] through the theorem: one iteration more than the buffer
    has bytes gives its one block. *)
Lemma relocation_walk_ends_witness :
  exists result,
    returns_or_fails result /\
    forall fuel, (walk_fuel (loaded reloc_image) <= fuel)%nat ->
      get_relocation_directory fuel (loaded reloc_image) = result.
Proof.
  apply (relocation_walk_ends (loaded reloc_image)).
  vm_compute. reflexivity.
Defined.
